(** * VisiData: sheet viewport, colorizers, cell wrapping, command log and
      JSON loader

    A shallow embedding of [visidata/_sheet.py], [visidata/cmdlog.py] and
    [visidata/loaders/json.py].  Python objects that are mutated in place and
    shared between several lists (the [Column] objects of a sheet) live in an
    explicit heap and are named by references; functions that may raise
    return a [result]; [while True] loops carry fuel and are shown to need
    only a bounded amount of it.

    Part I holds the definitions, Part II the theorems. *)

From Stdlib Require Import ZArith Ascii String.
From stdpp Require Import base option gmap strings list fin_maps sorting pretty.

Local Open Scope Z_scope.

(* ===================================================================== *)
(** * Part I: definitions *)
(* ===================================================================== *)

(** ** Python values, exceptions and built-ins *)

Module Py.

(** The exceptions the modelled code can raise. *)
Inductive Exn : Type :=
  | ValueError            (* min()/max() of an empty sequence, int() of a non-number *)
  | NameError (name : string)   (* an unbound name is evaluated *)
  | KeyError              (* a missing dict key *)
  | ExpectedException (msg : string).  (* raised by visidata's error() *)

Inductive result (A : Type) : Type :=
  | Ok (a : A)
  | Raise (e : Exn).
Arguments Ok {A} a.
Arguments Raise {A} e.

Definition bind {A B} (m : result A) (k : A -> result B) : result B :=
    match m with
    | Ok a => k a
    | Raise e => Raise e
    end.

Definition len {A} (l : list A) : Z := Z.of_nat (length l).

(** Python's index normalisation for slices and [list.insert]: a negative
      index counts from the end, and the result is clamped to [0, len]. *)
Definition clamp_index (n i : Z) : Z :=
    if i <? 0 then Z.max (i + n) 0 else Z.min i n.

(** [l[start:stop]] *)
Definition slice {A} (l : list A) (start stop : Z) : list A :=
    let a := clamp_index (len l) start in
    let b := clamp_index (len l) stop in
    take (Z.to_nat (b - a)) (drop (Z.to_nat a) l).

(** [l.insert(index, x)] *)
Definition list_insert {A} (l : list A) (index : Z) (x : A) : list A :=
    let k := Z.to_nat (clamp_index (len l) index) in
    take k l ++ x :: drop k l.

(** [min(seq)] and [max(seq)]: [ValueError] on an empty sequence. *)
Definition min (l : list Z) : result Z :=
    match l with
    | [] => Raise ValueError
    | x :: r => Ok (foldr Z.min x r)
    end.

Definition max (l : list Z) : result Z :=
    match l with
    | [] => Raise ValueError
    | x :: r => Ok (foldr Z.max x r)
    end.

(** [s.count('\n')], for [len(s.split('\n')) = s.count('\n') + 1]. *)
Fixpoint count_newlines (s : string) : Z :=
    match s with
    | EmptyString => 0
    | String c r =>
        (if Ascii.eqb c "010"%char then 1 else 0) + count_newlines r
    end.

(** Truthiness of a string: non-empty. *)
Definition truthy_str (s : string) : bool :=
    match s with EmptyString => false | _ => true end.

End Py.

(** [x ← m; k] on [result] runs [k] unless [m] raised. *)
#[export] Instance result_bind : MBind Py.result := fun A B k m => Py.bind m k.
#[export] Instance result_ret : MRet Py.result := fun A a => Py.Ok a.

(** ** Columns and sheets *)

Module Sheets.
Import Py.

(** A reference to a [Column] object: its identity. *)
Definition ref := nat.

(** The attributes of a [Column] that the sheet code reads or writes.
      [width = None] is "not computed yet"; [sheet] is the back reference
      set by [recalc] and [addColumn], the identity of the owning sheet. *)
Record Column : Type := mkColumn {
    name : string;
    type : string;
    width : option Z;
    hidden : bool;
    keycol : bool;
    sheet : option nat
  }.

Definition set_width (w : option Z) (c : Column) : Column :=
    mkColumn (name c) (type c) w (hidden c) (keycol c) (sheet c).
Definition set_keycol (k : bool) (c : Column) : Column :=
    mkColumn (name c) (type c) (width c) (hidden c) k (sheet c).
Definition set_sheet (s : option nat) (c : Column) : Column :=
    mkColumn (name c) (type c) (width c) (hidden c) (keycol c) s.

#[export] Instance Column_inhabited : Inhabited Column :=
    populate (mkColumn "" "" None false false None).

(** The column objects, by identity. *)
Abbreviation Heap := (gmap ref Column).

(** A new object in the heap: its reference is one not in use. *)
Definition alloc (h : Heap) (c : Column) : ref * Heap :=
    let r := fresh (dom h) in (r, <[r := c]> h).

(** The options the layout reads. *)
Record Options : Type := mkOptions {
    disp_more_left : string;
    disp_more_right : string;
    disp_column_sep : string;
    default_width : Z
  }.

(** Two heaps whose columns carry the same flags: the sheet has the same
    key columns and the same visible columns in both. *)
Definition same_flags (h h' : Heap) : Prop :=
  ∀ c, keycol (h' !!! c) = keycol (h !!! c) ∧ hidden (h' !!! c) = hidden (h !!! c).

Section WithRow.
Context {Row : Type}.

(** The attributes of a [Sheet].  [sid] is the identity of the object;
        [windowWidth] and [windowHeight] are what [BaseSheet] reads from the
        screen. *)
Record Sheet : Type := mkSheet {
      sid : nat;
      sheetname : string;
      rows : list Row;
      columns : list ref;
      cursorRowIndex : Z;
      cursorVisibleColIndex : Z;
      topRowIndex : Z;
      leftVisibleColIndex : Z;
      rightVisibleColIndex : Z;
      rowLayout : gmap Z (Z * Z);
      visibleColLayout : gmap Z (Z * Z);
      windowWidth : Z;
      windowHeight : Z
    }.

Definition set_rows (v : list Row) (s : Sheet) : Sheet :=
      mkSheet (sid s) (sheetname s) v (columns s) (cursorRowIndex s)
        (cursorVisibleColIndex s) (topRowIndex s) (leftVisibleColIndex s)
        (rightVisibleColIndex s) (rowLayout s) (visibleColLayout s)
        (windowWidth s) (windowHeight s).
Definition set_columns (v : list ref) (s : Sheet) : Sheet :=
      mkSheet (sid s) (sheetname s) (rows s) v (cursorRowIndex s)
        (cursorVisibleColIndex s) (topRowIndex s) (leftVisibleColIndex s)
        (rightVisibleColIndex s) (rowLayout s) (visibleColLayout s)
        (windowWidth s) (windowHeight s).
Definition set_cursorRowIndex (v : Z) (s : Sheet) : Sheet :=
      mkSheet (sid s) (sheetname s) (rows s) (columns s) v
        (cursorVisibleColIndex s) (topRowIndex s) (leftVisibleColIndex s)
        (rightVisibleColIndex s) (rowLayout s) (visibleColLayout s)
        (windowWidth s) (windowHeight s).
Definition set_cursorVisibleColIndex (v : Z) (s : Sheet) : Sheet :=
      mkSheet (sid s) (sheetname s) (rows s) (columns s) (cursorRowIndex s)
        v (topRowIndex s) (leftVisibleColIndex s)
        (rightVisibleColIndex s) (rowLayout s) (visibleColLayout s)
        (windowWidth s) (windowHeight s).
Definition set_topRowIndex (v : Z) (s : Sheet) : Sheet :=
      mkSheet (sid s) (sheetname s) (rows s) (columns s) (cursorRowIndex s)
        (cursorVisibleColIndex s) v (leftVisibleColIndex s)
        (rightVisibleColIndex s) (rowLayout s) (visibleColLayout s)
        (windowWidth s) (windowHeight s).
Definition set_leftVisibleColIndex (v : Z) (s : Sheet) : Sheet :=
      mkSheet (sid s) (sheetname s) (rows s) (columns s) (cursorRowIndex s)
        (cursorVisibleColIndex s) (topRowIndex s) v
        (rightVisibleColIndex s) (rowLayout s) (visibleColLayout s)
        (windowWidth s) (windowHeight s).
Definition set_colLayout (layout : gmap Z (Z * Z)) (right : Z) (s : Sheet) : Sheet :=
      mkSheet (sid s) (sheetname s) (rows s) (columns s) (cursorRowIndex s)
        (cursorVisibleColIndex s) (topRowIndex s) (leftVisibleColIndex s)
        right (rowLayout s) layout
        (windowWidth s) (windowHeight s).

(** [Sheet.nRows] *)
Definition nRows (s : Sheet) : Z := len (rows s).

(** [Sheet.keyCols]: [[c for c in self.columns if c.keycol and not c.hidden]] *)
Definition keyCols (h : Heap) (s : Sheet) : list ref :=
      List.filter (fun c => keycol (h !!! c) && negb (hidden (h !!! c))) (columns s).

(** [Sheet.visibleCols]:
        [self.keyCols + [c for c in self.columns if not c.hidden and not c.keycol]] *)
Definition visibleCols (h : Heap) (s : Sheet) : list ref :=
      keyCols h s ++
      List.filter (fun c => negb (hidden (h !!! c)) && negb (keycol (h !!! c))) (columns s).

(** [Sheet.nVisibleCols] *)
Definition nVisibleCols (h : Heap) (s : Sheet) : Z := len (visibleCols h s).

(** [c in cols]: columns compare by identity. *)
Definition col_in (c : ref) (cols : list ref) : bool := bool_decide (c ∈ cols).

(** [Sheet.nHeaderRows]:
        [max(len(col.name.split('\n')) for col in vcols) if vcols else 0] *)
Definition nHeaderRows (h : Heap) (s : Sheet) : Z :=
      match visibleCols h s with
      | [] => 0
      | c :: r =>
          foldr Z.max (count_newlines (name (h !!! c)) + 1)
            (List.map (fun c => count_newlines (name (h !!! c)) + 1) r)
      end.

(** [Sheet.nFooterRows] *)
Definition nFooterRows : Z := 1.

(** [Sheet.nVisibleRows]:
        [len(self.rowLayout) or (self.windowHeight-self.nHeaderRows-self.nFooterRows)] *)
Definition nVisibleRows (h : Heap) (s : Sheet) : Z :=
      let n := Z.of_nat (size (rowLayout s)) in
      if n =? 0 then windowHeight s - nHeaderRows h s - nFooterRows else n.

(** [Sheet.visibleRows]:
        [self.rows[self.topRowIndex:self.topRowIndex+self.nVisibleRows]] *)
Definition visibleRows (h : Heap) (s : Sheet) : list Row :=
      slice (rows s) (topRowIndex s) (topRowIndex s + nVisibleRows h s).

(** [Sheet.addRow] *)
Definition addRow (s : Sheet) (row : Row) (index : option Z) : Sheet :=
      match index with
      | None => set_rows (rows s ++ [row]) s
      | Some i => set_rows (list_insert (rows s) i row) s
      end.

(** [Sheet.addColumn] for a column object [c] (an object is true):
        [col.sheet = self; self.columns.insert(index, col)]. *)
Definition addColumn (h : Heap) (s : Sheet) (c : ref) (index : option Z)
        : Heap * Sheet :=
      let index := match index with None => len (columns s) | Some i => i end in
      (<[c := set_sheet (Some (sid s)) (h !!! c)]> h,
       set_columns (list_insert (columns s) index c) s).

(** *** [Sheet.calcColLayout] *)

Section Layout.
(** [Column.getMaxWidth] is defined with [Column], outside these files. *)
Variable getMaxWidth : Column -> list Row -> Z.
Variable options : Options.

Definition minColWidth : Z :=
        Z.of_nat (String.length (disp_more_left options)) +
        Z.of_nat (String.length (disp_more_right options)).
Definition sepColWidth : Z :=
        Z.of_nat (String.length (disp_column_sep options)).

(** The state the [for] loop threads: the heap (a column's width may
          be computed on the way), the layout built so far and [x]. *)
Definition LoopState : Type := Heap * gmap Z (Z * Z) * Z.

(** One pass through the body of the loop, up to (not including) the
          test [if x > winWidth-1: break].  [kcols], [nvis] and [vrows] are
          [self.keyCols], [self.nVisibleCols] and [self.visibleRows], which
          do not change while the loop runs (the first two are cached). *)
Definition calcColLayout_body (s : Sheet) (kcols : list ref) (nvis : Z)
          (vrows : list Row) (vcolidx : Z) (c : ref) (st : LoopState) : LoopState :=
        let '(h, layout, x) := st in
        let h1 :=
          match width (h !!! c) with
          | None =>
              if 0 <? len vrows then
                let w := getMaxWidth (h !!! c) vrows + minColWidth in
                let w := if vcolidx =? nvis - 1 then w
                         else Z.min w (default_width options) in
                <[c := set_width (Some w) (h !!! c)]> h
              else h
          | Some _ => h
          end in
        let w := match width (h1 !!! c) with
                 | Some w => w
                 | None => default_width options
                 end in
        let w := if col_in c kcols then Z.max w 1 else w in
        if col_in c kcols || (leftVisibleColIndex s <=? vcolidx) then
          (h1, <[vcolidx := (x, Z.min w (windowWidth s - x))]> layout,
           x + w + sepColWidth)
        else (h1, layout, x).

(** [for vcolidx in range(0, self.nVisibleCols)], with its [break].
          The last component is the value of [vcolidx] when the loop is
          left: [last] if the body never ran. *)
Fixpoint calcColLayout_loop (s : Sheet) (kcols : list ref) (nvis : Z)
          (vrows : list Row) (vcols : list ref) (vcolidx : Z)
          (st : LoopState) (last : Z) : LoopState * Z :=
        match vcols with
        | [] => (st, last)
        | c :: rest =>
            let st1 := calcColLayout_body s kcols nvis vrows vcolidx c st in
            if windowWidth s - 1 <? st1.2 then (st1, vcolidx)
            else calcColLayout_loop s kcols nvis vrows rest (vcolidx + 1) st1 vcolidx
        end.

Definition calcColLayout (h : Heap) (s : Sheet) : Heap * Sheet :=
        let '((h1, layout, _), vcolidx) :=
          calcColLayout_loop s (keyCols h s) (nVisibleCols h s) (visibleRows h s)
            (visibleCols h s) 0 (h, ∅, 0) 0 in
        (h1, set_colLayout layout vcolidx s).

(** *** [Sheet.checkCursor] *)

(** The keys of the layout dict. *)
Definition layout_keys (s : Sheet) : list Z :=
        (map_to_list (visibleColLayout s)).*1.

(** The [while True] loop of the horizontal scroll.  [None]: the fuel
          ran out before the loop was left. *)
Fixpoint checkCursor_loop (fuel : nat) (h : Heap) (s : Sheet)
          : option (result (Heap * Sheet)) :=
        match fuel with
        | O => None
        | S fuel' =>
            if leftVisibleColIndex s =? cursorVisibleColIndex s then Some (Ok (h, s))
            else
              let '(h1, s1) := calcColLayout h s in
              match Py.min (layout_keys s1), Py.max (layout_keys s1) with
              | Raise e, _ | Ok _, Raise e => Some (Raise e)
              | Ok mincolidx, Ok maxcolidx =>
                  if cursorVisibleColIndex s1 <? mincolidx then
                    (* the right-hand side reads [mincolid], which is unbound *)
                    Some (Raise (NameError "mincolid"))
                  else if maxcolidx <? cursorVisibleColIndex s1 then
                    checkCursor_loop fuel' h1
                      (set_leftVisibleColIndex
                         (leftVisibleColIndex s1 +
                          Z.max ((maxcolidx - cursorVisibleColIndex s1) / 2) 1) s1)
                  else
                    match visibleColLayout s1 !! cursorVisibleColIndex s1 with
                    | None => Some (Raise KeyError)
                    | Some (cur_x, cur_w) =>
                        if cur_x + cur_w <? windowWidth s1 then Some (Ok (h1, s1))
                        else checkCursor_loop fuel' h1
                               (set_leftVisibleColIndex (leftVisibleColIndex s1 + 1) s1)
                    end
              end
        end.

(** The three clamps at the head of [checkCursor]. *)
Definition clampCursorRow (s : Sheet) : Sheet :=
        if (nRows s =? 0) || (cursorRowIndex s <=? 0) then set_cursorRowIndex 0 s
        else if nRows s <=? cursorRowIndex s then set_cursorRowIndex (nRows s - 1) s
        else s.

Definition clampCursorCol (h : Heap) (s : Sheet) : Sheet :=
        if cursorVisibleColIndex s <=? 0 then set_cursorVisibleColIndex 0 s
        else if nVisibleCols h s <=? cursorVisibleColIndex s
             then set_cursorVisibleColIndex (nVisibleCols h s - 1) s
        else s.

Definition clampTopRow (s : Sheet) : Sheet :=
        if topRowIndex s <=? 0 then set_topRowIndex 0 s
        else if nRows s - 1 <? topRowIndex s then set_topRowIndex (nRows s - 1) s
        else s.

(** The vertical scroll. *)
Definition scrollRows (h : Heap) (s : Sheet) : Sheet :=
        let y := cursorRowIndex s - topRowIndex s + nHeaderRows h s in
        if y <? nHeaderRows h s then set_topRowIndex (cursorRowIndex s) s
        else if nHeaderRows h s + nVisibleRows h s - 1 <? y
             then set_topRowIndex (cursorRowIndex s - nVisibleRows h s + 1) s
        else s.

Definition checkCursor (fuel : nat) (h : Heap) (s : Sheet)
          : option (result (Heap * Sheet)) :=
        let s := clampCursorRow s in
        let s := clampCursorCol h s in
        let s := clampTopRow s in
        let x := cursorVisibleColIndex s - leftVisibleColIndex s in
        let s := scrollRows h s in
        if x <=? 0 then
          Some (Ok (h, set_leftVisibleColIndex (cursorVisibleColIndex s) s))
        else checkCursor_loop fuel h s.

End Layout.
End WithRow.
Arguments Sheet : clear implicits.

End Sheets.

(** ** Colorizers: [Sheet.getColorizers] and [Sheet.colorize] *)

Module Colorizers.
Import Py.

(** What a colorizer's predicate may return, and what ends up on the
      colour stack: [None], a boolean, a number or an option name. *)
Inductive PyVal : Type :=
  | VNone
  | VBool (b : bool)
  | VInt (n : Z)
  | VStr (s : string).

Definition truthy (v : PyVal) : bool :=
    match v with
    | VNone => false
    | VBool b => b
    | VInt n => negb (n =? 0)
    | VStr s => truthy_str s
    end.

(** The three namedtuple classes share their fields
      [precedence coloropt func]; [func] is the identity of the predicate. *)
Inductive Kind : Type := RowColorizer | CellColorizer | ColumnColorizer.

Record Colorizer : Type := mkColorizer {
    kind : Kind;
    precedence : Z;
    coloropt : option string;
    func : nat
  }.

(** [==] (and the hash) of a namedtuple is that of the tuple of its
      fields: the class does not take part. *)
Definition same (a b : Colorizer) : bool :=
    (precedence a =? precedence b)
    && bool_decide (coloropt a = coloropt b)
    && bool_decide (func a = func b).

(** A class, as [getColorizers] sees it: the value of
      [getattr(cls, 'colorizers', [])] and [cls.__bases__]. *)
#[warnings="-register-all"]
Inductive Class : Type :=
  | mkClass (colorizers : list Colorizer) (bases : list Class).

Definition colorizers_of (c : Class) : list Colorizer :=
    match c with mkClass l _ => l end.
Definition bases_of (c : Class) : list Class :=
    match c with mkClass _ bs => bs end.

(** The generator [allParents]: the bases, then the parents of each. *)
Fixpoint allParents (cls : Class) : list Class :=
    match cls with
    | mkClass _ bs =>
        bs ++ (fix each (l : list Class) : list Class :=
                 match l with
                 | [] => []
                 | b :: r => allParents b ++ each r
                 end) bs
    end.

(** [_colorizers.add(c)]: the elements of the set, without repetition.
      The list holds them in the order they were first added; the order in
      which the set is iterated is another matter ([set_iter] below). *)
Definition set_add (s : list Colorizer) (c : Colorizer) : list Colorizer :=
    if existsb (same c) s then s else s ++ [c].

(** The two nested [for] loops that fill the set.  [own] is
      [getattr(self, 'colorizers', [])], [cls] is [self.__class__]. *)
Definition gather (own : list Colorizer) (cls : Class) : list Colorizer :=
    foldl (fun s l => foldl set_add s l) []
      (own :: List.map colorizers_of (allParents cls)).

(** [sorted(xs, key=lambda x: x.precedence, reverse=True)]: a stable
      sort, so [x] goes in front of the first element whose precedence is
      not higher than its own. *)
Fixpoint insert_desc (x : Colorizer) (l : list Colorizer) : list Colorizer :=
    match l with
    | [] => [x]
    | y :: r =>
        if precedence x <? precedence y then y :: insert_desc x r
        else x :: y :: r
    end.

Definition sorted_desc (l : list Colorizer) : list Colorizer :=
    foldr insert_desc [] l.

(** The order of the result: higher precedence first. *)
Definition before (a b : Colorizer) : Prop := precedence b ≤ precedence a.

Section Resolve.
(** The order in which Python iterates over a set that holds the given
        elements.  It follows from the hashes of the elements (here: of a
        string and of a function object) and is no part of the program. *)
Variable set_iter : list Colorizer -> list Colorizer.

(** [(self, col, row, value)], what a predicate is called with, and the
        attribute [colors.resolve_colors] builds. *)
Context {Ctx Attr : Type}.
(** [colorizer.func(self, col, row, value)] *)
Variable call : nat -> Ctx -> result PyVal.
Variable resolve_colors : list PyVal -> Attr.

Definition getColorizers (own : list Colorizer) (cls : Class) : list Colorizer :=
      sorted_desc (set_iter (gather own cls)).

(** One pass through the loop of [colorize]: the colour stack and the
        exceptions handed to [exceptionCaught]. *)
Definition colorize_step (ctx : Ctx) (acc : list PyVal * list Exn)
        (c : Colorizer) : list PyVal * list Exn :=
      match call (func c) ctx with
      | Ok r =>
          if truthy r then
            (acc.1 ++ [match coloropt c with
                       | Some o => if truthy_str o then VStr o else r
                       | None => r
                       end], acc.2)
          else acc
      | Raise e => (acc.1, acc.2 ++ [e])
      end.

(** What one colorizer puts on the stack: [coloropt] if it has one,
    else what its predicate returned; nothing if the predicate returned
    a false value or raised. *)
Definition applies (ctx : Ctx) (c : Colorizer) : option PyVal :=
  match call (func c) ctx with
  | Ok r =>
      if truthy r then
        Some (match coloropt c with
              | Some o => if truthy_str o then VStr o else r
              | None => r
              end)
      else None
  | Raise _ => None
  end.

Definition colorstack (own : list Colorizer) (cls : Class) (ctx : Ctx)
        : list PyVal * list Exn :=
      foldl (colorize_step ctx) ([], []) (getColorizers own cls).

Definition colorize (own : list Colorizer) (cls : Class) (ctx : Ctx)
        : Attr * list Exn :=
      let '(stack, caught) := colorstack own cls ctx in
      (resolve_colors stack, caught).
End Resolve.

End Colorizers.

(** ** [Sheet.__copy__] *)

Module Copying.
Import Py Sheets.

Section Copy.
Context {Row : Type}.
(** [Column.__copy__] and [BaseSheet.__copy__] are defined with those
        classes, outside these files: the first gives the attributes of the
        copy of a column, the second the new sheet object [super().__copy__()]
        returns. *)
Variable Column__copy__ : Column -> Column.
Variable BaseSheet__copy__ : Sheet Row -> Sheet Row.

(** [[copy(c) for c in cols]] *)
Fixpoint copy_columns (h : Heap) (cols : list ref) : list ref * Heap :=
      match cols with
      | [] => ([], h)
      | c :: rest =>
          let '(r, h1) := alloc h (Column__copy__ (h !!! c)) in
          let '(rs, h2) := copy_columns h1 rest in
          (r :: rs, h2)
      end.

(** [Sheet.setKeys]: [for col in cols: col.keycol = True] *)
Definition setKeys (h : Heap) (cols : list ref) : Heap :=
      foldl (fun h c => <[c := set_keycol true (h !!! c)]> h) h cols.

(** [Sheet.recalc]: set [col.sheet] to this sheet for all columns. *)
Definition recalc (h : Heap) (s : Sheet Row) : Heap :=
      foldl (fun h c => <[c := set_sheet (Some (sid s)) (h !!! c)]> h) h (columns s).

Definition Sheet__copy__ (h : Heap) (s : Sheet Row) : Heap * Sheet Row :=
      let kcols := keyCols h s in                (* cached by [lru_cache] *)
      let ret := BaseSheet__copy__ s in
      let ret := set_rows [] ret in
      let '(kcopies, h1) := copy_columns h kcols in
      let ret := set_columns kcopies ret in
      let h2 := setKeys h1 (columns ret) in
      let '(others, h3) :=
        copy_columns h2
          (List.filter (fun c => negb (col_in c kcols)) (columns s)) in
      let ret := set_columns (columns ret ++ others) ret in
      let h4 := recalc h3 ret in
      let ret := set_cursorRowIndex 0 (set_topRowIndex 0 ret) in
      (h4, ret).
End Copy.

End Copying.

(** ** The command log: recording *)

Module CmdLog.
Import Py Sheets.

(** Prefixes which should not be logged. *)
Definition nonLogged : list string :=
    [ "forget"; "exec-longname"; "undo"; "redo"; "quit";
      "show"; "error"; "errors"; "statuses"; "options"; "threads"; "cmdlog"; "jump";
      "replay"; "stop"; "pause"; "cancel"; "advance"; "save-cmdlog";
      "go-"; "search"; "scroll"; "prev"; "next"; "page"; "start"; "end"; "zoom";
      "resize"; "visibility";
      "suspend"; "redraw"; "no-op"; "help"; "syscopy"; "syspaste"; "sysopen";
      "profile"; "toggle" ].

(** [longname.startswith(n)] *)
Definition startswith (longname n : string) : bool := String.prefix n longname.

(** The loop of [isLoggableCommand] over the prefixes still to try. *)
Fixpoint isLoggable_from (ns : list string) (longname : string) : bool :=
    match ns with
    | [] => true
    | n :: rest =>
        if startswith longname n then false else isLoggable_from rest longname
    end.

Definition isLoggableCommand (longname : string) : bool :=
    isLoggable_from nonLogged longname.

(** An element of [undofuncs]: an undo callback, or a character (what
      [+=] with a string puts into a list). *)
Inductive UndoItem : Type :=
  | UndoFunc (id : nat)
  | UndoChar (c : ascii).

(** A [CommandLogRow].  The fields are strings; [None] and the empty
      string, both false, are both written [""]. *)
Record CommandLogRow : Type := mkRow {
    sheet : string;
    col : string;
    row : string;
    longname : string;
    input : string;
    keystrokes : string;
    comment : string;
    undofuncs : list UndoItem
  }.

(** [r[-1] += ' [%s]' % err]: the last field of the row is [undofuncs]. *)
Definition add_err (err : string) (r : CommandLogRow) : CommandLogRow :=
    mkRow (sheet r) (col r) (row r) (longname r) (input r) (keystrokes r) (comment r)
      (undofuncs r ++ List.map UndoChar (list_ascii_of_string (" [" ++ err ++ "]"))).

(** What recording reads and writes: [vd.activeCommand], the rows of every
      [CommandLog] sheet by the identity of the sheet (a log that was never
      written has no entry: its [rows] are empty), the session log behind
      [options.cmdlog_histfile]. *)
Record Recorder : Type := mkRecorder {
    activeCommand : option CommandLogRow;
    logrows : gmap nat (list CommandLogRow);
    cmdlog_histfile : string;
    sessionlog : list CommandLogRow
  }.

Definition rows_of (rec : Recorder) (log : nat) : list CommandLogRow :=
    default [] (logrows rec !! log).

(** [Sheet.addRow(row)] on a [CommandLog]: [self.rows.append(row)] *)
Definition addRow (log : nat) (r : CommandLogRow)
      (m : gmap nat (list CommandLogRow)) : gmap nat (list CommandLogRow) :=
    <[log := default [] (m !! log) ++ [r]]> m.

Section Recording.
(** [sheet.cmdlog_sheet]: the identity of the [CommandLog] that belongs
        to a sheet (a lazy property: made when first read). *)
Variable cmdlog_sheet : nat -> nat.

(** [CommandLog.afterExecSheet(self, sheet, escaped, err)]; [self] and
        [vs], the acting sheet, are identities. *)
Definition afterExecSheet (self vs : nat) (escaped : bool) (err : string)
        (rec : Recorder) : Recorder :=
      match activeCommand rec with
      | None => rec
      | Some r =>
          let r := if truthy_str err then add_err err r else r in
          if negb escaped && isLoggableCommand (longname r) && negb (Nat.eqb self vs) then
            let m := addRow self r (logrows rec) in
            let m := addRow (cmdlog_sheet vs) r m in
            mkRecorder None m (cmdlog_histfile rec)
              (if truthy_str (cmdlog_histfile rec) then sessionlog rec ++ [r]
               else sessionlog rec)
          else mkRecorder None (logrows rec) (cmdlog_histfile rec) (sessionlog rec)
      end.
End Recording.

(** ** The command log: what steers a replay *)

(** The class attributes of [CommandLog] that steer a replay.
      [semaphore] is the count of [threading.Semaphore(0)]. *)
Record Ctl : Type := mkCtl {
    currentReplay : option nat;
    currentReplayRow : option CommandLogRow;
    paused : bool;
    semaphore : nat
  }.

(** [CommandLog.advance]: [CommandLog.semaphore.release()] *)
Definition advance (c : Ctl) : Ctl :=
    mkCtl (currentReplay c) (currentReplayRow c) (paused c) (S (semaphore c)).

(** [CommandLog.cancel] *)
Definition cancel (c : Ctl) : Ctl :=
    advance (mkCtl None None (paused c) (semaphore c)).

(** [CommandLog.togglePause] *)
Definition togglePause (c : Ctl) : Ctl :=
    match currentReplay c with
    | None => c                      (* status('no replay to pause') *)
    | Some _ =>
        let c1 := if paused c then advance c else c in
        mkCtl (currentReplay c1) (currentReplayRow c1) (negb (paused c1)) (semaphore c1)
    end.

(** What the interface thread may do while the replay thread runs or
      waits: the commands [stop-replay], [advance-replay] and
      [pause-replay]; [Tick] is the moment a pending timed wait runs out. *)
Inductive UiEvent : Type := StopReplay | AdvanceReplay | PauseReplay | Tick.

#[export] Instance UiEvent_eq_dec : EqDecision UiEvent.
Proof. solve_decision. Defined.

Definition ui_event (c : Ctl) (e : UiEvent) : Ctl :=
    match e with
    | StopReplay =>      (* (CommandLog.currentReplay or fail(...)).cancel() *)
        match currentReplay c with Some _ => cancel c | None => c end
    | AdvanceReplay =>   (* (CommandLog.currentReplay or fail(...)).advance() *)
        match currentReplay c with Some _ => advance c | None => c end
    | PauseReplay => togglePause c
    | Tick => c
    end.

(** A replay that was stopped: no current replay, and the release that
    [cancel] gave the semaphore not taken yet. *)
Definition stopped (c : Ctl) : Prop :=
  currentReplay c = None ∧ (0 < semaphore c)%nat.

(** What makes a wait end: the replay was stopped already, or it is
    running and a stop is among the events to come. *)
Definition will_stop (c : Ctl) (evs : list UiEvent) : Prop :=
  stopped c ∨ (is_Some (currentReplay c) ∧ StopReplay ∈ evs).

(** What holds when the wait has ended: the replay is cancelled, or will
    be by an event not seen yet. *)
Definition stops (c : Ctl) (evs : list UiEvent) : Prop :=
  currentReplay c = None ∨ (is_Some (currentReplay c) ∧ StopReplay ∈ evs).

(** [CommandLog.semaphore.acquire(timeout=...)] while the interface thread
      goes through [evs].  [timed]: the wait has a timeout.  The result is
      whether the semaphore was acquired, and the events not yet seen;
      [None]: no timeout, no release, no event left: the thread waits for ever. *)
Fixpoint acquire (timed : bool) (c : Ctl) (evs : list UiEvent)
      : option (bool * Ctl * list UiEvent) :=
    match semaphore c with
    | S n => Some (true, mkCtl (currentReplay c) (currentReplayRow c) (paused c) n, evs)
    | O =>
        match evs with
        | [] => if timed then Some (false, c, []) else None
        | Tick :: evs' => if timed then Some (false, c, evs') else acquire timed c evs'
        | e :: evs' => acquire timed (ui_event c e) evs'
        end
    end.

(** [CommandLog.delay]: the timeout is [None] when paused. *)
Definition delay (c : Ctl) (evs : list UiEvent) : option (bool * Ctl * list UiEvent) :=
    match acquire (negb (paused c)) c evs with
    | Some (acquired, c1, evs1) => Some (acquired || negb (paused c1), c1, evs1)
    | None => None
    end.

(** [while not self.delay(): pass] *)
Fixpoint wait_loop (fuel : nat) (c : Ctl) (evs : list UiEvent)
      : option (Ctl * list UiEvent) :=
    match fuel with
    | O => None
    | S fuel' =>
        match delay c evs with
        | None => None
        | Some (true, c1, evs1) => Some (c1, evs1)
        | Some (false, c1, evs1) => wait_loop fuel' c1 evs1
        end
    end.

(** The wait between two entries, with the events that fall into it; the
      events the wait did not see have happened when the next entry is
      looked at. *)
Definition wait (c : Ctl) (evs : list UiEvent) : option Ctl :=
    match wait_loop (S (length evs)) c evs with
    | Some (c1, evs1) => Some (foldl ui_event c1 evs1)
    | None => None
    end.

Section Replay.
Context {Row TypedValue : Type}.
(** [Column.getTypedValue], Python's [str] and [int] ([None]: [int]
        raises [ValueError]), [options.rowkey_prefix]. *)
Variable getTypedValue : Column -> Row -> TypedValue.
Variable str : TypedValue -> string.
Variable int : string -> option Z.
Variable rowkey_prefix : string.

(** [Sheet.rowkey] *)
Definition rowkey (h : Heap) (vs : Sheet Row) (r : Row) : list TypedValue :=
      List.map (fun c => getTypedValue (h !!! c) r) (keyCols h vs).

(** [keystr] *)
Definition keystr (k : list TypedValue) : string :=
      rowkey_prefix ++ String.concat "," (List.map str k).

(** [indexMatch]: the smallest [i] for which [func(L[i])] is true. *)
Fixpoint indexMatch {A} (L : list A) (func : A -> bool) : option Z :=
      match L with
      | [] => None
      | x :: rest =>
          if func x then Some 0
          else match indexMatch rest func with
               | Some i => Some (i + 1)
               | None => None
               end
      end.

(** [Sheet.getRowIndexFromStr] *)
Definition getRowIndexFromStr (h : Heap) (vs : Sheet Row) (rowstr : string)
        : option Z :=
      match indexMatch (rows vs) (fun r => String.eqb (keystr (rowkey h vs r)) rowstr) with
      | Some index => Some index
      | None => int rowstr
      end.

(** One step of the cursor toward [target]. *)
Definition toward (target cur : Z) : Z :=
      cur + (if 0 <? target - cur then 1 else -1).

(** [Sheet.moveToRow].  With [options.replay_movement] the [while] loop
        is entered when the cursor is not on the target yet; its body moves
        the cursor by one and then evaluates [self.delay(0.5)].  No [self]
        is bound there (the parameter is [vs], and the module has no global
        of that name): [NameError], after the first step. *)
Definition moveToRow (replay_movement : bool) (h : Heap) (vs : Sheet Row)
        (rowstr : string) : Sheet Row * result bool :=
      match getRowIndexFromStr h vs rowstr with
      | None => (vs, Ok false)
      | Some rowidx =>
          if replay_movement then
            if cursorRowIndex vs =? rowidx then (vs, Ok true)
            else (set_cursorRowIndex (toward rowidx (cursorRowIndex vs)) vs,
                  Raise (NameError "self"))
          else (set_cursorRowIndex rowidx vs, Ok true)
      end.

(** [Sheet.moveToCol]; the same loop, the same unbound [self]. *)
Definition moveToCol (replay_movement : bool) (h : Heap) (vs : Sheet Row)
        (colstr : string) : Sheet Row * result bool :=
      let vcolidx :=
        match int colstr with
        | Some i => Some i
        | None => indexMatch (visibleCols h vs)
                    (fun c => String.eqb colstr (name (h !!! c)))
        end in
      match vcolidx with
      | None => (vs, Ok false)
      | Some vcolidx =>
          if replay_movement then
            if cursorVisibleColIndex vs =? vcolidx then (vs, Ok true)
            else (set_cursorVisibleColIndex (toward vcolidx (cursorVisibleColIndex vs)) vs,
                  Raise (NameError "self"))
          else (set_cursorVisibleColIndex vcolidx vs, Ok true)
      end.

(** The sheets a replay acts on, by name (the log that is replayed is not
        among them), their columns, and the option [replay_movement]. *)
Record Env : Type := mkEnv {
      heap : Heap;
      sheets : gmap string (Sheet Row);
      replay_movement : bool
    }.

(** Modelled from the spec: [vd.getSheet] is defined outside these
        files; it looks up the named sheet and finds nothing if absent. *)
Definition getSheet (env : Env) (sheetname : string) : option (Sheet Row) :=
      sheets env !! sheetname.

(** The truth value of a sheet object, as [BaseSheet] and [Sheet.__len__]
        settle it between them. *)
Variable sheet_bool : Sheet Row -> bool.

Definition put_sheet (env : Env) (sheetname : string) (vs : Sheet Row) : Env :=
      mkEnv (heap env) (<[sheetname := vs]> (sheets env)) (replay_movement env).

(** [x or error(msg)]: [error] raises. *)
Definition or_error (res : result bool) (msg : string) : result unit :=
      match res with
      | Ok true => Ok tt
      | Ok false => Raise (ExpectedException msg)
      | Raise e => Raise e
      end.

(** The double quote of the messages ['no "%s" row'], ['no "%s" column']. *)
Definition quoted (s : string) : string :=
      String (ascii_of_nat 34) (s ++ String (ascii_of_nat 34) EmptyString).

(** [CommandLog.moveToReplayContext]: the name of the sheet moved to. *)
Definition moveToReplayContext (env : Env) (r : CommandLogRow)
        : Env * result (option string) :=
      if truthy_str (sheet r) then
        match getSheet env (sheet r) with
        | Some vs =>
            if sheet_bool vs then
              let '(vs1, moved) :=
                if truthy_str (row r) then
                  let '(vs1, res) := moveToRow (replay_movement env) (heap env) vs (row r) in
                  (vs1, or_error res ("no " ++ quoted (row r) ++ " row"))
                else (vs, Ok tt) in
              match moved with
              | Raise e => (put_sheet env (sheet r) vs1, Raise e)
              | Ok _ =>
                  let '(vs2, moved) :=
                    if truthy_str (col r) then
                      let '(vs2, res) :=
                        moveToCol (replay_movement env) (heap env) vs1 (col r) in
                      (vs2, or_error res ("no " ++ quoted (col r) ++ " column"))
                    else (vs1, Ok tt) in
                  (put_sheet env (sheet r) vs2,
                   match moved with
                   | Raise e => Raise e
                   | Ok _ => Ok (Some (sheet r))
                   end)
              end
            else (env, Raise (ExpectedException ("no sheet named " ++ sheet r)))
        | None => (env, Raise (ExpectedException ("no sheet named " ++ sheet r)))
        end
      else (env, Ok None).

Definition set_currentReplayRow (v : option CommandLogRow) (c : Ctl) : Ctl :=
      mkCtl (currentReplay c) v (paused c) (semaphore c).
Definition set_currentReplay (v : option nat) (c : Ctl) : Ctl :=
      mkCtl v (currentReplayRow c) (paused c) (semaphore c).

End Replay.

End CmdLog.

(** ** The JSON loader: [JsonSheet.addRow] *)

Module Json.
Import Py Sheets.

(** What [json.load] returns.  A dict keeps its items in order, each key
      once; a number is kept as it was written. *)
#[warnings="-register-all"]
Inductive Value : Type :=
  | JNull
  | JBool (b : bool)
  | JNum (repr : string)
  | JStr (s : string)
  | JList (items : list Value)
  | JDict (items : list (string * Value)).

(** A [JsonSheet] once [iterload] has started: the sheet, and [colnames],
      the dict from column name to [Column]. *)
Record JsonSheet : Type := mkJsonSheet {
    base : Sheet Value;
    colnames : gmap string ref
  }.

(** The items of a row whose keys have no column yet. *)
Definition unseen (names : gmap string ref) (items : list (string * Value))
    : list (string * Value) :=
  List.filter (fun kv => bool_decide (names !! kv.1 = None)) items.

Section AddRow.
(** [ColumnItem(k, type=t)] and [deduceType] are defined outside these
        files: the attributes of the column made for a key, the type
        guessed for a value. *)
Variable ColumnItem : string -> string -> Column.
Variable deduceType : Value -> string.

(** The loop [for k in row] of [addRow], over the items still to see. *)
Fixpoint addRow_keys (h : Heap) (js : JsonSheet) (items : list (string * Value))
        : Heap * JsonSheet :=
      match items with
      | [] => (h, js)
      | (k, v) :: rest =>
          match colnames js !! k with
          | Some _ => addRow_keys h js rest
          | None =>
              let '(c, h1) := alloc h (ColumnItem k (deduceType v)) in
              let names := <[k := c]> (colnames js) in
              let '(h2, s2) := addColumn h1 (base js) c None in
              addRow_keys h2 (mkJsonSheet s2 names) rest
          end
      end.

(** [JsonSheet.addRow]: the last component is what it returns. *)
Definition addRow (h : Heap) (js : JsonSheet) (row : Value) (index : option Z)
        : Heap * JsonSheet * option Value :=
      let js := mkJsonSheet (Sheets.addRow (base js) row index) (colnames js) in
      match row with
      | JDict items =>
          let '(h1, js1) := addRow_keys h js items in
          (h1, js1, Some row)
      | _ => (h, js, None)
      end.
End AddRow.

End Json.


(** ** Wrapping a cell: [splitcell] *)

Module Wrap.

(** A Python string: its characters, as code points below 256. *)
Abbreviation str := (list ascii).

Definition code (c : ascii) : nat := nat_of_ascii c.
Definition between (lo hi : nat) (c : ascii) : bool :=
  (lo <=? code c)%nat && (code c <=? hi)%nat.
Definition is_code (n : nat) (c : ascii) : bool := (code c =? n)%nat.

(** [c.isspace()], the whitespace of [str.split] and [str.strip]. *)
Definition isspace (c : ascii) : bool :=
  between 9 13 c || between 28 32 c || is_code 133 c || is_code 160 c.

(** A line boundary for [str.splitlines]. *)
Definition is_linebreak (c : ascii) : bool :=
  between 10 13 c || between 28 30 c || is_code 133 c.

(** [textwrap._whitespace]: tab, newline, vertical tab, form feed,
    carriage return, space. *)
Definition is_ws (c : ascii) : bool := between 9 13 c || is_code 32 c.

(** The classes of [TextWrapper.wordsep_re]: [\d], [\w], [letter] (a word
    character that is no digit) and [word_punct]. *)
Definition is_digit (c : ascii) : bool := between 48 57 c.
Definition is_word (c : ascii) : bool :=
  between 48 57 c || between 65 90 c || is_code 95 c || between 97 122 c ||
  is_code 170 c || between 178 179 c || is_code 181 c || between 185 186 c ||
  between 188 190 c || between 192 214 c || between 216 246 c || between 248 255 c.
Definition is_letter (c : ascii) : bool := is_word c && negb (is_digit c).
Definition is_word_punct (c : ascii) : bool :=
  is_word c || is_code 33 c || is_code 34 c || is_code 39 c || is_code 38 c || is_code 46 c || is_code 44 c || is_code 63 c.
Definition is_hyphen (c : ascii) : bool := is_code 45 c.

Definition space : ascii := ascii_of_nat 32.

(** [s.splitlines()]: [cur] is the line read so far.  A carriage return
    followed by a newline is one boundary. *)
Fixpoint splitlines_from (cur : str) (s : str) : list str :=
  match s with
  | [] => match cur with [] => [] | _ => [cur] end
  | c :: r =>
      if is_linebreak c then
        cur :: match r with
               | c2 :: r2 =>
                   if is_code 13 c && is_code 10 c2 then splitlines_from [] r2
                   else splitlines_from [] r
               | [] => splitlines_from [] r
               end
      else splitlines_from (cur ++ [c]) r
  end.

Definition splitlines (s : str) : list str := splitlines_from [] s.

(** [s.expandtabs(8)], from column [col]. *)
Fixpoint expandtabs_from (col : nat) (s : str) : str :=
  match s with
  | [] => []
  | c :: r =>
      if is_code 9 c then
        let n := (8 - col mod 8)%nat in
        replicate n space ++ expandtabs_from (col + n) r
      else if is_code 10 c || is_code 13 c then c :: expandtabs_from 0 r
      else c :: expandtabs_from (S col) r
  end.

Definition expandtabs (s : str) : str := expandtabs_from 0 s.

(** *** [TextWrapper._split]: the chunks of [wordsep_re] *)

(** The number of characters at the head of [s] that satisfy [p]. *)
Fixpoint run (p : ascii -> bool) (s : str) : nat :=
  match s with
  | c :: r => if p c then S (run p r) else 0
  | [] => 0
  end.

(** [-{2,}(?=\w)]: two hyphens or more, a word character after them. *)
Definition emdash (s : str) : option nat :=
  let n := run is_hyphen s in
  match drop n s with
  | c :: _ => if (2 <=? n)%nat && is_word c then Some n else None
  | [] => None
  end.

(** The look-behind of a hyphen in a hyphenated word, when the hyphen has
    been read: [(?<=letter{2}-) | (?<=letter-letter-)].  [prev] holds the
    characters before the hyphen, the last one first. *)
Definition behind_hyphen (prev : str) : bool :=
  match prev with
  | b :: a :: more =>
      (is_letter a && is_letter b) ||
      match more with
      | z :: _ => is_letter z && is_hyphen a && is_letter b
      | [] => false
      end
  | _ => false
  end.

(** Its look-ahead: [(?= letter -? letter)]. *)
Definition ahead_hyphen (s : str) : bool :=
  match s with
  | a :: b :: more =>
      is_letter a &&
      ((is_hyphen b && match more with c :: _ => is_letter c | [] => false end)
       || is_letter b)
  | _ => false
  end.

(** The word alternative, [nows+? (?: ... )], when at least one character
    of the word has been read: how many more characters the chunk takes.
    [prev] holds the characters read, the last one first; [rest] is what
    follows.  The word ends after a hyphen between letters, before
    whitespace or the end, or before an em-dash. *)
Fixpoint word_more (prev rest : str) : nat :=
  match rest with
  | [] => 0
  | c :: rest' =>
      if is_hyphen c && behind_hyphen prev && ahead_hyphen rest' then 1
      else if is_ws c then 0
      else if match prev with p :: _ => is_word_punct p | [] => false end
              && match emdash rest with Some _ => true | None => false end
      then 0
      else S (word_more (c :: prev) rest')
  end.

(** The length of the chunk at the head of [rest] (not empty). *)
Definition chunk_len (prev rest : str) : nat :=
  match rest with
  | [] => 0
  | c :: rest' =>
      if is_ws c then run is_ws rest
      else
        match (if match prev with p :: _ => is_word_punct p | [] => false end
               then emdash rest else None) with
        | Some n => n
        | None => S (word_more (c :: prev) rest')
        end
  end.

(** [wordsep_re.split(text)] without the empty strings: the chunks from
    [rest] on, [prev] being the text before it, last character first.
    Every chunk takes a character at least: the length of [rest] is fuel
    enough. *)
Fixpoint split_from (fuel : nat) (prev rest : str) : list str :=
  match fuel with
  | O => []
  | S fuel' =>
      match rest with
      | [] => []
      | _ =>
          let n := chunk_len prev rest in
          take n rest :: split_from fuel' (rev (take n rest) ++ prev) (drop n rest)
      end
  end.

Definition split (text : str) : list str := split_from (length text) [] text.

(** *** [TextWrapper._wrap_chunks] *)

(** [chunk.strip() == '']: nothing but whitespace. *)
Definition blank (chunk : str) : bool := forallb isspace chunk.

Definition strlen (s : str) : Z := Z.of_nat (length s).

(** The inner [while]: the chunks that fit on the line, and the rest. *)
Fixpoint fill (width cur_len : Z) (chunks : list str) : list str * list str :=
  match chunks with
  | [] => ([], [])
  | c :: rest =>
      if cur_len + strlen c <=? width then
        let '(line, rest') := fill width (cur_len + strlen c) rest in
        (c :: line, rest')
      else ([], chunks)
  end.

(** The last chunk of the line is dropped if it is blank. *)
Definition drop_last_blank (cur_line : list str) : list str :=
  match last cur_line with
  | Some c => if blank c then removelast cur_line else cur_line
  | None => cur_line
  end.

(** One pass through the outer [while], for [chunks] not empty: the line
    it makes (empty: none) and the chunks left.  [started]: [lines] is not
    empty.  A chunk longer than the width goes on a line of its own
    ([break_long_words] is false). *)
Definition wrap_line (width : Z) (started : bool) (chunks : list str)
    : list str * list str :=
  let chunks :=
    match chunks with
    | c :: rest => if blank c && started then rest else chunks
    | [] => chunks
    end in
  let '(cur_line, chunks) := fill width 0 chunks in
  let '(cur_line, chunks) :=
    match chunks with
    | c :: rest =>
        if width <? strlen c then
          match cur_line with
          | [] => ([c], rest)
          | _ => (cur_line, chunks)
          end
        else (cur_line, chunks)
    | [] => (cur_line, chunks)
    end in
  (drop_last_blank cur_line, chunks).

(** The outer [while]; every pass takes a chunk at least. *)
Fixpoint wrap_chunks (fuel : nat) (width : Z) (lines : list str) (chunks : list str)
    : list str :=
  match fuel with
  | O => lines
  | S fuel' =>
      match chunks with
      | [] => lines
      | _ =>
          let '(cur_line, chunks') :=
            wrap_line width (match lines with [] => false | _ => true end) chunks in
          wrap_chunks fuel' width
            (match cur_line with [] => lines | _ => lines ++ [concat cur_line] end)
            chunks'
      end
  end.

(** [textwrap.wrap(text, width=width, break_long_words=False,
    replace_whitespace=False)], for [width > 0]. *)
Definition wrap (text : str) (width : Z) : list str :=
  let chunks := split (expandtabs text) in
  wrap_chunks (length chunks) width [] chunks.

(** [splitcell]; [textwrap_cells] is [options.textwrap_cells]. *)
Definition splitcell (textwrap_cells : bool) (s : str) (width : Z) : list str :=
  if (width <=? 0) || negb textwrap_cells then [s]
  else flat_map (fun L => wrap L width) (splitlines s).

(** *** Normalising whitespace *)

(** [s.split()]: the words of [s]; [cur] is the word read so far. *)
Fixpoint words_from (cur : str) (s : str) : list str :=
  match s with
  | [] => match cur with [] => [] | _ => [cur] end
  | c :: r =>
      if isspace c then
        match cur with
        | [] => words_from [] r
        | _ => cur :: words_from [] r
        end
      else words_from (cur ++ [c]) r
  end.

Definition words (s : str) : list str := words_from [] s.

(** [' '.join(lines)] *)
Fixpoint join (lines : list str) : str :=
  match lines with
  | [] => []
  | [l] => l
  | l :: rest => l ++ space :: join rest
  end.

(** [s] without its whitespace. *)
Definition nonspace (s : str) : str := List.filter (fun c => negb (isspace c)) s.


(** *** What the theorems about [splitcell] are stated with *)

(** Two strings can be put together without joining a word of the first
    to a word of the second. *)
Definition apart (a b : str) : bool :=
  match last a with Some c => isspace c | None => true end
  || match b with c :: _ => isspace c | [] => true end.

(** A list of chunks none of which runs into what follows it. *)
Fixpoint safe (cs : list str) : Prop :=
  match cs with
  | [] => True
  | a :: rest => apart a (concat rest) = true ∧ safe rest
  end.

(** A text without a hyphen: it has no hyphenated word and no em-dash, a
    chunk is a run of whitespace or a run of anything else. *)
Definition plain (s : str) : Prop := Forall (fun c => is_hyphen c = false) s.

(** Unfolds the character classes into comparisons of codes. *)
Ltac chars :=
  unfold isspace, is_ws, is_linebreak, is_hyphen, space, between, is_code, code in *;
  rewrite ?orb_true_iff, ?andb_true_iff, ?orb_false_iff, ?andb_false_iff,
    ?Nat.leb_le, ?Nat.eqb_eq, ?Nat.leb_gt, ?Nat.eqb_neq in *.

End Wrap.


(** ** Concrete sheets, used by the examples of Part II *)

Module Fixtures.
Import Py Sheets.

(** The options as [visidata] ships them: one-character markers, columns
    20 wide by default. *)
Definition opts : Options := mkOptions "<" ">" "|" 20.

(** Rows are numbers here; every cell is taken to be 5 wide. *)
Definition maxw (c : Column) (rs : list nat) : Z := 5.

(** Three columns [a], [b], [c]; [a] and [b] are key columns, 20 wide. *)
Definition heap_abc : Heap :=
  list_to_map
    [ (0%nat, mkColumn "a" "" (Some 20) false true None);
      (1%nat, mkColumn "b" "" (Some 20) false true None);
      (2%nat, mkColumn "c" "" None false false None) ].

(** A sheet of three rows over them, cursor and offsets at the origin, in
    a window [width] wide. *)
Definition sheet_abc (width : Z) : Sheet nat :=
  mkSheet 0 "abc" [1; 2; 3]%nat [0; 1; 2]%nat 0 0 0 0 0 ∅ ∅ width 24.

(** A sheet with no column and no row, the cursor on column [cursor], the
    left offset [left]. *)
Definition sheet_empty (cursor left : Z) : Sheet nat :=
  mkSheet 1 "empty" [] [] 0 cursor 0 left 0 ∅ ∅ 80 24.

(** The sheet [abc] scrolled: the cursor on row 2 and column 1, the top row
    1, the left offset 1. *)
Definition sheet_scrolled : Sheet nat :=
  mkSheet 0 "abc" [1; 2; 3]%nat [0; 1; 2]%nat 2 1 1 1 0 ∅ ∅ 80 24.

(** [BaseSheet.__copy__] taken as a new object (a new identity) that carries
    every attribute of the sheet over, and [Column.__copy__] likewise. *)
Definition shallow_copy (s : Sheet nat) : Sheet nat :=
  mkSheet (S (sid s)) (sheetname s) (rows s) (columns s) (cursorRowIndex s)
    (cursorVisibleColIndex s) (topRowIndex s) (leftVisibleColIndex s)
    (rightVisibleColIndex s) (rowLayout s) (visibleColLayout s)
    (windowWidth s) (windowHeight s).
Definition same_attributes (c : Column) : Column := c.

(** The typed value of every cell is the row itself (a number); [str] of
    it is a letter: 1 is [x], 2 is [y], anything else [z]. *)
Definition cell_value (c : Column) (r : nat) : nat := r.
Definition str_value (v : nat) : string :=
  match v with 1%nat => "x" | 2%nat => "y" | _ => "z" end.

(** [int] on the strings the examples use: one decimal digit. *)
Definition int_digit (s : string) : option Z :=
  match s with
  | String c EmptyString =>
      let n := nat_of_ascii c in
      if (48 <=? n)%nat && (n <=? 57)%nat then Some (Z.of_nat (n - 48)) else None
  | _ => None
  end.

(** A log of three commands on the sheet [abc]; the second goes to the
    row with index 2. *)
Definition entry (longname row : string) : CmdLog.CommandLogRow :=
  CmdLog.mkRow "abc" "" row longname "" "" "" [].
Definition log3 : list CmdLog.CommandLogRow :=
  [ entry "select-row" ""; entry "edit-cell" "2"; entry "delete-row" "" ].

(** The sheets of the session: [abc]. *)
Definition env_abc (replay_movement : bool) : CmdLog.Env (Row := nat) :=
  CmdLog.mkEnv heap_abc {[ "abc" := sheet_abc 80 ]} replay_movement.

(** No replay yet, not paused, nothing to acquire. *)
Definition ctl_idle : CmdLog.Ctl := CmdLog.mkCtl None None false 0.

(** A [JsonSheet] that has seen the key [a]: one column, no rows yet. *)
Definition heap_json : Heap :=
  {[ 0%nat := mkColumn "a" "anytype" None false false (Some 2%nat) ]}.
Definition sheet_json : Json.JsonSheet :=
  Json.mkJsonSheet (mkSheet 2 "json" [] [0%nat] 0 0 0 0 0 ∅ ∅ 80 24) {[ "a" := 0%nat ]}.

(** The row [{"b": 1, "a": null, "c": "x"}]. *)
Definition row_bac : Json.Value :=
  Json.JDict [("b", Json.JNum "1"); ("a", Json.JNull); ("c", Json.JStr "x")].

(** A column made for a key carries its name and type, nothing else; the
    type guessed is [anytype]. *)
Definition column_item (k t : string) : Column := mkColumn k t None false false None.
Definition deduce_anytype (v : Json.Value) : string := "anytype".

(** Two cells: two words, and one hyphenated word. *)
Definition two_words : Wrap.str := list_ascii_of_string "hello  world".
Definition hyphenated : Wrap.str := list_ascii_of_string "ab-cd".

(** [Sheet.colorizers], in the order it is written.  The predicates are
    numbered in that order. *)
Definition sheet_colorizers : list Colorizers.Colorizer :=
  [ Colorizers.mkColorizer Colorizers.CellColorizer 2 (Some "color_default_hdr") 0;
    Colorizers.mkColorizer Colorizers.ColumnColorizer 2 (Some "color_current_col") 1;
    Colorizers.mkColorizer Colorizers.ColumnColorizer 1 (Some "color_key_col") 2;
    Colorizers.mkColorizer Colorizers.CellColorizer 0 (Some "color_default") 3;
    Colorizers.mkColorizer Colorizers.RowColorizer 2 (Some "color_selected_row") 4;
    Colorizers.mkColorizer Colorizers.RowColorizer 1 (Some "color_error") 5 ].

(** The class [Sheet], with [BaseSheet] as its base (which has no
    colorizers of its own). *)
Definition class_Sheet : Colorizers.Class :=
  Colorizers.mkClass sheet_colorizers [Colorizers.mkClass [] []].

(** A cell for which every predicate holds. *)
Definition all_true (f : nat) (ctx : unit) : Py.result Colorizers.PyVal :=
  Py.Ok (Colorizers.VBool true).

End Fixtures.

(** ** More of Python: indexing, and the exceptions it brings *)

Module PyMore.
Import Py.

(** The exceptions of the code modelled from here on: those of [Py], and
    three more. *)
Inductive Exc : Type :=
  | IndexError            (* [l[i]] out of range *)
  | TypeError             (* [None > 3] *)
  | AttributeError        (* [None.name] *)
  | Builtin (e : Exn).

Inductive outcome (A : Type) : Type :=
  | Returns (a : A)
  | Throws (e : Exc).
Arguments Returns {A} a.
Arguments Throws {A} e.

Definition and_then {A B} (m : outcome A) (k : A -> outcome B) : outcome B :=
  match m with
  | Returns a => k a
  | Throws e => Throws e
  end.

(** [l[i]]: a negative index counts from the end. *)
Definition getitem {A} (l : list A) (i : Z) : outcome A :=
  let j := if i <? 0 then i + len l else i in
  if j <? 0 then Throws IndexError
  else match l !! Z.to_nat j with
       | Some x => Returns x
       | None => Throws IndexError
       end.

(** [l.index(x)]: the first position of [x], [ValueError] if it has none. *)
Fixpoint list_index {A} `{EqDecision A} (l : list A) (x : A) : outcome Z :=
  match l with
  | [] => Throws (Builtin ValueError)
  | y :: rest =>
      if decide (y = x) then Returns 0
      else and_then (list_index rest x) (fun i => Returns (i + 1))
  end.

(** [a or b] on an index that may be [None]: [None] and 0 are false. *)
Definition or_index (a : option Z) (b : Z) : Z :=
  match a with
  | Some i => if i =? 0 then b else i
  | None => b
  end.

End PyMore.

#[export] Instance outcome_bind : MBind PyMore.outcome := fun A B k m => PyMore.and_then m k.
#[export] Instance outcome_ret : MRet PyMore.outcome := fun A a => PyMore.Returns a.

(** ** The sheet: what is under the cursor, key columns, the mouse *)

Module Views.
Import Py PyMore Sheets.

Section WithRow.
Context {Row : Type}.

(** [Sheet.nCols] *)
Definition nCols (s : Sheet Row) : Z := len (columns s).

(** [Sheet.nonKeyVisibleCols]:
    [[c for c in self.columns if not c.hidden and c not in self.keyCols]] *)
Definition nonKeyVisibleCols (h : Heap) (s : Sheet Row) : list ref :=
  List.filter (fun c => negb (hidden (h !!! c)) && negb (col_in c (keyCols h s)))
    (columns s).

(** [Sheet.isVisibleIdxKey]: [self.visibleCols[vcolidx] in self.keyCols] *)
Definition isVisibleIdxKey (h : Heap) (s : Sheet Row) (vcolidx : Z) : outcome bool :=
  c ← getitem (visibleCols h s) vcolidx;
  Returns (col_in c (keyCols h s)).

(** [Sheet.cursorCol]:
    [vcols[min(self.cursorVisibleColIndex, len(vcols)-1)] if vcols else None] *)
Definition cursorCol (h : Heap) (s : Sheet Row) : outcome (option ref) :=
  match visibleCols h s with
  | [] => Returns None
  | vcols =>
      c ← getitem vcols (Z.min (cursorVisibleColIndex s) (len vcols - 1));
      Returns (Some c)
  end.

(** [Sheet.cursorRow]:
    [self.rows[self.cursorRowIndex] if self.nRows > 0 else None] *)
Definition cursorRow (s : Sheet Row) : outcome (option Row) :=
  if 0 <? nRows s then
    r ← getitem (rows s) (cursorRowIndex s);
    Returns (Some r)
  else Returns None.

(** [Sheet.cursorColIndex]: [self.columns.index(self.cursorCol)]; [None]
    is in no list of columns. *)
Definition cursorColIndex (h : Heap) (s : Sheet Row) : outcome Z :=
  oc ← cursorCol h s;
  match oc with
  | Some c => list_index (columns s) c
  | None => Throws (Builtin ValueError)
  end.

(** [Sheet.bottomRowIndex]: [max(self.rowLayout.keys())] *)
Definition bottomRowIndex (s : Sheet Row) : result Z :=
  Py.max (map_to_list (rowLayout s)).*1.

(** *** The key columns *)

(** [Sheet.unsetKeys]: [for col in cols: col.keycol = False] *)
Definition unsetKeys (h : Heap) (cols : list ref) : Heap :=
  foldl (fun h c => <[c := set_keycol false (h !!! c)]> h) h cols.

(** [Sheet.toggleKeys]: [for col in cols: col.keycol = not col.keycol];
    [toggleKey] is the body of the loop. *)
Definition toggleKey (h : Heap) (col : ref) : Heap :=
  <[col := set_keycol (negb (keycol (h !!! col))) (h !!! col)]> h.

Definition toggleKeys (h : Heap) (cols : list ref) : Heap :=
  foldl toggleKey h cols.

(** *** The mouse *)

(** The items of a layout dict, in the order a [for] loop meets them: the
    order they were put in.  [calcColLayout] and [draw] fill a new dict by
    rising index. *)
Definition by_index (a b : Z * (Z * Z)) : Prop := a.1 ≤ b.1.

#[export] Instance by_index_dec a b : Decision (by_index a b).
Proof. unfold by_index. apply _. Defined.

Definition layout_items (m : gmap Z (Z * Z)) : list (Z * (Z * Z)) :=
  merge_sort by_index (map_to_list m).

(** [Sheet.visibleColAtX]: the first [vcolidx] with [colx <= x <= colx+w];
    [None] if the loop ends without one. *)
Definition visibleColAtX (s : Sheet Row) (x : Z) : option Z :=
  match List.find (fun it => (it.2.1 <=? x) && (x <=? it.2.1 + it.2.2))
          (layout_items (visibleColLayout s)) with
  | Some it => Some it.1
  | None => None
  end.

(** [Sheet.visibleRowAtY]: the first [rowidx] with [rowy <= y <= rowy+h-1]. *)
Definition visibleRowAtY (s : Sheet Row) (y : Z) : option Z :=
  match List.find (fun it => (it.2.1 <=? y) && (y <=? it.2.1 + it.2.2 - 1))
          (layout_items (rowLayout s)) with
  | Some it => Some it.1
  | None => None
  end.

(** The command [go-mouse]:
    [sheet.cursorRowIndex=visibleRowAtY(mouseY) or sheet.cursorRowIndex;
     sheet.cursorVisibleColIndex=visibleColAtX(mouseX) or sheet.cursorVisibleColIndex] *)
Definition go_mouse (s : Sheet Row) (mouseX mouseY : Z) : Sheet Row :=
  let s := set_cursorRowIndex (or_index (visibleRowAtY s mouseY) (cursorRowIndex s)) s in
  set_cursorVisibleColIndex (or_index (visibleColAtX s mouseX) (cursorVisibleColIndex s)) s.

(** *** Moving the cursor *)

(** [Sheet.cursorDown] *)
Definition cursorDown (s : Sheet Row) (n : Z) : Sheet Row :=
  set_cursorRowIndex (cursorRowIndex s + n) s.

(** The commands [go-top], [go-bottom], [next-page] and [prev-page]:
    [sheet.cursorRowIndex = sheet.topRowIndex = 0];
    [sheet.cursorRowIndex = len(rows); sheet.topRowIndex = cursorRowIndex-nVisibleRows];
    [cursorDown(nVisibleRows); sheet.topRowIndex += nVisibleRows];
    [cursorDown(-nVisibleRows); sheet.topRowIndex -= nVisibleRows]. *)
Definition go_top (s : Sheet Row) : Sheet Row :=
  set_cursorRowIndex 0 (set_topRowIndex 0 s).

Definition go_bottom (h : Heap) (s : Sheet Row) : Sheet Row :=
  let s := set_cursorRowIndex (len (rows s)) s in
  set_topRowIndex (cursorRowIndex s - nVisibleRows h s) s.

Definition next_page (h : Heap) (s : Sheet Row) : Sheet Row :=
  let s := cursorDown s (nVisibleRows h s) in
  set_topRowIndex (topRowIndex s + nVisibleRows h s) s.

Definition prev_page (h : Heap) (s : Sheet Row) : Sheet Row :=
  let s := cursorDown s (- nVisibleRows h s) in
  set_topRowIndex (topRowIndex s - nVisibleRows h s) s.

End WithRow.
End Views.
(** ** More concrete sheets *)

Module MoreFixtures.
Import Py Sheets.

(** A sheet of five rows over the columns of [abc], in a window three
    lines high (one header line, one footer line, one row to a page), the
    cursor on the row [cursor], which is the top row. *)
Definition sheet_five (cursor : Z) : Sheet nat :=
  mkSheet 0 "abc" [1; 2; 3; 4; 5]%nat [0; 1; 2]%nat cursor 0 cursor 0 0 ∅ ∅ 80 3.

End MoreFixtures.

(** ** Python dicts that are built and read in order *)

Module Dicts.

Section Dict.
Context {K V : Type} `{EqDecision K}.

(** A dict keeps its items in the order their keys were first put in. *)
Definition dict : Type := list (K * V).

(** [d[k] = v]: a key the dict has keeps its place and takes the value. *)
Fixpoint dict_set (d : dict) (k : K) (v : V) : dict :=
  match d with
  | [] => [(k, v)]
  | (k', v') :: rest =>
      if decide (k' = k) then (k, v) :: rest else (k', v') :: dict_set rest k v
  end.

(** [d.get(k)] *)
Fixpoint dict_get (d : dict) (k : K) : option V :=
  match d with
  | [] => None
  | (k', v') :: rest => if decide (k' = k) then Some v' else dict_get rest k
  end.

(** [{key(x): val(x) for x in xs}] *)
Definition dict_of {A} (key : A -> K) (val : A -> V) (xs : list A) : dict :=
  foldl (fun d x => dict_set d (key x) (val x)) [] xs.

End Dict.

(** The keys of a sequence in the order they are first met. *)
Definition first_seen {K} `{EqDecision K} (ks : list K) : list K :=
  foldl (fun acc k => if decide (k ∈ acc) then acc else acc ++ [k]) [] ks.

End Dicts.

(** ** Columns by name: [Sheet.colsByName] and [Sheet.column] *)

Module Names.
Import Py Sheets Dicts.

Section WithRow.
Context {Row : Type}.

(** [Sheet.colsByName]: [{col.name:col for col in self.columns[::-1]}] *)
Definition colsByName (h : Heap) (s : Sheet Row) : dict (K := string) (V := ref) :=
  dict_of (fun c => name (h !!! c)) (fun c => c) (reverse (columns s)).

(** [Sheet.column]: [self.colsByName.get(colname) or fail(...)]; a column
    object is true, [fail] raises. *)
Definition column (h : Heap) (s : Sheet Row) (colname : string) : result ref :=
  match dict_get (colsByName h s) colname with
  | Some c => Ok c
  | None =>
      Raise (ExpectedException ("no column matching " ++ CmdLog.quoted colname))
  end.

End WithRow.
End Names.

(** ** The JSON loader: loading a document, the dict of a row to save *)

Module JsonIO.
Import Py Sheets Dicts Json.

(** What the [try] block of [JsonSheet.iterload] yields once [json.load]
    has returned [ret]: a dict is the one row, a list gives its items.
    For any other value the rows are what [Progress], defined outside
    these files, makes of it: [None] here. *)
Definition iterload_rows (ret : Value) : option (list Value) :=
  match ret with
  | JDict _ => Some [ret]
  | JList items => Some items
  | _ => None
  end.

(** The keys of a row, for a dict. *)
Definition keys_of (row : Value) : list string :=
  match row with
  | JDict items => items.*1
  | _ => []
  end.

Section Load.
Variable ColumnItem : string -> string -> Column.
Variable deduceType : Value -> string.

(** [Sheet.reload] on a [JsonSheet] whose source holds the document [ret]:
    [self.rows = []], then [iterload] starts ([self.colnames = {}],
    [self.columns = []]) and every row it yields goes through
    [self.addRow]. *)
Definition reload (h : Heap) (js : JsonSheet) (ret : Value) : option (Heap * JsonSheet) :=
  match iterload_rows ret with
  | None => None
  | Some rs =>
      let js0 := mkJsonSheet (set_columns [] (set_rows [] (base js))) ∅ in
      Some (foldl (fun st r => (addRow ColumnItem deduceType st.1 st.2 r None).1)
              (h, js0) rs)
  end.

End Load.

(** A [Cell]: a column and a row. *)
Definition Cell : Type := ref * Value.

(** [_rowdict]: [{c.name: Cell(c, row) for c in cols}] *)
Definition _rowdict (h : Heap) (cols : list ref) (row : Value)
    : dict (K := string) (V := Cell) :=
  dict_of (fun c => name (h !!! c)) (fun c => (c, row)) cols.

End JsonIO.

(** ** The command log: what is written down before a command runs *)

Module Hook.
Import Py PyMore Sheets Views CmdLog.

(** What [beforeExecHook] reads of a command. *)
Record Command : Type := mkCommand {
  cmd_longname : string;
  execstr : string;
  helpstr : string
}.

(** [a in s], for strings. *)
Definition substring_of (a s : string) : bool :=
  match String.index 0 a s with
  | Some _ => true
  | None => false
  end.

(** [contains = lambda s, *substrs: any((a in s) for a in substrs)] *)
Definition contains (s : string) (substrs : list string) : bool :=
  existsb (fun a => substring_of a s) substrs.

(** The two tests on [cmd.execstr]: the command reads the cursor row; it
    reads the cursor column. *)
Definition reads_row (cmd : Command) : bool :=
  contains (execstr cmd)
    ["cursorTypedValue"; "cursorDisplay"; "cursorValue"; "cursorCell"; "cursorRow"].
Definition reads_col (cmd : Command) : bool :=
  contains (execstr cmd)
    ["cursorTypedValue"; "cursorDisplay"; "cursorValue"; "cursorCell"; "cursorCol";
     "cursorVisibleCol"].

Section Hook.
Context {Row TypedValue : Type}.
(** [Column.getTypedValue], Python's [str] on a typed value and on an
    integer, [options.rowkey_prefix], the truth value of a sheet object,
    [sheet.cmdlog_sheet]. *)
Variable getTypedValue : Column -> Row -> TypedValue.
Variable str : TypedValue -> string.
Variable repr_int : Z -> string.
Variable rowkey_prefix : string.
Variable sheet_bool : Sheet Row -> bool.
Variable cmdlog_sheet : nat -> nat.

(** [str(rowname)]: the key of the cursor row as [keystr] writes it, or
    the index of the cursor row when the sheet has no key column (an empty
    tuple is false); [''] if the command does not read the cursor row or
    the sheet has no rows.  With [nRows > 0], [sheet.cursorRow] is
    [rows[cursorRowIndex]]. *)
Definition rowname (h : Heap) (vs : Sheet Row) (cmd : Command) : outcome string :=
  if reads_row cmd && (0 <? nRows vs) then
    r ← getitem (rows vs) (cursorRowIndex vs);
    Returns (match rowkey getTypedValue h vs r with
             | [] => repr_int (cursorRowIndex vs)
             | k => keystr str rowkey_prefix k
             end)
  else Returns ""%string.

(** [str(colname)]: [sheet.cursorCol.name or
    sheet.visibleCols.index(sheet.cursorCol)]; [''] if the command does not
    read the cursor column. *)
Definition colname (h : Heap) (vs : Sheet Row) (cmd : Command) : outcome string :=
  if reads_col cmd then
    oc ← cursorCol h vs;
    match oc with
    | None => Throws AttributeError
    | Some c =>
        if truthy_str (name (h !!! c)) then Returns (name (h !!! c))
        else i ← list_index (visibleCols h vs) c; Returns (repr_int i)
    end
  else Returns ""%string.

(** [CommandLog.beforeExecHook(self, sheet, cmd, args, keystrokes)]: the
    recorder it leaves, and whether it returned.  [self] and [vsid] are the
    identities of the log and of the sheet, [vs] is the sheet. *)
Definition beforeExecHook (self vsid : nat) (h : Heap) (vs : Sheet Row)
    (cmd : Command) (args keystrokes : string) (ctl : Ctl) (rec : Recorder)
    : Recorder * outcome unit :=
  let rec :=
    match activeCommand rec with
    | Some _ => afterExecSheet cmdlog_sheet self vsid false "" rec
    | None => rec
    end in
  let names :=
    if sheet_bool vs && negb (String.eqb (cmd_longname cmd) "open-file") then
      let sheetname := if truthy_str (sheetname vs) then sheetname vs
                       else cmd_longname cmd in
      rn ← rowname h vs cmd;
      cn ← colname h vs cmd;
      Returns (sheetname, cn, rn)
    else Returns (""%string, ""%string, ""%string) in
  match names with
  | Throws e => (rec, Throws e)
  | Returns (sheetname, cn, rn) =>
      let comment := match currentReplayRow ctl with
                     | Some r => comment r
                     | None => helpstr cmd
                     end in
      (mkRecorder
         (Some (mkRow sheetname cn rn (cmd_longname cmd) args keystrokes comment []))
         (logrows rec) (cmdlog_histfile rec) (sessionlog rec),
       Returns tt)
  end.

End Hook.

(** [CommandLog.setLastArgs]: the input is set if the active command has
    none yet. *)
Definition setLastArgs (args : string) (rec : Recorder) : Recorder :=
  match activeCommand rec with
  | Some r =>
      if truthy_str (input r) then rec
      else mkRecorder
             (Some (mkRow (sheet r) (col r) (row r) (longname r) args (keystrokes r)
                      (comment r) (undofuncs r)))
             (logrows rec) (cmdlog_histfile rec) (sessionlog rec)
  | None => rec
  end.

(** [CommandLog.getLastArgs] *)
Definition getLastArgs (ctl : Ctl) : option string :=
  match currentReplayRow ctl with
  | Some r => Some (input r)
  | None => None
  end.

End Hook.
(** ** A command, and a sheet with the cursor somewhere *)

Module HookFixtures.
Import Py Sheets.

(** The sheet [abc] with the cursor on the row [r] and the column [c]. *)
Definition sheet_at (r c : Z) : Sheet nat :=
  mkSheet 0 "abc" [1; 2; 3]%nat [0; 1; 2]%nat r c 0 0 0 ∅ ∅ 80 24.

(** [str] on an index of one decimal digit. *)
Definition repr_digit (i : Z) : string :=
  String (ascii_of_nat (48 + Z.to_nat i)) EmptyString.

(** The command [edit-cell], as far as [beforeExecHook] reads it. *)
Definition edit_cell : Hook.Command :=
  Hook.mkCommand "edit-cell"
    "cursorCol.setValues([cursorRow], editCell(cursorVisibleColIndex))"
    "edit contents of current cell".

(** No command is active, nothing is logged yet. *)
Definition recorder_idle : CmdLog.Recorder := CmdLog.mkRecorder None ∅ "" [].

End HookFixtures.
(** ** A file name for the command log: [fnSuffix] *)

Module Suffix.

(** The names [fnSuffix] tries, in order: [prefix.vd], [prefix-1.vd],
    [prefix-2.vd], ... *)
Definition candidate (prefix : string) (i : nat) : string :=
  match i with
  | O => prefix ++ ".vd"
  | _ => prefix ++ "-" ++ pretty i ++ ".vd"
  end.

Section Suffix.
(** [Path(fn).exists()] *)
Variable path_exists : string -> bool.

(** The [while] loop of [fnSuffix], at [i] with the name [fn]. *)
Fixpoint fnSuffix_loop (prefix : string) (fuel : nat) (i : nat) (fn : string)
    : option string :=
  match fuel with
  | O => None
  | S fuel' =>
      if path_exists fn then
        fnSuffix_loop prefix fuel' (S i) (prefix ++ "-" ++ pretty (S i) ++ ".vd")
      else Some fn
  end.

(** [fnSuffix(prefix)] *)
Definition fnSuffix (prefix : string) (fuel : nat) : option string :=
  fnSuffix_loop prefix fuel 0 (prefix ++ ".vd").

End Suffix.
End Suffix.

(** ** The sheet: a page to the left *)

Module Paging.
Import Py PyMore Sheets Views.

Section WithRow.
Context {Row : Type}.
Variable getMaxWidth : Column -> list Row -> Z.
Variable options : Options.

(** [Sheet.cursorRight]:
    [self.cursorVisibleColIndex += n; self.calcColLayout()] *)
Definition cursorRight (h : Heap) (s : Sheet Row) (n : Z) : Heap * Sheet Row :=
  calcColLayout getMaxWidth options h
    (set_cursorVisibleColIndex (cursorVisibleColIndex s + n) s).

(** What both loops of [pageLeft] do to go on:
    [self.cursorVisibleColIndex -= 1; self.leftVisibleColIndex -= 1;
     self.calcColLayout()] *)
Definition tandem_left (h : Heap) (s : Sheet Row) : Heap * Sheet Row :=
  let s := set_cursorVisibleColIndex (cursorVisibleColIndex s - 1) s in
  let s := set_leftVisibleColIndex (leftVisibleColIndex s - 1) s in
  calcColLayout getMaxWidth options h s.

(** The first loop of [pageLeft]:
    [while self.rightVisibleColIndex != targetIdx and
           self.leftVisibleColIndex > firstNonKeyVisibleColIndex].
    [None]: the fuel ran out before the loop was left. *)
Fixpoint pageLeft_shift (fuel : nat) (targetIdx firstNonKeyVisibleColIndex : Z)
    (h : Heap) (s : Sheet Row) : option (Heap * Sheet Row) :=
  match fuel with
  | O => None
  | S fuel' =>
      if negb (rightVisibleColIndex s =? targetIdx) &&
         (firstNonKeyVisibleColIndex <? leftVisibleColIndex s)
      then let '(h1, s1) := tandem_left h s in
           pageLeft_shift fuel' targetIdx firstNonKeyVisibleColIndex h1 s1
      else Some (h, s)
  end.

(** The second loop: [while self.leftVisibleColIndex > 0], left by
    [break] when the right column is cut.  In
    [rightcol.width > self.visibleColLayout[self.rightVisibleColIndex][1]]
    the subscript is evaluated before the comparison, which raises
    [TypeError] for a width that is [None]. *)
Fixpoint pageLeft_squeeze (fuel : nat) (h : Heap) (s : Sheet Row)
    : option (outcome (Heap * Sheet Row)) :=
  match fuel with
  | O => None
  | S fuel' =>
      if 0 <? leftVisibleColIndex s then
        match getitem (visibleCols h s) (rightVisibleColIndex s) with
        | Throws e => Some (Throws e)
        | Returns rightcol =>
            match visibleColLayout s !! rightVisibleColIndex s with
            | None => Some (Throws (Builtin KeyError))
            | Some (_, w) =>
                match width (h !!! rightcol) with
                | None => Some (Throws TypeError)
                | Some colwidth =>
                    if w <? colwidth then
                      let s := set_cursorVisibleColIndex (cursorVisibleColIndex s + 1) s in
                      let s := set_leftVisibleColIndex (leftVisibleColIndex s + 1) s in
                      Some (Returns (h, s))
                    else
                      let '(h1, s1) := tandem_left h s in
                      pageLeft_squeeze fuel' h1 s1
                end
            end
        end
      else Some (Returns (h, s))
  end.

(** [Sheet.pageLeft] *)
Definition pageLeft (fuel : nat) (h : Heap) (s : Sheet Row)
    : option (outcome (Heap * Sheet Row)) :=
  let targetIdx := leftVisibleColIndex s in
  match getitem (nonKeyVisibleCols h s) 0 with
  | Throws e => Some (Throws e)
  | Returns c0 =>
      match list_index (visibleCols h s) c0 with
      | Throws e => Some (Throws e)
      | Returns firstNonKeyVisibleColIndex =>
          match pageLeft_shift fuel targetIdx firstNonKeyVisibleColIndex h s with
          | None => None
          | Some (h1, s1) =>
              if rightVisibleColIndex s1 =? nVisibleCols h1 s1 - 1
              then pageLeft_squeeze fuel h1 s1
              else Some (Returns (h1, s1))
          end
      end
  end.

(** The command [go-leftmost]:
    [sheet.cursorVisibleColIndex = sheet.leftVisibleColIndex = 0] *)
Definition go_leftmost (s : Sheet Row) : Sheet Row :=
  set_cursorVisibleColIndex 0 (set_leftVisibleColIndex 0 s).

(** The command [go-rightmost]:
    [sheet.leftVisibleColIndex = len(visibleCols)-1; pageLeft();
     sheet.cursorVisibleColIndex = len(visibleCols)-1] *)
Definition go_rightmost (fuel : nat) (h : Heap) (s : Sheet Row)
    : option (outcome (Heap * Sheet Row)) :=
  let s := set_leftVisibleColIndex (len (visibleCols h s) - 1) s in
  match pageLeft fuel h s with
  | None => None
  | Some (Throws e) => Some (Throws e)
  | Some (Returns (h1, s1)) =>
      Some (Returns (h1, set_cursorVisibleColIndex (len (visibleCols h1 s1) - 1) s1))
  end.

End WithRow.
End Paging.

Module PagingFixtures.
Import Py Sheets.

(** Four columns [p], [q], [r], [t], none a key column, each 10 wide. *)
Definition heap_pqrt : Heap :=
  list_to_map
    [ (0%nat, mkColumn "p" "" (Some 10) false false None);
      (1%nat, mkColumn "q" "" (Some 10) false false None);
      (2%nat, mkColumn "r" "" (Some 10) false false None);
      (3%nat, mkColumn "t" "" (Some 10) false false None) ].

(** A sheet of three rows over them in a window [width] wide, the cursor
    on the column [cursor], the left offset [left]. *)
Definition sheet_pqrt (width cursor left : Z) : Sheet nat :=
  mkSheet 3 "pqrt" [1; 2; 3]%nat [0; 1; 2; 3]%nat 0 cursor 0 left 0 ∅ ∅ width 24.

(** The same sheet as the layout leaves it. *)
Definition drawn_pqrt (width cursor left : Z) : Heap * Sheet nat :=
  calcColLayout Fixtures.maxw Fixtures.opts heap_pqrt (sheet_pqrt width cursor left).

(** Two columns [u], [v] whose width has not been computed, on a sheet
    with no rows, as the layout leaves it. *)
Definition heap_uv : Heap :=
  list_to_map
    [ (0%nat, mkColumn "u" "" None false false None);
      (1%nat, mkColumn "v" "" None false false None) ].
Definition sheet_uv : Sheet nat :=
  mkSheet 4 "uv" [] [0; 1]%nat 0 0 0 0 0 ∅ ∅ 80 24.
Definition drawn_uv : Heap * Sheet nat :=
  calcColLayout Fixtures.maxw Fixtures.opts heap_uv sheet_uv.

End PagingFixtures.

(** ** The command log: [replay_sync] *)

Module Replay.
Import Py PyMore Sheets Views CmdLog.

Section Replay.
Context {Row TypedValue : Type}.
(** [Column.getTypedValue], Python's [str] and [int], [options.rowkey_prefix]
    and the truth value of a sheet, as for [moveToReplayContext]. *)
Variable getTypedValue : Column -> Row -> TypedValue.
Variable str : TypedValue -> string.
Variable int : string -> option Z.
Variable rowkey_prefix : string.
Variable sheet_bool : Sheet Row -> bool.

(** The log that is replayed is a sheet itself: [self.rows] are its
    entries and [self.cursorRowIndex] is the entry the replay is at.  Both
    are read again in every round of [replay_sync]. *)
Definition Log : Type := Sheet CommandLogRow.

(** The command execution contract
    ([vs.exec_command(vs.getCommand(...))] on the sheet found, or on the
    log itself when the entry names none): the command may change the
    sheets of the session and the log (a command run on the log can move
    its cursor or change its rows); it reports whether it was escaped, or
    raises.  [options.set] for a [set-option] entry.  And the two calls
    [vd.sheets[0].ensureLoaded(); vd.sync()], defined outside these files,
    which are made outside the [try] and may raise.  A replayed command
    that steers the replay itself ([stop-replay], [pause-replay],
    [advance-replay]) is an event of [during] below. *)
Variable exec_command :
  Env (Row := Row) -> Log -> option string -> CommandLogRow ->
  Env (Row := Row) * Log * result bool.
Variable options_set : Env (Row := Row) -> CommandLogRow -> result (Env (Row := Row)).
Variable ensureLoaded_sync : Env (Row := Row) -> outcome (Env (Row := Row)).

(** [CommandLog.replayOne]: whether the command was escaped. *)
Definition replayOne (c : Ctl) (env : Env) (log : Log) (r : CommandLogRow)
    : Ctl * Env (Row := Row) * Log * result bool :=
  let c := set_currentReplayRow (Some r) c in
  if String.eqb (longname r) "set-option" then
    match options_set env r with
    | Ok env1 => (set_currentReplayRow None c, env1, log, Ok false)
    | Raise e => (set_currentReplayRow None c, env, log, Ok true)
    end
  else
    match moveToReplayContext getTypedValue str int rowkey_prefix sheet_bool env r with
    | (env1, Raise e) => (c, env1, log, Raise e)
    | (env1, Ok vs) =>
        match exec_command env1 log vs r with
        | (env2, log2, Raise e) => (c, env2, log2, Raise e)
        | (env2, log2, Ok escaped) => (set_currentReplayRow None c, env2, log2, Ok escaped)
        end
    end.

(** What the interface thread does around one entry.  [during] and
    [log_during]: while the command of the entry runs, its commands on the
    class attributes of [CommandLog] and what it does to the log sheet;
    [waiting] and [log_waiting]: the same between the entry and the next
    test of the [while] loop. *)
Record Slot : Type := mkSlot {
  during : list UiEvent;
  log_during : Log -> Log;
  waiting : list UiEvent;
  log_waiting : Log -> Log
}.

(** Nothing happens. *)
Definition idle : Slot := mkSlot [] (fun log => log) [] (fun log => log).

(** The command [stop-replay] of the [CommandLog] sheet:
    [sheet.cursorRowIndex = sheet.nRows] *)
Definition stop_replay (log : Log) : Log := set_cursorRowIndex (nRows log) log.

(** What [replay_sync] returns: [None] or [True]. *)
Inductive Ret : Type := RetNone | RetTrue.

(** The [while] loop of [replay_sync].  [replayed] are the rows
    [replayOne] was called with so far.  The result is [Throws] when
    [replay_sync] is left by an exception, and [None] when it is not left:
    the replay thread waits for ever (paused, and nobody advances or stops
    it), or the fuel is used up. *)
Fixpoint replay_loop (fuel : nat) (c : Ctl) (env : Env) (log : Log)
    (sched : list Slot) (replayed : list CommandLogRow)
    : option (Ctl * Env (Row := Row) * Log * outcome Ret * list CommandLogRow) :=
  match fuel with
  | O => None
  | S fuel' =>
      if cursorRowIndex log <? len (rows log) then
        match currentReplay c with
        | None => Some (c, env, log, Returns RetNone, replayed)
        | Some _ =>
            let slot := hd idle sched in
            (* [self.cursorRow] is evaluated inside the [try] *)
            match cursorRow log with
            | Throws e => Some (cancel c, env, log, Returns RetTrue, replayed)
            | Returns None =>
                (* [replayOne(None)]: [r.sheet] raises [AttributeError] *)
                Some (cancel c, env, log, Returns RetTrue, replayed)
            | Returns (Some r) =>
                let '(c1, env1, log1, res) := replayOne c env log r in
                let c1 := foldl ui_event c1 (during slot) in
                let log1 := log_during slot log1 in
                match res with
                | Ok true => Some (cancel c1, env1, log1, Returns RetTrue, replayed ++ [r])
                | Raise e => Some (cancel c1, env1, log1, Returns RetTrue, replayed ++ [r])
                | Ok false =>
                    let log2 := set_cursorRowIndex (cursorRowIndex log1 + 1) log1 in
                    match ensureLoaded_sync env1 with
                    | Throws e => Some (c1, env1, log2, Throws e, replayed ++ [r])
                    | Returns env2 =>
                        match wait c1 (waiting slot) with
                        | None => None
                        | Some c2 =>
                            replay_loop fuel' c2 env2 (log_waiting slot log2) (tl sched)
                              (replayed ++ [r])
                        end
                    end
                end
            end
        end
      else Some (set_currentReplay None c, env, log, Returns RetNone, replayed)
  end.

(** [CommandLog.replay_sync]; [self] is the log. *)
Definition replay_sync (fuel : nat) (c : Ctl) (env : Env) (log : Log)
    (sched : list Slot)
    : option (Ctl * Env (Row := Row) * Log * outcome Ret * list CommandLogRow) :=
  let log := set_cursorRowIndex 0 log in
  replay_loop fuel (set_currentReplay (Some (sid log)) c) env log sched [].

(** The ways a running replay is cancelled at the entry [r], each told
    by what the entry names and by what its command does: somebody stops
    the replay while the entry runs or during the wait that follows (and
    the calls between the two return); the sheet the entry names is not
    there (or is a sheet that counts as false); its row is not found; its
    column is not found; its command raises; its command is escaped; the
    option of a [set-option] entry is refused. *)
Inductive cancel_cause (env : Env (Row := Row)) (log : Log) (r : CommandLogRow)
    (slot : Slot) : Prop :=
| explicit_stop :
    StopReplay ∈ during slot ++ waiting slot →
    (∀ env1, ∃ env2, ensureLoaded_sync env1 = Returns env2) →
    cancel_cause env log r slot
| no_sheet :
    longname r ≠ "set-option" →
    truthy_str (sheet r) = true →
    (∀ vs, getSheet env (sheet r) = Some vs → sheet_bool vs = false) →
    cancel_cause env log r slot
| no_row (vs : Sheet Row) :
    longname r ≠ "set-option" →
    truthy_str (sheet r) = true →
    getSheet env (sheet r) = Some vs →
    truthy_str (row r) = true →
    getRowIndexFromStr getTypedValue str int rowkey_prefix (heap env) vs (row r) = None →
    cancel_cause env log r slot
| no_col (vs : Sheet Row) :
    longname r ≠ "set-option" →
    truthy_str (sheet r) = true →
    getSheet env (sheet r) = Some vs →
    truthy_str (col r) = true →
    int (col r) = None →
    indexMatch (visibleCols (heap env) vs)
      (fun c => String.eqb (col r) (name (heap env !!! c))) = None →
    cancel_cause env log r slot
| command_raises :
    longname r ≠ "set-option" →
    (∀ env1 log1 vs, ∃ env2 log2 e, exec_command env1 log1 vs r = (env2, log2, Raise e)) →
    cancel_cause env log r slot
| command_escaped :
    longname r ≠ "set-option" →
    (∀ env1 log1 vs, ∃ env2 log2, exec_command env1 log1 vs r = (env2, log2, Ok true)) →
    cancel_cause env log r slot
| option_refused (e : Exn) :
    longname r = "set-option" →
    options_set env r = Raise e →
    cancel_cause env log r slot.

End Replay.
End Replay.

Module ReplayFixtures.
Import Py PyMore Sheets CmdLog Replay Fixtures.

(** Commands that change nothing and are not escaped, except [edit-cell],
    which is escaped, and [delete-row], which raises. *)
Definition exec_quiet (env : Env (Row := nat)) (log : Log) (vs : option string)
    (r : CommandLogRow) : Env (Row := nat) * Log * result bool :=
  if String.eqb (longname r) "delete-row" then (env, log, Raise (ExpectedException "no rows"))
  else (env, log, Ok (String.eqb (longname r) "edit-cell")).

(** The same, but [go-down] run on the log (the entry names no sheet)
    moves the cursor of the log down, as [cursorDown(+1)] does. *)
Definition exec_moving (env : Env (Row := nat)) (log : Log) (vs : option string)
    (r : CommandLogRow) : Env (Row := nat) * Log * result bool :=
  match vs with
  | None =>
      if String.eqb (longname r) "go-down"
      then (env, Views.cursorDown log 1, Ok false)
      else exec_quiet env log vs r
  | Some _ => exec_quiet env log vs r
  end.

Definition options_set_quiet (env : Env (Row := nat)) (r : CommandLogRow)
    : result (Env (Row := nat)) := Ok env.
Definition sync_quiet (env : Env (Row := nat)) : outcome (Env (Row := nat)) := Returns env.

(** A log sheet with the given entries, the cursor on the entry [cursor]. *)
Definition log_sheet (entries : list CommandLogRow) (cursor : Z) : Log :=
  mkSheet 9 "cmdlog" entries [] cursor 0 0 0 0 ∅ ∅ 80 24.

(** An entry for the sheet [abc] that names a row that is not there. *)
Definition entry_lost : CommandLogRow := entry "select-row" "zz".

(** An entry that names no sheet: its command runs on the log. *)
Definition entry_on_log (longname : string) : CommandLogRow :=
  mkRow "" "" "" longname "" "" "" [].

End ReplayFixtures.

(* ===================================================================== *)
(** * Part II: theorems *)
(* ===================================================================== *)

(** ** The column layout *)

Module LayoutFacts.
Import Py Sheets.

Section Facts.
Context {Row : Type}.
Variable getMaxWidth : Column -> list Row -> Z.
Variable options : Options.

Local Abbreviation body := (calcColLayout_body getMaxWidth options).
Local Abbreviation loop := (calcColLayout_loop getMaxWidth options).

(** What one pass through the body does to the layout and to [x]: a column
    that is a key column or not left of the left offset is stored at the
    current [x], and [x] moves on; any other column changes neither. *)
Lemma body_layout (s : Sheet Row) kcols nvis vrows i c h layout x :
  ∃ h1 w,
    body s kcols nvis vrows i c (h, layout, x) =
      if col_in c kcols || (leftVisibleColIndex s <=? i)
      then (h1, <[i := (x, Z.min w (windowWidth s - x))]> layout,
            x + w + sepColWidth options)
      else (h1, layout, x).
Proof.
  unfold calcColLayout_body.
  match goal with |- context [match ?w0 with None => ?a | Some _ => ?b end] =>
    set (h1 := match w0 with None => a | Some _ => b end) end.
  exists h1.
  eexists.
  destruct (col_in c kcols || (leftVisibleColIndex s <=? i)); reflexivity.
Qed.

Lemma loop_cons (s : Sheet Row) kcols nvis vrows c rest i st last :
  loop s kcols nvis vrows (c :: rest) i st last =
    let st1 := body s kcols nvis vrows i c st in
    if windowWidth s - 1 <? st1.2 then (st1, i)
    else loop s kcols nvis vrows rest (i + 1) st1 i.
Proof. reflexivity. Qed.

(** Every entry the loop stores has an [x] that is 0 or at most
    [windowWidth - 1]: the loop is left as soon as [x] exceeds that. *)
Lemma loop_x_bound (s : Sheet Row) kcols nvis vrows vcols :
  ∀ i h layout x last h' layout' x' last',
    loop s kcols nvis vrows vcols i (h, layout, x) last = (h', layout', x', last') →
    (x = 0 ∨ x ≤ windowWidth s - 1) →
    (∀ j p, layout !! j = Some p → p.1 = 0 ∨ p.1 ≤ windowWidth s - 1) →
    ∀ j p, layout' !! j = Some p → p.1 = 0 ∨ p.1 ≤ windowWidth s - 1.
Proof.
  induction vcols as [|c rest IH]; intros i h layout x last h' layout' x' last' Hrun Hx Hl.
  - simpl in Hrun. by simplify_eq.
  - rewrite loop_cons in Hrun. cbv zeta in Hrun.
    destruct (body_layout s kcols nvis vrows i c h layout x) as (h1 & w & Hb).
    rewrite Hb in Hrun. clear Hb.
    set (stored := col_in c kcols || (leftVisibleColIndex s <=? i)) in *.
    assert (Hl1 : ∀ j p,
      (if stored then <[i := (x, Z.min w (windowWidth s - x))]> layout else layout) !! j = Some p →
      p.1 = 0 ∨ p.1 ≤ windowWidth s - 1).
    { intros j p. destruct stored; [|by apply Hl].
      destruct (decide (i = j)) as [->|Hne].
      - rewrite lookup_insert_eq. intros [= <-]. exact Hx.
      - rewrite lookup_insert_ne by done. apply Hl. }
    destruct stored; simpl in Hrun.
    + destruct (windowWidth s - 1 <? x + w + sepColWidth options) eqn:Hbrk.
      * simplify_eq. exact Hl1.
      * eapply IH; [exact Hrun| |exact Hl1]. right. lia.
    + destruct (windowWidth s - 1 <? x) eqn:Hbrk.
      * simplify_eq. exact Hl1.
      * eapply IH; [exact Hrun| |exact Hl1]. right. lia.
Qed.

(** The loop visits the columns in order and stops at [last']; every
    column it visits that is a key column, or that is not left of the left
    offset, is in the layout when it ends; what was in the layout stays. *)
Lemma loop_keys (s : Sheet Row) kcols nvis vrows vcols :
  ∀ i h layout x last h' layout' x' last',
    loop s kcols nvis vrows vcols i (h, layout, x) last = (h', layout', x', last') →
    (∀ j, is_Some (layout !! j) → is_Some (layout' !! j)) ∧
    (∀ (k : nat) c, vcols !! k = Some c → i + Z.of_nat k ≤ last' →
       col_in c kcols || (leftVisibleColIndex s <=? i + Z.of_nat k) = true →
       is_Some (layout' !! (i + Z.of_nat k))) ∧
    (vcols = [] ∧ last' = last ∨ i ≤ last' < i + Z.of_nat (length vcols)).
Proof.
  induction vcols as [|c rest IH]; intros i h layout x last h' layout' x' last' Hrun.
  - simpl in Hrun. simplify_eq. split_and!; [done| |by left].
    intros k c Hk. by rewrite lookup_nil in Hk.
  - rewrite loop_cons in Hrun. cbv zeta in Hrun.
    destruct (body_layout s kcols nvis vrows i c h layout x) as (h1 & w & Hb).
    rewrite Hb in Hrun. clear Hb.
    destruct (col_in c kcols || (leftVisibleColIndex s <=? i)) eqn:Hs;
      cbn [snd] in Hrun;
      match type of Hrun with (if ?b then _ else _) = _ => destruct b eqn:Hbrk end.
    + injection Hrun as <- <- <- <-. split_and!.
      * intros j Hj. destruct (decide (i = j)) as [->|Hne].
        -- rewrite lookup_insert_eq. by eexists.
        -- by rewrite lookup_insert_ne.
      * intros k c' Hk Hle Hst. assert (k = 0%nat) as -> by lia.
        rewrite Z.add_0_r, lookup_insert_eq. by eexists.
      * right. rewrite length_cons. lia.
    + destruct (IH _ _ _ _ _ _ _ _ _ Hrun) as (Hk1 & Hk2 & Hk3).
      assert (Hhere : is_Some (layout' !! i)).
      { apply Hk1. rewrite lookup_insert_eq. by eexists. }
      split_and!.
      * intros j Hj. apply Hk1. destruct (decide (i = j)) as [->|Hne].
        -- rewrite lookup_insert_eq. by eexists.
        -- by rewrite lookup_insert_ne.
      * intros k c' Hk Hle Hst. destruct k as [|k].
        -- by rewrite Z.add_0_r.
        -- simpl in Hk.
           replace (i + Z.of_nat (S k)) with (i + 1 + Z.of_nat k) in * by lia.
           by eapply Hk2.
      * right. rewrite length_cons. destruct Hk3 as [[-> ->]|Hk3]; simpl; lia.
    + injection Hrun as <- <- <- <-. split_and!; [done| |right; rewrite length_cons; lia].
      intros k c' Hk Hle Hst. assert (k = 0%nat) as -> by lia.
      simpl in Hk. simplify_eq. rewrite Z.add_0_r in Hst. congruence.
    + destruct (IH _ _ _ _ _ _ _ _ _ Hrun) as (Hk1 & Hk2 & Hk3).
      split_and!; [done| |].
      * intros k c' Hk Hle Hst. destruct k as [|k].
        -- simpl in Hk. simplify_eq. rewrite Z.add_0_r in Hst. congruence.
        -- simpl in Hk.
           replace (i + Z.of_nat (S k)) with (i + 1 + Z.of_nat k) in * by lia.
           by eapply Hk2.
      * right. rewrite length_cons. destruct Hk3 as [[-> ->]|Hk3]; simpl; lia.
Qed.


(** C2, amended.  In a window of non-negative width, no entry of the
    layout [calcColLayout] builds has an x-position beyond the window
    width; and every key column the walk reaches, that is every key column
    whose index is at most [rightVisibleColIndex], has its index in the
    layout. *)
Theorem calcColLayout_entries_and_keys (h : Heap) (s : Sheet Row) :
  0 ≤ windowWidth s →
  let '(h', s') := calcColLayout getMaxWidth options h s in
  (∀ i x w, visibleColLayout s' !! i = Some (x, w) → x ≤ windowWidth s) ∧
  (∀ (k : nat) c, visibleCols h s !! k = Some c → c ∈ keyCols h s →
     Z.of_nat k ≤ rightVisibleColIndex s' →
     is_Some (visibleColLayout s' !! Z.of_nat k)).
Proof.
  intros Hw. unfold calcColLayout.
  destruct (loop s (keyCols h s) (nVisibleCols h s) (visibleRows h s)
              (visibleCols h s) 0 (h, ∅, 0) 0) as [[[h1 layout] x1] last] eqn:Hrun.
  simpl. split.
  - intros i x w Hi.
    assert (Hb : (x, w).1 = 0 ∨ (x, w).1 ≤ windowWidth s - 1).
    { eapply loop_x_bound; [exact Hrun|by left| |exact Hi].
      intros j p Hj. by rewrite lookup_empty in Hj. }
    simpl in Hb. lia.
  - intros k c Hk Hc Hle.
    destruct (loop_keys _ _ _ _ _ _ _ _ _ _ _ _ _ _ Hrun) as (_ & Hkeys & _).
    specialize (Hkeys k c Hk). rewrite Z.add_0_l in Hkeys. apply Hkeys; [done|].
    unfold col_in. rewrite bool_decide_eq_true_2 by done. done.
Qed.

End Facts.

Import Fixtures.

Lemma calcColLayout_entries_and_keys_witness :
  let '(h', s') := calcColLayout maxw opts heap_abc (sheet_abc 80) in
  (∀ i x w, visibleColLayout s' !! i = Some (x, w) → x ≤ 80) ∧
  (∀ (k : nat) c, visibleCols heap_abc (sheet_abc 80) !! k = Some c →
     c ∈ keyCols heap_abc (sheet_abc 80) →
     Z.of_nat k ≤ rightVisibleColIndex s' →
     is_Some (visibleColLayout s' !! Z.of_nat k)).
Proof.
  apply (calcColLayout_entries_and_keys maxw opts heap_abc (sheet_abc 80)).
  vm_compute. discriminate.
Defined.

(** C2 as stated fails: in a window 10 wide the first key column, 20 wide,
    fills the window, the walk stops, and the second key column (index 1
    of the visible columns) is not in the layout. *)
Lemma calcColLayout_key_column_left_out :
  visibleCols heap_abc (sheet_abc 10) !! 1%nat = Some 1%nat ∧
  1%nat ∈ keyCols heap_abc (sheet_abc 10) ∧
  visibleColLayout (calcColLayout maxw opts heap_abc (sheet_abc 10)).2 !! 1 = None ∧
  rightVisibleColIndex (calcColLayout maxw opts heap_abc (sheet_abc 10)).2 = 0.
Proof.
  split_and!; [reflexivity| |reflexivity|reflexivity].
  apply list_elem_of_In. vm_compute. auto.
Qed.

(** C1 at an input on which the code does not keep it: no visible column,
    the cursor on column 5.  [checkCursor] returns, with the cursor on
    column -1. *)
Example checkCursor_no_columns_cursor :
  ∃ h' s',
    checkCursor maxw opts 1 ∅ (sheet_empty 5 0) = Some (Ok (h', s')) ∧
    nVisibleCols h' s' = 0 ∧
    cursorVisibleColIndex s' = -1 ∧
    leftVisibleColIndex s' = -1.
Proof. eexists _, _. split_and!; reflexivity. Qed.

(** C8 at an input on which the code raises: no visible column, the left
    offset left of the cursor (the state the call above leaves, with the
    cursor back on column 0).  The layout is empty and [min] of its keys
    raises [ValueError], whatever the fuel. *)
Example checkCursor_no_columns_raises :
  ∀ fuel, checkCursor maxw opts (S fuel) ∅ (sheet_empty 0 (-1)) = Some (Raise ValueError).
Proof. intros fuel. reflexivity. Qed.

(** The two in sequence: a second [checkCursor] after the first raises. *)
Example checkCursor_twice_raises :
  ∀ fuel,
    match checkCursor maxw opts 1 ∅ (sheet_empty 5 0) with
    | Some (Ok (h', s')) => checkCursor maxw opts (S fuel) h' s'
    | _ => None
    end = Some (Raise ValueError).
Proof. intros fuel. reflexivity. Qed.

End LayoutFacts.

(** ** The cursor on a sheet that has a visible column *)

Module CursorFacts.
Import Py Sheets LayoutFacts.

(** [min] and [max] of a sequence that is not empty. *)
Lemma min_spec (l : list Z) :
  l ≠ [] → ∃ m, Py.min l = Ok m ∧ m ∈ l ∧ ∀ x, x ∈ l → m ≤ x.
Proof.
  destruct l as [|x l]; [done|]. intros _. simpl. eexists. split; [done|].
  induction l as [|y l [IH1 IH2]]; simpl.
  - split; [apply list_elem_of_here|]. intros z ->%list_elem_of_singleton. lia.
  - split.
    + destruct (Z.min_spec y (foldr Z.min x l)) as [[_ ->]|[_ ->]].
      * apply list_elem_of_further, list_elem_of_here.
      * apply elem_of_cons in IH1 as [->|?]; [apply list_elem_of_here|].
        by do 2 apply list_elem_of_further.
    + intros z [->|[->|Hz]%elem_of_cons]%elem_of_cons.
      * specialize (IH2 x (list_elem_of_here _ _)). lia.
      * lia.
      * specialize (IH2 z (list_elem_of_further _ _ _ Hz)). lia.
Qed.

Lemma max_spec (l : list Z) :
  l ≠ [] → ∃ m, Py.max l = Ok m ∧ m ∈ l ∧ ∀ x, x ∈ l → x ≤ m.
Proof.
  destruct l as [|x l]; [done|]. intros _. simpl. eexists. split; [done|].
  induction l as [|y l [IH1 IH2]]; simpl.
  - split; [apply list_elem_of_here|]. intros z ->%list_elem_of_singleton. lia.
  - split.
    + destruct (Z.max_spec y (foldr Z.max x l)) as [[_ ->]|[_ ->]].
      * apply elem_of_cons in IH1 as [->|?]; [apply list_elem_of_here|].
        by do 2 apply list_elem_of_further.
      * apply list_elem_of_further, list_elem_of_here.
    + intros z [->|[->|Hz]%elem_of_cons]%elem_of_cons.
      * specialize (IH2 x (list_elem_of_here _ _)). lia.
      * lia.
      * specialize (IH2 z (list_elem_of_further _ _ _ Hz)). lia.
Qed.

Section Facts.
Context {Row : Type}.
Variable getMaxWidth : Column -> list Row -> Z.
Variable options : Options.

Local Abbreviation body := (calcColLayout_body getMaxWidth options).
Local Abbreviation loop := (calcColLayout_loop getMaxWidth options).
Local Abbreviation calcColLayout := (calcColLayout getMaxWidth options).
Local Abbreviation checkCursor_loop := (checkCursor_loop getMaxWidth options).
Local Abbreviation checkCursor := (checkCursor getMaxWidth options).

Lemma same_flags_refl h : same_flags h h.
Proof. done. Qed.

Lemma same_flags_trans h1 h2 h3 : same_flags h1 h2 → same_flags h2 h3 → same_flags h1 h3.
Proof. intros H12 H23 c. destruct (H12 c), (H23 c). split; congruence. Qed.

Lemma same_flags_visibleCols h h' (s : Sheet Row) :
  same_flags h h' → keyCols h' s = keyCols h s ∧ visibleCols h' s = visibleCols h s.
Proof.
  intros Hf. unfold visibleCols, keyCols.
  assert (H1 : ∀ l, List.filter (fun c => keycol (h' !!! c) && negb (hidden (h' !!! c))) l =
                    List.filter (fun c => keycol (h !!! c) && negb (hidden (h !!! c))) l).
  { intros l. apply List.filter_ext. intros c. by destruct (Hf c) as [-> ->]. }
  assert (H2 : ∀ l, List.filter (fun c => negb (hidden (h' !!! c)) && negb (keycol (h' !!! c))) l =
                    List.filter (fun c => negb (hidden (h !!! c)) && negb (keycol (h !!! c))) l).
  { intros l. apply List.filter_ext. intros c. by destruct (Hf c) as [-> ->]. }
  by rewrite H1, H2.
Qed.

(** The body of the layout loop may set a width; it touches no flag. *)
Lemma body_flags (s : Sheet Row) kcols nvis vrows i c h layout x :
  same_flags h (body s kcols nvis vrows i c (h, layout, x)).1.1.
Proof.
  unfold calcColLayout_body.
  set (h1 := match width (h !!! c) with None => _ | Some _ => h end).
  assert (Hh1 : same_flags h h1).
  { subst h1. destruct (width (h !!! c)); [done|].
    destruct (0 <? len vrows); [|done].
    intros r. destruct (decide (c = r)) as [->|Hne].
    - by rewrite lookup_total_insert_eq.
    - by rewrite lookup_total_insert_ne. }
  by destruct (col_in c kcols || (leftVisibleColIndex s <=? i)).
Qed.

Lemma loop_flags (s : Sheet Row) kcols nvis vrows vcols :
  ∀ i h layout x last,
    same_flags h (loop s kcols nvis vrows vcols i (h, layout, x) last).1.1.1.
Proof.
  induction vcols as [|c rest IH]; intros i h layout x last; [done|].
  rewrite loop_cons. cbv zeta.
  pose proof (body_flags s kcols nvis vrows i c h layout x) as Hb.
  destruct (body s kcols nvis vrows i c (h, layout, x)) as [[h1 l1] x1].
  simpl in *. destruct (windowWidth s - 1 <? x1); [done|].
  eapply same_flags_trans; [exact Hb|apply IH].
Qed.

(** The keys of the layout are indexes the loop went through. *)
Lemma loop_keys_range (s : Sheet Row) kcols nvis vrows vcols :
  ∀ i h layout x last h' layout' x' last',
    loop s kcols nvis vrows vcols i (h, layout, x) last = (h', layout', x', last') →
    ∀ j, is_Some (layout' !! j) → is_Some (layout !! j) ∨ i ≤ j ≤ last'.
Proof.
  induction vcols as [|c rest IH]; intros i h layout x last h' layout' x' last' Hrun j Hj.
  - simpl in Hrun. simplify_eq. by left.
  - rewrite loop_cons in Hrun. cbv zeta in Hrun.
    destruct (body_layout getMaxWidth options s kcols nvis vrows i c h layout x)
      as (h1 & w & Hb).
    rewrite Hb in Hrun. clear Hb.
    assert (Hins : ∀ p, is_Some (<[i := p]> layout !! j) → is_Some (layout !! j) ∨ i = j).
    { intros p. destruct (decide (i = j)) as [->|Hne]; [by right|].
      rewrite lookup_insert_ne by done. by left. }
    destruct (col_in c kcols || (leftVisibleColIndex s <=? i)) eqn:Hs;
      cbn [snd] in Hrun;
      match type of Hrun with (if ?b then _ else _) = _ => destruct b eqn:Hbrk end.
    + injection Hrun as <- <- <- <-. apply Hins in Hj as [?|<-]; [by left|right; lia].
    + destruct (loop_keys _ _ _ _ _ _ _ _ _ _ _ _ _ _ _ _ Hrun) as (_ & _ & Hlast).
      destruct (IH _ _ _ _ _ _ _ _ _ Hrun j Hj) as [Hl|Hr].
      * apply Hins in Hl as [?|<-]; [by left|right].
        destruct Hlast as [[-> ->]|?]; lia.
      * right. lia.
    + injection Hrun as <- <- <- <-. by left.
    + destruct (IH _ _ _ _ _ _ _ _ _ Hrun j Hj) as [Hl|Hr]; [by left|right; lia].
Qed.

(** In a window at least 1 wide, the loop stores a column at or before the
    first index that is both in range and not left of the left offset. *)
Lemma loop_stores (s : Sheet Row) kcols nvis vrows vcols :
  ∀ i h layout x last h' layout' x' last',
    loop s kcols nvis vrows vcols i (h, layout, x) last = (h', layout', x', last') →
    x ≤ windowWidth s - 1 →
    Z.max (leftVisibleColIndex s) i < i + Z.of_nat (length vcols) →
    ∃ j, i ≤ j ≤ Z.max (leftVisibleColIndex s) i ∧ is_Some (layout' !! j).
Proof.
  induction vcols as [|c rest IH]; intros i h layout x last h' layout' x' last' Hrun Hx Ht.
  - simpl in Ht. lia.
  - pose proof Hrun as Hrun0.
    rewrite loop_cons in Hrun. cbv zeta in Hrun.
    destruct (body_layout getMaxWidth options s kcols nvis vrows i c h layout x)
      as (h1 & w & Hb).
    rewrite Hb in Hrun. clear Hb.
    destruct (col_in c kcols || (leftVisibleColIndex s <=? i)) eqn:Hs.
    + exists i. split; [lia|].
      destruct (loop_keys _ _ _ _ _ _ _ _ _ _ _ _ _ _ _ _ Hrun0) as (_ & Hk & Hlast).
      specialize (Hk 0%nat c eq_refl). rewrite Z.add_0_r in Hk. apply Hk; [|done].
      destruct Hlast as [[? _]|?]; [done|lia].
    + cbn [snd] in Hrun. apply orb_false_iff in Hs as [_ Hleft].
      destruct (Z.ltb_spec (windowWidth s - 1) x) as [?|_]; [lia|].
      destruct (IH _ _ _ _ _ _ _ _ _ Hrun Hx) as (j & Hj1 & Hj2).
      { rewrite length_cons in Ht. lia. }
      exists j. split; [lia|done].
Qed.

(** What [calcColLayout] leaves alone. *)
Lemma calcColLayout_frame h (s : Sheet Row) :
  let '(h1, s1) := calcColLayout h s in
  same_flags h h1 ∧
  rows s1 = rows s ∧ columns s1 = columns s ∧
  cursorRowIndex s1 = cursorRowIndex s ∧ topRowIndex s1 = topRowIndex s ∧
  cursorVisibleColIndex s1 = cursorVisibleColIndex s ∧
  leftVisibleColIndex s1 = leftVisibleColIndex s ∧
  windowWidth s1 = windowWidth s.
Proof.
  unfold Sheets.calcColLayout.
  pose proof (loop_flags s (keyCols h s) (nVisibleCols h s) (visibleRows h s)
                (visibleCols h s) 0 h ∅ 0 0) as Hf.
  destruct (loop _ _ _ _ _ _ _ _) as [[[h1 layout] x] last].
  by simpl in *.
Qed.

(** With a visible column under the cursor, a window at least 1 wide and
    the left offset before the cursor, the layout has the cursor's column
    or ends before it, and starts no later than it. *)
Lemma calcColLayout_cursor h (s : Sheet Row) :
  1 ≤ windowWidth s →
  0 ≤ cursorVisibleColIndex s < nVisibleCols h s →
  leftVisibleColIndex s ≤ cursorVisibleColIndex s →
  let s1 := (calcColLayout h s).2 in
  ∃ lo hi, Py.min (layout_keys s1) = Ok lo ∧ Py.max (layout_keys s1) = Ok hi ∧
           lo ≤ cursorVisibleColIndex s ∧
           (cursorVisibleColIndex s ≤ hi →
            is_Some (visibleColLayout s1 !! cursorVisibleColIndex s)).
Proof.
  intros HW Hc Hleft. unfold Sheets.calcColLayout.
  destruct (loop s (keyCols h s) (nVisibleCols h s) (visibleRows h s)
              (visibleCols h s) 0 (h, ∅, 0) 0) as [[[h1 layout] x] last] eqn:Hrun.
  cbn [snd]. unfold layout_keys. cbn [set_colLayout visibleColLayout].
  assert (Hkey : ∀ j, j ∈ (map_to_list layout).*1 ↔ is_Some (layout !! j)).
  { intros j. rewrite list_elem_of_fmap. split.
    - intros ([j' v] & -> & Hin). apply elem_of_map_to_list in Hin. by eexists.
    - intros [v Hv]. exists (j, v). split; [done|]. by apply elem_of_map_to_list. }
  destruct (loop_stores _ _ _ _ _ _ _ _ _ _ _ _ _ _ Hrun) as (j & Hj & Hjs).
  { lia. } { unfold nVisibleCols, len in Hc. lia. }
  assert (Hne : (map_to_list layout).*1 ≠ []).
  { intros Hnil. apply Hkey in Hjs. rewrite Hnil in Hjs. by apply elem_of_nil in Hjs. }
  destruct (min_spec _ Hne) as (lo & Hlo & _ & Hlo2).
  destruct (max_spec _ Hne) as (hi & Hhi & Hhi1 & _).
  exists lo, hi. split_and!; [done|done| |].
  - apply Hkey in Hjs. specialize (Hlo2 _ Hjs). lia.
  - intros Hle. apply Hkey in Hhi1.
    destruct (loop_keys_range _ _ _ _ _ _ _ _ _ _ _ _ _ _ Hrun _ Hhi1) as [Hin|Hr].
    { rewrite lookup_empty in Hin. by destruct Hin. }
    destruct (loop_keys _ _ _ _ _ _ _ _ _ _ _ _ _ _ _ _ Hrun) as (_ & Hk & _).
    unfold nVisibleCols, len in Hc.
    destruct (lookup_lt_is_Some_2 (visibleCols h s)
                (Z.to_nat (cursorVisibleColIndex s))) as [c Hcol]; [lia|].
    specialize (Hk _ _ Hcol). rewrite Z.add_0_l, Z2Nat.id in Hk by lia.
    apply Hk; [lia|]. apply orb_true_iff. right. by apply Z.leb_le.
Qed.

(** The horizontal scroll returns, in at most as many rounds as the
    cursor is right of the left offset, and moves the left offset only. *)
Lemma checkCursor_loop_returns (fuel : nat) :
  ∀ h (s : Sheet Row),
    1 ≤ windowWidth s →
    0 ≤ cursorVisibleColIndex s < nVisibleCols h s →
    leftVisibleColIndex s ≤ cursorVisibleColIndex s →
    (Z.to_nat (cursorVisibleColIndex s - leftVisibleColIndex s) < fuel)%nat →
    ∃ h' s', checkCursor_loop fuel h s = Some (Ok (h', s')) ∧
             same_flags h h' ∧
             rows s' = rows s ∧ columns s' = columns s ∧
             cursorRowIndex s' = cursorRowIndex s ∧ topRowIndex s' = topRowIndex s ∧
             cursorVisibleColIndex s' = cursorVisibleColIndex s ∧
             leftVisibleColIndex s ≤ leftVisibleColIndex s' ≤ cursorVisibleColIndex s.
Proof.
  induction fuel as [|fuel IH]; intros h s HW Hc Hleft Hfuel; [lia|].
  cbn [Sheets.checkCursor_loop].
  destruct (Z.eqb_spec (leftVisibleColIndex s) (cursorVisibleColIndex s)) as [Heq|Hne].
  { exists h, s. split_and!; try done; lia. }
  pose proof (calcColLayout_frame h s) as Hfr.
  pose proof (calcColLayout_cursor h s HW Hc Hleft) as Hcur.
  destruct (calcColLayout h s) as [h1 s1]. cbn [snd] in Hcur.
  destruct Hfr as (Hflags & Hrows & Hcols & Hcr & Htop & Hcv & Hlv & Hww).
  destruct Hcur as (lo & hi & -> & -> & Hlo & Hin).
  rewrite Hcv.
  destruct (Z.ltb_spec (cursorVisibleColIndex s) lo) as [?|_]; [lia|].
  assert (Hnv : nVisibleCols h1 s1 = nVisibleCols h s).
  { unfold nVisibleCols.
    destruct (same_flags_visibleCols h h1 s1 Hflags) as [_ ->].
    unfold visibleCols, keyCols. by rewrite Hcols. }
  assert (Hstep : ∀ d, d = 1 →
    ∃ h' s', checkCursor_loop fuel h1
               (set_leftVisibleColIndex (leftVisibleColIndex s1 + d) s1) = Some (Ok (h', s')) ∧
             same_flags h h' ∧
             rows s' = rows s ∧ columns s' = columns s ∧
             cursorRowIndex s' = cursorRowIndex s ∧ topRowIndex s' = topRowIndex s ∧
             cursorVisibleColIndex s' = cursorVisibleColIndex s ∧
             leftVisibleColIndex s ≤ leftVisibleColIndex s' ≤ cursorVisibleColIndex s).
  { intros d ->.
    destruct (IH h1 (set_leftVisibleColIndex (leftVisibleColIndex s1 + 1) s1))
      as (h' & s' & Hrun & Hf' & Hr' & Hc' & Hcr' & Ht' & Hcv' & Hl').
    - cbn. lia.
    - change (nVisibleCols h1 (set_leftVisibleColIndex (leftVisibleColIndex s1 + 1) s1))
        with (nVisibleCols h1 s1).
      cbn [cursorVisibleColIndex set_leftVisibleColIndex]. lia.
    - cbn. lia.
    - cbn. lia.
    - exists h', s'. cbn in Hr', Hc', Hcr', Ht', Hcv', Hl'.
      split_and!; try congruence; try lia.
      eapply same_flags_trans; eauto. }
  destruct (Z.ltb_spec hi (cursorVisibleColIndex s)) as [Hhi|Hhi].
  { apply Hstep.
    assert ((hi - cursorVisibleColIndex s) / 2 < 0) by (apply Z.div_lt_upper_bound; lia).
    lia. }
  destruct (Hin Hhi) as [[cur_x cur_w] ->].
  destruct (cur_x + cur_w <? windowWidth s1).
  - exists h1, s1. split_and!; try done; lia.
  - by apply Hstep.
Qed.

(** X1: on a sheet with a visible column, in a window at least 1 wide,
    [checkCursor] returns (the horizontal scroll takes at most as many
    rounds as there are columns right of the left offset), the row cursor
    is then an index of a row (0 if there is none), the column cursor an
    index of a visible column, the left offset is not right of the cursor,
    and the rows and columns are the same. *)
Theorem checkCursor_in_bounds (fuel : nat) h (s : Sheet Row) :
  1 ≤ nVisibleCols h s →
  1 ≤ windowWidth s →
  (Z.to_nat (nVisibleCols h s - leftVisibleColIndex s) ≤ fuel)%nat →
  ∃ h' s', checkCursor fuel h s = Some (Ok (h', s')) ∧
           0 ≤ cursorRowIndex s' < Z.max (nRows s') 1 ∧
           0 ≤ cursorVisibleColIndex s' < nVisibleCols h' s' ∧
           leftVisibleColIndex s' ≤ cursorVisibleColIndex s' ∧
           rows s' = rows s ∧ columns s' = columns s.
Proof.
  intros Hnv HW Hfuel. unfold Sheets.checkCursor.
  set (s1 := clampCursorRow s).
  set (s2 := clampCursorCol h s1).
  set (s3 := clampTopRow s2).
  set (s4 := scrollRows h s3).
  assert (H1 : rows s1 = rows s ∧ columns s1 = columns s ∧
               leftVisibleColIndex s1 = leftVisibleColIndex s ∧
               windowWidth s1 = windowWidth s ∧
               0 ≤ cursorRowIndex s1 < Z.max (nRows s) 1).
  { subst s1. unfold clampCursorRow, nRows.
    destruct (Z.eqb_spec (len (rows s)) 0); cbn [orb];
      [|destruct (Z.leb_spec (cursorRowIndex s) 0);
        [|destruct (Z.leb_spec (len (rows s)) (cursorRowIndex s))]];
      cbn; split_and!; try done; unfold len in *; lia. }
  destruct H1 as (Hr1 & Hc1 & Hl1 & Hw1 & Hcr1).
  assert (Hnv1 : nVisibleCols h s1 = nVisibleCols h s).
  { unfold nVisibleCols, visibleCols, keyCols. by rewrite Hc1. }
  assert (H2 : rows s2 = rows s ∧ columns s2 = columns s ∧
               leftVisibleColIndex s2 = leftVisibleColIndex s ∧
               windowWidth s2 = windowWidth s ∧
               cursorRowIndex s2 = cursorRowIndex s1 ∧
               0 ≤ cursorVisibleColIndex s2 < nVisibleCols h s).
  { subst s2. unfold clampCursorCol. rewrite Hnv1.
    destruct (Z.leb_spec (cursorVisibleColIndex s1) 0);
      [|destruct (Z.leb_spec (nVisibleCols h s) (cursorVisibleColIndex s1))];
      cbn; split_and!; try done; lia. }
  destruct H2 as (Hr2 & Hc2 & Hl2 & Hw2 & Hcr2 & Hcv2).
  assert (H3 : rows s3 = rows s ∧ columns s3 = columns s ∧
               leftVisibleColIndex s3 = leftVisibleColIndex s ∧
               windowWidth s3 = windowWidth s ∧
               cursorRowIndex s3 = cursorRowIndex s1 ∧
               cursorVisibleColIndex s3 = cursorVisibleColIndex s2).
  { subst s3. unfold clampTopRow.
    destruct (topRowIndex s2 <=? 0); [|destruct (nRows s2 - 1 <? topRowIndex s2)];
      cbn; split_and!; done. }
  destruct H3 as (Hr3 & Hc3 & Hl3 & Hw3 & Hcr3 & Hcv3).
  assert (H4 : rows s4 = rows s ∧ columns s4 = columns s ∧
               leftVisibleColIndex s4 = leftVisibleColIndex s ∧
               windowWidth s4 = windowWidth s ∧
               cursorRowIndex s4 = cursorRowIndex s1 ∧
               cursorVisibleColIndex s4 = cursorVisibleColIndex s2).
  { subst s4. unfold scrollRows. cbv zeta.
    destruct (_ <? nHeaderRows h s3); [|destruct (_ <? _)];
      cbn; split_and!; done. }
  destruct H4 as (Hr4 & Hc4 & Hl4 & Hw4 & Hcr4 & Hcv4).
  assert (Hnv4 : nVisibleCols h s4 = nVisibleCols h s).
  { unfold nVisibleCols, visibleCols, keyCols. by rewrite Hc4. }
  clearbody s1 s2 s3 s4.
  destruct (Z.leb_spec (cursorVisibleColIndex s3 - leftVisibleColIndex s3) 0) as [Hx|Hx].
  - eexists _, _. split; [reflexivity|].
    change (nVisibleCols h (set_leftVisibleColIndex (cursorVisibleColIndex s4) s4))
      with (nVisibleCols h s4).
    unfold nRows.
    cbn [rows columns cursorRowIndex cursorVisibleColIndex leftVisibleColIndex
         set_leftVisibleColIndex].
    rewrite Hr4, Hcr4, Hcv4, Hnv4, Hc4. unfold nRows in Hcr1.
    split_and!; try done; lia.
  - destruct (checkCursor_loop_returns fuel h s4)
      as (h' & s' & -> & Hf & Hr' & Hc' & Hcr' & _ & Hcv' & Hl'); [lia|lia|lia|lia|].
    exists h', s'. split; [done|].
    assert (Hnv' : nVisibleCols h' s' = nVisibleCols h s).
    { unfold nVisibleCols.
      destruct (same_flags_visibleCols h h' s' Hf) as [_ ->].
      unfold visibleCols, keyCols. by rewrite Hc', Hc4. }
    unfold nRows. rewrite Hr', Hcr', Hcv', Hnv', Hc', Hr4, Hcr4, Hcv4, Hc4.
    unfold nRows in Hcr1. split_and!; try done; lia.
Qed.

End Facts.

(** The theorem at the sheet [abc] with the cursor past its last column. *)
Lemma checkCursor_in_bounds_witness :
  ∃ h' s', Sheets.checkCursor Fixtures.maxw Fixtures.opts 3 Fixtures.heap_abc
             (set_cursorVisibleColIndex 7 (Fixtures.sheet_abc 30)) = Some (Ok (h', s')) ∧
           0 ≤ cursorRowIndex s' < Z.max (nRows s') 1 ∧
           0 ≤ cursorVisibleColIndex s' < nVisibleCols h' s' ∧
           leftVisibleColIndex s' ≤ cursorVisibleColIndex s' ∧
           rows s' = rows (set_cursorVisibleColIndex 7 (Fixtures.sheet_abc 30)) ∧
           columns s' = columns (set_cursorVisibleColIndex 7 (Fixtures.sheet_abc 30)).
Proof.
  apply (checkCursor_in_bounds Fixtures.maxw Fixtures.opts 3 Fixtures.heap_abc
           (set_cursorVisibleColIndex 7 (Fixtures.sheet_abc 30))).
  - vm_compute. discriminate.
  - vm_compute. discriminate.
  - vm_compute. lia.
Defined.

(** The same call computed: the cursor comes back to column 2 and the left
    offset ends on it, after two rounds of the scroll. *)
Example checkCursor_abc_computed :
  ∃ h',
    Sheets.checkCursor Fixtures.maxw Fixtures.opts 3 Fixtures.heap_abc
      (set_cursorVisibleColIndex 7 (Fixtures.sheet_abc 30)) =
    Some (Ok (h', set_colLayout
                    (visibleColLayout
                       (calcColLayout Fixtures.maxw Fixtures.opts Fixtures.heap_abc
                          (set_leftVisibleColIndex 1
                             (set_cursorVisibleColIndex 2 (Fixtures.sheet_abc 30)))).2)
                    1
                    (set_leftVisibleColIndex 2
                       (set_cursorVisibleColIndex 2 (Fixtures.sheet_abc 30))))).
Proof. eexists. vm_compute. reflexivity. Qed.

End CursorFacts.

(** ** Colorizers *)

Module ColorizerFacts.
Import Py Colorizers.

Lemma insert_desc_perm x l : insert_desc x l ≡ₚ x :: l.
Proof.
  induction l as [|y r IH]; simpl; [done|].
  destruct (precedence x <? precedence y); [|done].
  rewrite IH. apply Permutation_swap.
Qed.

Lemma sorted_desc_perm l : sorted_desc l ≡ₚ l.
Proof.
  induction l as [|x r IH]; simpl; [done|].
  by rewrite insert_desc_perm, IH.
Qed.

Lemma insert_desc_sorted x l :
  StronglySorted before l → StronglySorted before (insert_desc x l).
Proof.
  induction 1 as [|y r Hr IH Hy]; simpl.
  - repeat constructor.
  - destruct (precedence x <? precedence y) eqn:Hlt.
    + constructor; [done|].
      rewrite insert_desc_perm. constructor; [unfold before; lia|done].
    + constructor; [by constructor|].
      constructor; [unfold before; lia|].
      eapply Forall_impl; [exact Hy|]. unfold before. intros z Hz. lia.
Qed.

Lemma sorted_desc_sorted l : StronglySorted before (sorted_desc l).
Proof.
  induction l as [|x r IH]; simpl; [constructor|by apply insert_desc_sorted].
Qed.

(** Stability: among the colorizers of one precedence the sort keeps the
    order of its input. *)
Lemma insert_desc_stable p x l :
  List.filter (fun c => precedence c =? p) (insert_desc x l) =
  List.filter (fun c => precedence c =? p) (x :: l).
Proof.
  induction l as [|y r IH]; [done|].
  cbn [insert_desc]. destruct (precedence x <? precedence y) eqn:Hlt; [|done].
  cbn [List.filter] in *. rewrite IH.
  destruct (precedence x =? p) eqn:Hx, (precedence y =? p) eqn:Hy; try done.
  lia.
Qed.

Lemma sorted_desc_stable p l :
  List.filter (fun c => precedence c =? p) (sorted_desc l) =
  List.filter (fun c => precedence c =? p) l.
Proof.
  induction l as [|x r IH]; [done|].
  cbn [sorted_desc foldr]. fold (sorted_desc r).
  rewrite insert_desc_stable. cbn [List.filter]. by rewrite IH.
Qed.

Section Facts.
Variable set_iter : list Colorizer -> list Colorizer.
Context {Ctx Attr : Type}.
Variable call : nat -> Ctx -> result PyVal.
Variable resolve_colors : list PyVal -> Attr.
(** Iterating over a set gives each of its elements once. *)
Hypothesis set_iter_perm : ∀ l, set_iter l ≡ₚ l.

(** The loop of [colorize] goes through the colorizers in order and
    stacks what each one that applies gives. *)
Lemma colorize_step_stack (ctx : Ctx) l : ∀ acc,
  (foldl (colorize_step call ctx) acc l).1 = acc.1 ++ omap (applies call ctx) l.
Proof.
  induction l as [|c r IH]; intros acc; simpl.
  - by rewrite app_nil_r.
  - rewrite IH. unfold colorize_step, applies.
    destruct (call (func c) ctx) as [v|e]; simpl; [|done].
    destruct (truthy v); simpl; [|done]. by rewrite <- app_assoc.
Qed.

(** C5, amended.  The colorizers [getColorizers] returns are those
    gathered, each once, ordered by precedence descending; among
    colorizers of equal precedence the order is the one in which the set
    is iterated; and [colorize] resolves the styles of the colorizers that
    apply, in that order. *)
Theorem colorize_resolution_order (own : list Colorizer) (cls : Class) :
  getColorizers set_iter own cls ≡ₚ gather own cls ∧
  StronglySorted before (getColorizers set_iter own cls) ∧
  (∀ p, List.filter (fun c => precedence c =? p) (getColorizers set_iter own cls) =
        List.filter (fun c => precedence c =? p) (set_iter (gather own cls))) ∧
  (∀ ctx, (colorize set_iter call resolve_colors own cls ctx).1 =
          resolve_colors (omap (applies call ctx) (getColorizers set_iter own cls))).
Proof.
  unfold getColorizers. split_and!.
  - by rewrite sorted_desc_perm, set_iter_perm.
  - apply sorted_desc_sorted.
  - intros p. apply sorted_desc_stable.
  - intros ctx. unfold colorize, colorstack, getColorizers.
    pose proof (colorize_step_stack ctx (sorted_desc (set_iter (gather own cls))) ([], [])) as Hs.
    destruct (foldl _ _ _) as [stack caught]. simpl in *. by rewrite Hs.
Qed.

End Facts.

Import Fixtures.

Lemma colorize_resolution_order_witness :
  getColorizers (fun l => l) sheet_colorizers class_Sheet ≡ₚ
    gather sheet_colorizers class_Sheet ∧
  StronglySorted before (getColorizers (fun l => l) sheet_colorizers class_Sheet) ∧
  (∀ p, List.filter (fun c => precedence c =? p)
          (getColorizers (fun l => l) sheet_colorizers class_Sheet) =
        List.filter (fun c => precedence c =? p) (gather sheet_colorizers class_Sheet)) ∧
  (∀ ctx, (colorize (fun l => l) all_true (fun st => st) sheet_colorizers class_Sheet ctx).1 =
          omap (applies all_true ctx) (getColorizers (fun l => l) sheet_colorizers class_Sheet)).
Proof.
  apply (colorize_resolution_order (fun l => l) all_true (fun st => st)).
  intros l. reflexivity.
Defined.

(** C5 as stated fails.  Nothing makes a set iterate in the order its
    elements were added: for the set that iterates in the reverse order,
    the three colorizers of precedence 2 that [Sheet] declares are applied
    last-declared first, and the colour stack starts with the style of the
    last of them. *)
Lemma getColorizers_not_declaration_order :
  (∀ l : list Colorizer, rev l ≡ₚ l) ∧
  List.map coloropt (getColorizers (@rev _) sheet_colorizers class_Sheet) =
    [ Some "color_selected_row"; Some "color_current_col"; Some "color_default_hdr";
      Some "color_error"; Some "color_key_col"; Some "color_default" ] ∧
  (colorstack (@rev _) all_true sheet_colorizers class_Sheet tt).1 ≠
  (colorstack (fun l => l) all_true sheet_colorizers class_Sheet tt).1.
Proof.
  split_and!.
  - intros l. symmetry. apply Permutation_rev.
  - reflexivity.
  - vm_compute. discriminate.
Qed.

End ColorizerFacts.

(** ** Copying a sheet *)

Module CopyFacts.
Import Py Sheets Copying.

(** Setting an attribute on each object of a list: [setKeys], [recalc]. *)
Lemma update_each_lookup (f : Column → Column) (l : list ref) :
  (∀ c, f (f c) = f c) →
  ∀ (h : Heap) r,
    foldl (fun h c => <[c := f (h !!! c)]> h) h l !! r =
      if decide (r ∈ l) then Some (f (h !!! r)) else h !! r.
Proof.
  intros Hf. induction l as [|c l IH]; intros h r; cbn [foldl].
  - rewrite decide_False; [done|]. apply not_elem_of_nil.
  - rewrite IH. destruct (decide (c = r)) as [->|Hne].
    + rewrite lookup_total_insert_eq, lookup_insert_eq, Hf.
      rewrite (decide_True (P := r ∈ r :: l)) by apply list_elem_of_here.
      by destruct (decide (r ∈ l)).
    + rewrite lookup_total_insert_ne, lookup_insert_ne by done.
      destruct (decide (r ∈ l)) as [Hin|Hnin].
      * rewrite decide_True; [done|]. by apply list_elem_of_further.
      * rewrite decide_False; [done|].
        intros [?|?]%elem_of_cons; congruence.
Qed.

Section Facts.
Context {Row : Type}.
Variable Column__copy__ : Column -> Column.
Variable BaseSheet__copy__ : Sheet Row -> Sheet Row.

Local Abbreviation copy_columns := (copy_columns Column__copy__).

(** The copies are new objects, all different; each holds the copy of the
    column it was made from; the objects there were are untouched. *)
Lemma copy_columns_spec (cols : list ref) :
  ∀ (h : Heap) rs h',
    copy_columns h cols = (rs, h') →
    (∀ c, c ∈ cols → c ∈ dom h) →
    NoDup rs ∧
    (∀ r, r ∈ rs → r ∉ dom h) ∧
    (∀ r, r ∈ dom h → r ∈ dom h' ∧ h' !! r = h !! r) ∧
    Forall2 (fun r c => h' !! r = Some (Column__copy__ (h !!! c))) rs cols.
Proof.
  induction cols as [|c cols IH]; intros h rs h' Hrun Hwf; simpl in Hrun.
  - simplify_eq. split_and!; [constructor|by intros r ?%not_elem_of_nil|done|constructor].
  - destruct (copy_columns (<[fresh (dom h) := Column__copy__ (h !!! c)]> h) cols)
      as [rs1 h1] eqn:Hrest.
    simplify_eq.
    pose proof (is_fresh (dom h)) as Hfresh.
    set (r0 := fresh (dom h)) in *.
    destruct (IH _ _ _ Hrest) as (Hnd & Hnew & Hold & Hcopies).
    { intros c' Hc'. rewrite dom_insert. apply elem_of_union_r, Hwf.
      by apply list_elem_of_further. }
    assert (Hr0 : r0 ∈ dom (<[r0 := Column__copy__ (h !!! c)]> h)).
    { rewrite dom_insert. apply elem_of_union_l. by apply elem_of_singleton. }
    split_and!.
    + constructor; [|done]. intros Hin. by apply Hnew in Hin.
    + intros r [->|Hin]%elem_of_cons; [done|].
      intros Hd. apply (Hnew r Hin). rewrite dom_insert. by apply elem_of_union_r.
    + intros r Hr.
      destruct (Hold r) as [Hd Hl].
      { rewrite dom_insert. by apply elem_of_union_r. }
      split; [done|]. rewrite Hl, lookup_insert_ne; [done|]. congruence.
    + constructor.
      * destruct (Hold r0 Hr0) as [_ ->]. by rewrite lookup_insert_eq.
      * apply Forall2_same_length_lookup in Hcopies as [Hlen Hc].
        apply Forall2_same_length_lookup. split; [done|].
        intros i r c' Hr Hc'. rewrite (Hc i r c' Hr Hc').
        rewrite lookup_total_insert_ne; [done|].
        intros ->. apply Hfresh, Hwf.
        apply list_elem_of_further. by eapply list_elem_of_lookup_2.
Qed.


Lemma filter_subset (f : ref → bool) (l : list ref) c : c ∈ List.filter f l → c ∈ l.
Proof. rewrite !list_elem_of_In, filter_In. tauto. Qed.

(** C6, amended.  The copy of a sheet has no rows; its columns are new
    objects, all different, none shared with the sheet copied: first a
    copy of each of its (visible) key columns with the key flag set, then a
    copy of each other column, all attached to the new sheet; the columns
    of the sheet copied are untouched; the row cursor and the top row are
    0.  The column cursor and the left offset are not reset: they are what
    [super().__copy__()] gave the new sheet. *)
Theorem Sheet__copy__design (h : Heap) (s : Sheet Row) :
  (∀ c, c ∈ columns s → c ∈ dom h) →
  let '(h', ret) := Sheet__copy__ Column__copy__ BaseSheet__copy__ h s in
  rows ret = [] ∧
  cursorRowIndex ret = 0 ∧ topRowIndex ret = 0 ∧
  cursorVisibleColIndex ret = cursorVisibleColIndex (BaseSheet__copy__ s) ∧
  leftVisibleColIndex ret = leftVisibleColIndex (BaseSheet__copy__ s) ∧
  (∃ kcopies others,
     columns ret = kcopies ++ others ∧
     Forall2 (fun r c => h' !! r = Some (set_sheet (Some (sid ret))
                                     (set_keycol true (Column__copy__ (h !!! c)))))
       kcopies (keyCols h s) ∧
     Forall2 (fun r c => h' !! r = Some (set_sheet (Some (sid ret))
                                     (Column__copy__ (h !!! c))))
       others (List.filter (fun c => negb (col_in c (keyCols h s))) (columns s))) ∧
  NoDup (columns ret) ∧
  (∀ r, r ∈ columns ret → r ∉ dom h) ∧
  (∀ r, r ∈ dom h → h' !! r = h !! r).
Proof.
  intros Hwf. unfold Sheet__copy__.
  destruct (copy_columns h (keyCols h s)) as [kcopies h1] eqn:Hk.
  cbn [columns set_columns].
  set (h2 := setKeys h1 kcopies).
  destruct (copy_columns h2 _) as [others h3] eqn:Ho.
  cbn [columns set_columns rows set_rows cursorRowIndex topRowIndex sid
       cursorVisibleColIndex leftVisibleColIndex set_cursorRowIndex set_topRowIndex].
  destruct (copy_columns_spec _ _ _ _ Hk) as (Hknd & Hknew & Hkold & Hkc).
  { intros c Hc. by apply filter_subset, Hwf in Hc. }
  assert (Hset : ∀ c, set_keycol true (set_keycol true c) = set_keycol true c) by done.
  assert (Hh2 : ∀ r, h2 !! r =
            if decide (r ∈ kcopies) then Some (set_keycol true (h1 !!! r)) else h1 !! r).
  { intros r. apply (update_each_lookup (set_keycol true) kcopies Hset h1 r). }
  assert (Hd2 : ∀ r, r ∈ dom h → r ∈ dom h2 ∧ h2 !! r = h !! r ∧ r ∉ kcopies).
  { intros r Hr. destruct (Hkold r Hr) as [Hd1 Hl1].
    assert (r ∉ kcopies) by (intros Hin; by apply (Hknew r Hin)).
    rewrite elem_of_dom, Hh2, decide_False, Hl1 by done.
    split_and!; [by apply elem_of_dom|done|done]. }
  destruct (copy_columns_spec _ _ _ _ Ho) as (Hond & Honew & Hoold & Hoc).
  { intros c Hc. by apply filter_subset, Hwf, Hd2 in Hc as [? _]. }
  set (sd := sid (BaseSheet__copy__ s)).
  assert (Hsh : ∀ c, set_sheet (Some sd) (set_sheet (Some sd) c) = set_sheet (Some sd) c) by done.
  assert (Hh4 : ∀ r, recalc h3 (set_columns (kcopies ++ others)
                                 (set_columns kcopies (set_rows [] (BaseSheet__copy__ s)))) !! r =
            if decide (r ∈ kcopies ++ others) then Some (set_sheet (Some sd) (h3 !!! r))
            else h3 !! r).
  { intros r. apply (update_each_lookup (set_sheet (Some sd)) (kcopies ++ others) Hsh h3 r). }
  assert (Hkd2 : ∀ r, r ∈ kcopies → r ∈ dom h2).
  { intros r Hr. rewrite elem_of_dom, Hh2, decide_True by done. by eexists. }
  split_and!; try reflexivity.
  - exists kcopies, others. split; [done|]. split.
    + apply Forall2_same_length_lookup in Hkc as [Hlen Hc].
      apply Forall2_same_length_lookup. split; [done|].
      intros i r c Hr Hci.
      assert (Hrin : r ∈ kcopies) by by eapply list_elem_of_lookup_2.
      rewrite Hh4, decide_True by (apply elem_of_app; by left).
      f_equal. f_equal.
      destruct (Hoold r (Hkd2 r Hrin)) as [_ Hl3].
      rewrite lookup_total_alt, Hl3, Hh2, decide_True by done. simpl.
      f_equal. by rewrite lookup_total_alt, (Hc i r c Hr Hci).
    + apply Forall2_same_length_lookup in Hoc as [Hlen Hc].
      apply Forall2_same_length_lookup. split; [done|].
      intros i r c Hr Hci.
      assert (Hrin : r ∈ others) by by eapply list_elem_of_lookup_2.
      rewrite Hh4, decide_True by (apply elem_of_app; by right).
      f_equal. f_equal.
      rewrite lookup_total_alt, (Hc i r c Hr Hci). simpl.
      f_equal.
      assert (Hcd : c ∈ dom h).
      { apply Hwf. eapply filter_subset. by eapply list_elem_of_lookup_2. }
      destruct (Hd2 c Hcd) as (_ & Hl2 & _).
      by rewrite !lookup_total_alt, Hl2.
  - apply NoDup_app. split_and!; [done| |done].
    intros r Hr1 Hr2. by apply (Honew r Hr2), Hkd2.
  - intros r [Hr|Hr]%elem_of_app Hd.
    + by apply (Hknew r Hr).
    + apply (Honew r Hr). by apply Hd2.
  - intros r Hr. destruct (Hd2 r Hr) as (Hd & Hl2 & Hnk).
    destruct (Hoold r Hd) as [_ Hl3].
    rewrite Hh4, decide_False, Hl3, Hl2; [done|].
    intros [Hin|Hin]%elem_of_app; [done|]. by apply (Honew r Hin).
Qed.

End Facts.

Import Fixtures.

Lemma Sheet__copy__design_witness :
  let '(h', ret) := Sheet__copy__ same_attributes shallow_copy heap_abc sheet_scrolled in
  rows ret = [] ∧
  cursorRowIndex ret = 0 ∧ topRowIndex ret = 0 ∧
  cursorVisibleColIndex ret = cursorVisibleColIndex (shallow_copy sheet_scrolled) ∧
  leftVisibleColIndex ret = leftVisibleColIndex (shallow_copy sheet_scrolled) ∧
  (∃ kcopies others,
     columns ret = kcopies ++ others ∧
     Forall2 (fun r c => h' !! r = Some (set_sheet (Some (sid ret))
                                     (set_keycol true (same_attributes (heap_abc !!! c)))))
       kcopies (keyCols heap_abc sheet_scrolled) ∧
     Forall2 (fun r c => h' !! r = Some (set_sheet (Some (sid ret))
                                     (same_attributes (heap_abc !!! c))))
       others (List.filter (fun c => negb (col_in c (keyCols heap_abc sheet_scrolled)))
                 (columns sheet_scrolled))) ∧
  NoDup (columns ret) ∧
  (∀ r, r ∈ columns ret → r ∉ dom heap_abc) ∧
  (∀ r, r ∈ dom heap_abc → h' !! r = heap_abc !! r).
Proof.
  apply (Sheet__copy__design same_attributes shallow_copy heap_abc sheet_scrolled).
  intros c Hc. apply elem_of_dom. cbn [columns sheet_scrolled] in Hc.
  repeat (apply elem_of_cons in Hc as [->|Hc]); [vm_compute; eauto ..|].
  by apply elem_of_nil in Hc.
Defined.

(** C6 as stated fails: [__copy__] resets the row cursor and the top row
    only.  The copy of a sheet whose cursor is on column 1, with left
    offset 1, has its cursor on column 1 and its left offset 1. *)
Lemma Sheet__copy__keeps_column_cursor :
  cursorRowIndex (Sheet__copy__ same_attributes shallow_copy heap_abc sheet_scrolled).2 = 0 ∧
  topRowIndex (Sheet__copy__ same_attributes shallow_copy heap_abc sheet_scrolled).2 = 0 ∧
  cursorVisibleColIndex
    (Sheet__copy__ same_attributes shallow_copy heap_abc sheet_scrolled).2 = 1 ∧
  leftVisibleColIndex
    (Sheet__copy__ same_attributes shallow_copy heap_abc sheet_scrolled).2 = 1.
Proof. split_and!; reflexivity. Qed.

End CopyFacts.

(** ** The command log: recording *)

Module RecordingFacts.
Import Py Sheets CmdLog.

(** A command is not loggable exactly when its longname starts with one of
    the prefixes. *)
Lemma isLoggable_from_false ns longname :
  isLoggable_from ns longname = false ↔
  ∃ n, n ∈ ns ∧ startswith longname n = true.
Proof.
  induction ns as [|n ns IH]; simpl.
  - split; [done|]. intros (n & Hn & _). by apply elem_of_nil in Hn.
  - destruct (startswith longname n) eqn:Hp.
    + split; [|done]. intros _. exists n. split; [apply list_elem_of_here|done].
    + rewrite IH. split.
      * intros (m & Hm & Hs). exists m. split; [by apply list_elem_of_further|done].
      * intros (m & [->|Hm]%elem_of_cons & Hs); [congruence|]. by exists m.
Qed.

Lemma isLoggableCommand_false longname :
  isLoggableCommand longname = false ↔
  ∃ n, n ∈ nonLogged ∧ startswith longname n = true.
Proof. apply isLoggable_from_false. Qed.

Lemma rows_of_addRow log r m log' :
  default [] (addRow log r m !! log') =
  default [] (m !! log') ++ (if decide (log = log') then [r] else []).
Proof.
  unfold addRow. destruct (decide (log = log')) as [->|Hne].
  - by rewrite lookup_insert_eq.
  - by rewrite lookup_insert_ne, app_nil_r.
Qed.

Section Facts.
Variable cmdlog_sheet : nat -> nat.

(** C4.  When a command ends with an entry pending, the entry is dropped
    (no log changes) if and only if the command was escaped, or its
    longname starts with one of the non-logged prefixes, or the acting
    sheet is the command log itself; otherwise the entry (with the error,
    if any, added) is appended to the rows of the command log and to the
    rows of the acting sheet's own log, and to no other.  Either way no
    entry is pending afterwards. *)
Theorem afterExecSheet_records (self vs : nat) (escaped : bool) (err : string)
    (rec : Recorder) (r : CommandLogRow) :
  activeCommand rec = Some r →
  let r' := if truthy_str err then add_err err r else r in
  let rec' := afterExecSheet cmdlog_sheet self vs escaped err rec in
  let dropped :=
    escaped = true ∨
    (∃ n, n ∈ nonLogged ∧ startswith (longname r) n = true) ∨
    self = vs in
  activeCommand rec' = None ∧
  ((∀ log, rows_of rec' log = rows_of rec log) ↔ dropped) ∧
  (dropped → logrows rec' = logrows rec ∧ sessionlog rec' = sessionlog rec) ∧
  (¬ dropped →
     ∀ log, rows_of rec' log =
              rows_of rec log ++ (if decide (self = log) then [r'] else [])
                              ++ (if decide (cmdlog_sheet vs = log) then [r'] else [])).
Proof.
  intros Hr r' rec' dropped.
  assert (Hname : longname r' = longname r).
  { subst r'. by destruct (truthy_str err). }
  assert (Hdec : dropped ↔
            negb escaped && isLoggableCommand (longname r') && negb (Nat.eqb self vs) = false).
  { subst dropped. rewrite Hname, !andb_false_iff, !negb_false_iff.
    rewrite isLoggableCommand_false, Nat.eqb_eq. tauto. }
  subst rec'. unfold afterExecSheet. rewrite Hr. fold r'.
  destruct (negb escaped && isLoggableCommand (longname r') && negb (Nat.eqb self vs)) eqn:Hc.
  - assert (Hnd : ¬ dropped) by (rewrite Hdec; congruence).
    assert (Hrows : ∀ log,
      rows_of (mkRecorder None (addRow (cmdlog_sheet vs) r' (addRow self r' (logrows rec)))
                 (cmdlog_histfile rec)
                 (if truthy_str (cmdlog_histfile rec) then sessionlog rec ++ [r']
                  else sessionlog rec)) log =
      rows_of rec log ++ (if decide (self = log) then [r'] else [])
                      ++ (if decide (cmdlog_sheet vs = log) then [r'] else [])).
    { intros log. unfold rows_of. cbn [logrows].
      by rewrite !rows_of_addRow, <- app_assoc. }
    split_and!; [done| |done|intros _; exact Hrows].
    split; [|done]. intros Hsame. exfalso.
    specialize (Hsame self). rewrite Hrows, decide_True in Hsame by done.
    apply (f_equal length) in Hsame. rewrite !length_app in Hsame. simpl in Hsame. lia.
  - assert (Hd : dropped) by (by rewrite Hdec).
    split_and!; [done|done|done|done].
Qed.

End Facts.

Import Fixtures.

Lemma afterExecSheet_records_witness :
  let rec := mkRecorder (Some (entry "edit-cell" "2")) ∅ "" [] in
  let r' := if truthy_str "" then add_err "" (entry "edit-cell" "2")
            else entry "edit-cell" "2" in
  let rec' := afterExecSheet (fun vs => (vs + 100)%nat) 0 7 false "" rec in
  let dropped :=
    false = true ∨
    (∃ n, n ∈ nonLogged ∧ startswith (longname (entry "edit-cell" "2")) n = true) ∨
    0%nat = 7%nat in
  activeCommand rec' = None ∧
  ((∀ log, rows_of rec' log = rows_of rec log) ↔ dropped) ∧
  (dropped → logrows rec' = logrows rec ∧ sessionlog rec' = sessionlog rec) ∧
  (¬ dropped →
     ∀ log, rows_of rec' log =
              rows_of rec log ++ (if decide (0%nat = log) then [r'] else [])
                              ++ (if decide ((7 + 100)%nat = log) then [r'] else [])).
Proof.
  apply (afterExecSheet_records (fun vs => (vs + 100)%nat) 0 7 false ""
           (mkRecorder (Some (entry "edit-cell" "2")) ∅ "" []) (entry "edit-cell" "2")).
  reflexivity.
Defined.

End RecordingFacts.

(** ** The command log: moving to a row or a column *)

Module MoveFacts.
Import Py Sheets CmdLog Fixtures.

(** C7 at an input on which the code does not do it: [replay_movement] on,
    the cursor on row 0, the target row 2.  The cursor moves to row 1 and
    [moveToRow] raises [NameError]; with the option off it jumps to row 2
    and returns [True]. *)
Example moveToRow_replay_movement :
  let vs := sheet_abc 80 in
  getRowIndexFromStr cell_value str_value int_digit "k" heap_abc vs "2" = Some 2 ∧
  moveToRow cell_value str_value int_digit "k" true heap_abc vs "2" =
    (set_cursorRowIndex 1 vs, Raise (NameError "self")) ∧
  moveToRow cell_value str_value int_digit "k" false heap_abc vs "2" =
    (set_cursorRowIndex 2 vs, Ok true).
Proof. split_and!; reflexivity. Qed.

(** The same for [moveToCol], from column 0 to column 2. *)
Example moveToCol_replay_movement :
  let vs := sheet_abc 80 in
  moveToCol int_digit true heap_abc vs "2" =
    (set_cursorVisibleColIndex 1 vs, Raise (NameError "self")) ∧
  moveToCol int_digit false heap_abc vs "2" =
    (set_cursorVisibleColIndex 2 vs, Ok true).
Proof. split_and!; reflexivity. Qed.

End MoveFacts.

(** ** The command log: cancelling a replay *)

Module ReplayFacts.
Import Py PyMore Sheets Views CmdLog Replay.

(** Once the replay is cancelled, the interface commands find no replay
    and change nothing. *)
Lemma ui_event_cancelled c e : currentReplay c = None → ui_event c e = c.
Proof. intros Hc. destruct e; simpl; unfold togglePause; by rewrite ?Hc. Qed.

Lemma events_cancelled evs : ∀ c, currentReplay c = None → foldl ui_event c evs = c.
Proof.
  induction evs as [|e evs IH]; intros c Hc; [done|].
  simpl. rewrite ui_event_cancelled by done. by apply IH.
Qed.

(** Anything but a stop leaves a running replay running. *)
Lemma ui_event_running c e :
  e ≠ StopReplay → is_Some (currentReplay c) → is_Some (currentReplay (ui_event c e)).
Proof.
  intros He [x Hx]. destruct e; [done|..]; simpl; unfold togglePause; rewrite ?Hx; simpl; eauto.
  by destruct (paused c); simpl; rewrite ?Hx.
Qed.

Lemma events_running evs : ∀ c,
  StopReplay ∉ evs → is_Some (currentReplay c) →
  is_Some (currentReplay (foldl ui_event c evs)).
Proof.
  induction evs as [|e evs IH]; intros c Hn Hc; [done|].
  simpl. apply IH.
  - intros Hin. apply Hn. by apply list_elem_of_further.
  - apply ui_event_running; [|done]. intros ->. apply Hn, list_elem_of_here.
Qed.

Lemma events_stop evs : ∀ c,
  is_Some (currentReplay c) → StopReplay ∈ evs → stopped (foldl ui_event c evs).
Proof.
  induction evs as [|e evs IH]; intros c Hc Hin; [by apply elem_of_nil in Hin|].
  simpl. destruct (decide (e = StopReplay)) as [->|Hne].
  - destruct Hc as [x Hx]. simpl. rewrite Hx.
    rewrite events_cancelled by done. split; simpl; [done|lia].
  - apply IH; [by apply ui_event_running|].
    apply elem_of_cons in Hin as [?|?]; [congruence|done].
Qed.

Lemma will_stop_stops c evs : will_stop c evs → stops c evs.
Proof. intros [[? _]|?]; [by left|by right]. Qed.

Lemma stops_cancelled c evs : stops c evs → currentReplay (foldl ui_event c evs) = None.
Proof.
  intros [Hc|[Hc Hin]].
  - by rewrite events_cancelled.
  - by apply events_stop.
Qed.

Lemma acquire_will_stop timed evs : ∀ c,
  will_stop c evs →
  ∃ acq c' evs',
    acquire timed c evs = Some (acq, c', evs') ∧
    (acq = true → stops c' evs') ∧
    (acq = false → will_stop c' evs' ∧ (length evs' < length evs)%nat).
Proof.
  induction evs as [|e evs IH]; intros c Hinv.
  - destruct Hinv as [[Hc Hs]|[_ Hin]]; [|by apply elem_of_nil in Hin].
    simpl. destruct (semaphore c) as [|n] eqn:Hsem; [lia|].
    eexists _, _, _. split_and!; [done|by left|done].
  - cbn [acquire]. destruct (semaphore c) as [|n] eqn:Hsem.
    + destruct Hinv as [[_ Hs]|[Hc Hin]]; [lia|].
      destruct Hc as [x Hx].
      destruct e.
      * destruct (IH (ui_event c StopReplay)) as (acq & c' & evs' & Ha & Ht & Hf).
        { left. simpl. rewrite Hx. split; simpl; [done|lia]. }
        exists acq, c', evs'. split_and!; [done|done|].
        intros Hacq. destruct (Hf Hacq). split; [done|simpl; lia].
      * destruct (IH (ui_event c AdvanceReplay)) as (acq & c' & evs' & Ha & Ht & Hf).
        { right. split; [apply ui_event_running; eauto|].
          apply elem_of_cons in Hin as [?|?]; [congruence|done]. }
        exists acq, c', evs'. split_and!; [done|done|].
        intros Hacq. destruct (Hf Hacq). split; [done|simpl; lia].
      * destruct (IH (ui_event c PauseReplay)) as (acq & c' & evs' & Ha & Ht & Hf).
        { right. split; [apply ui_event_running; eauto|].
          apply elem_of_cons in Hin as [?|?]; [congruence|done]. }
        exists acq, c', evs'. split_and!; [done|done|].
        intros Hacq. destruct (Hf Hacq). split; [done|simpl; lia].
      * assert (Hin' : StopReplay ∈ evs).
        { apply elem_of_cons in Hin as [?|?]; [congruence|done]. }
        destruct timed.
        -- eexists _, _, _. split_and!; [done|done|].
           intros _. split; [right; eauto|simpl; lia].
        -- destruct (IH c) as (acq & c' & evs' & Ha & Ht & Hf); [right; eauto|].
           exists acq, c', evs'. split_and!; [done|done|].
           intros Hacq. destruct (Hf Hacq). split; [done|simpl; lia].
    + eexists _, _, _. split_and!; [done| |done].
      intros _. destruct Hinv as [[Hc _]|[Hc Hin]]; [by left|by right].
Qed.

Lemma delay_will_stop c evs :
  will_stop c evs →
  ∃ b c' evs',
    delay c evs = Some (b, c', evs') ∧
    (b = true → stops c' evs') ∧
    (b = false → will_stop c' evs' ∧ (length evs' < length evs)%nat).
Proof.
  intros Hinv. unfold delay.
  destruct (acquire_will_stop (negb (paused c)) evs c Hinv)
    as (acq & c' & evs' & -> & Ht & Hf).
  eexists _, _, _. split; [done|]. destruct acq; simpl.
  - split; [auto|done].
  - destruct (Hf eq_refl) as [Hw Hl]. split; [|done].
    intros _. by apply will_stop_stops.
Qed.

Lemma wait_loop_will_stop fuel : ∀ c evs,
  will_stop c evs → (length evs < fuel)%nat →
  ∃ c' evs', wait_loop fuel c evs = Some (c', evs') ∧ stops c' evs'.
Proof.
  induction fuel as [|fuel IH]; intros c evs Hinv Hlen; [lia|].
  simpl. destruct (delay_will_stop c evs Hinv) as (b & c' & evs' & -> & Ht & Hf).
  destruct b.
  - eexists _, _. split; [done|auto].
  - destruct (Hf eq_refl) as [Hw Hl]. apply IH; [done|lia].
Qed.

(** A wait during or before which the replay is stopped ends, and the
    replay is cancelled when it has. *)
Lemma wait_will_stop c evs :
  will_stop c evs → ∃ c', wait c evs = Some c' ∧ currentReplay c' = None.
Proof.
  intros Hinv. unfold wait.
  destruct (wait_loop_will_stop (S (length evs)) c evs Hinv) as (c' & evs' & -> & Hs); [lia|].
  eexists. split; [done|]. by apply stops_cancelled.
Qed.


Section Facts.
Context {Row TypedValue : Type}.
Variable getTypedValue : Column -> Row -> TypedValue.
Variable str : TypedValue -> string.
Variable int : string -> option Z.
Variable rowkey_prefix : string.
Variable sheet_bool : Sheet Row -> bool.
Variable exec_command :
  Env (Row := Row) -> Log -> option string -> CommandLogRow ->
  Env (Row := Row) * Log * result bool.
Variable options_set : Env (Row := Row) -> CommandLogRow -> result (Env (Row := Row)).
Variable ensureLoaded_sync : Env (Row := Row) -> outcome (Env (Row := Row)).

Local Abbreviation moveToReplayContext :=
  (moveToReplayContext getTypedValue str int rowkey_prefix sheet_bool).
Local Abbreviation replayOne :=
  (replayOne getTypedValue str int rowkey_prefix sheet_bool exec_command options_set).
Local Abbreviation replay_loop :=
  (replay_loop getTypedValue str int rowkey_prefix sheet_bool exec_command options_set
     ensureLoaded_sync).
Local Abbreviation replay_sync :=
  (replay_sync getTypedValue str int rowkey_prefix sheet_bool exec_command options_set
     ensureLoaded_sync).
Local Abbreviation cancel_cause :=
  (cancel_cause getTypedValue str int rowkey_prefix sheet_bool exec_command options_set
     ensureLoaded_sync).

(** An entry that names a sheet that is not there, a row or a column that
    is not found, is an error: [moveToReplayContext] raises. *)
Lemma moveToReplayContext_no_sheet (env : Env) r :
  truthy_str (sheet r) = true →
  (∀ vs, getSheet env (sheet r) = Some vs → sheet_bool vs = false) →
  moveToReplayContext env r =
    (env, Raise (ExpectedException ("no sheet named " ++ sheet r))).
Proof.
  intros Hs Hg. unfold CmdLog.moveToReplayContext. rewrite Hs.
  destruct (getSheet env (sheet r)) as [vs|]; [|done]. by rewrite (Hg vs).
Qed.

Lemma moveToReplayContext_no_row (env : Env) r vs :
  truthy_str (sheet r) = true →
  getSheet env (sheet r) = Some vs →
  truthy_str (row r) = true →
  getRowIndexFromStr getTypedValue str int rowkey_prefix (heap env) vs (row r) = None →
  ∃ env1 e, moveToReplayContext env r = (env1, Raise e).
Proof.
  intros Hs Hg Hr Hi. unfold CmdLog.moveToReplayContext, moveToRow.
  rewrite Hs, Hg, Hr, Hi. destruct (sheet_bool vs); by eexists _, _.
Qed.

Lemma moveToReplayContext_no_col (env : Env) r vs :
  truthy_str (sheet r) = true →
  getSheet env (sheet r) = Some vs →
  truthy_str (col r) = true →
  int (col r) = None →
  indexMatch (visibleCols (heap env) vs)
    (fun c => String.eqb (col r) (name (heap env !!! c))) = None →
  ∃ env1 e, moveToReplayContext env r = (env1, Raise e).
Proof.
  intros Hs Hg Hc Hi Hm. unfold CmdLog.moveToReplayContext.
  rewrite Hs, Hg, Hc. destruct (sheet_bool vs); [|by eexists _, _].
  assert (Hcol : ∀ vs1 : Sheet Row, columns vs1 = columns vs →
            moveToCol int (replay_movement env) (heap env) vs1 (col r) = (vs1, Ok false)).
  { intros vs1 Hcols. unfold moveToCol. rewrite Hi.
    assert (Hv : visibleCols (heap env) vs1 = visibleCols (heap env) vs).
    { unfold visibleCols, keyCols. by rewrite Hcols. }
    by rewrite Hv, Hm. }
  destruct (truthy_str (row r)).
  - unfold moveToRow.
    destruct (getRowIndexFromStr _ _ _ _ _ _ _) as [rowidx|]; [|by eexists _, _].
    destruct (replay_movement env).
    + destruct (cursorRowIndex vs =? rowidx); [|by eexists _, _].
      cbn [or_error]. rewrite (Hcol vs eq_refl). by eexists _, _.
    + cbn [or_error]. rewrite (Hcol (set_cursorRowIndex rowidx vs) eq_refl).
      by eexists _, _.
  - rewrite (Hcol vs eq_refl). by eexists _, _.
Qed.

(** [replayOne] touches [currentReplayRow] only. *)
Lemma replayOne_ctl (c : Ctl) (env : Env) log r :
  currentReplay (replayOne c env log r).1.1.1 = currentReplay c.
Proof.
  unfold Replay.replayOne.
  destruct (String.eqb (longname r) "set-option").
  - by destruct (options_set env r).
  - destruct (moveToReplayContext env r) as [env1 [vs|e]]; [|done].
    by destruct (exec_command env1 log vs r) as [[env2 log2] [b|e]].
Qed.

(** What [replayOne] gives for each cause but the stop: it raises, or
    reports an escape. *)
Lemma cancel_cause_result (c : Ctl) (env : Env) log r slot :
  cancel_cause env log r slot →
  (StopReplay ∈ during slot ++ waiting slot ∧
   ∀ env1, ∃ env2, ensureLoaded_sync env1 = Returns env2) ∨
  (replayOne c env log r).2 ≠ Ok false.
Proof.
  intros [Hstop Hsync|Hn Hs Hg|vs Hn Hs Hg Hr Hi|vs Hn Hs Hg Hc Hi Hm|Hn He|Hn He|e Hn He];
    [by left|right..]; unfold Replay.replayOne.
  - apply String.eqb_neq in Hn. rewrite Hn.
    by rewrite (moveToReplayContext_no_sheet env r Hs Hg).
  - apply String.eqb_neq in Hn. rewrite Hn.
    by destruct (moveToReplayContext_no_row env r vs Hs Hg Hr Hi) as (env1 & e & ->).
  - apply String.eqb_neq in Hn. rewrite Hn.
    by destruct (moveToReplayContext_no_col env r vs Hs Hg Hc Hi Hm) as (env1 & e & ->).
  - apply String.eqb_neq in Hn. rewrite Hn.
    destruct (moveToReplayContext env r) as [env1 [vs|e']]; [|done].
    by destruct (He env1 log vs) as (env2 & log2 & e & ->).
  - apply String.eqb_neq in Hn. rewrite Hn.
    destruct (moveToReplayContext env r) as [env1 [vs|e']]; [|done].
    by destruct (He env1 log vs) as (env2 & log2 & ->).
  - apply String.eqb_eq in Hn. by rewrite Hn, He.
Qed.

(** The entry under the cursor of the log. *)
Lemma cursorRow_at (log : Log) r :
  0 ≤ cursorRowIndex log →
  rows log !! Z.to_nat (cursorRowIndex log) = Some r →
  (cursorRowIndex log <? len (rows log)) = true ∧ cursorRow log = Returns (Some r).
Proof.
  intros Hpos Hr. pose proof (lookup_lt_Some _ _ _ Hr) as Hlt.
  assert (Hlen : cursorRowIndex log < len (rows log)) by (unfold len; lia).
  split; [by apply Z.ltb_lt|].
  unfold cursorRow, nRows, getitem.
  destruct (Z.ltb_spec 0 (len (rows log))) as [_|?]; [|lia].
  destruct (Z.ltb_spec (cursorRowIndex log) 0) as [?|_]; [lia|].
  destruct (Z.ltb_spec (cursorRowIndex log) 0) as [?|_]; [lia|].
  by rewrite Hr.
Qed.


(** X6: however [replay_sync] comes to return (the log is at its end, the
    replay was cancelled, an entry failed or was escaped), [currentReplay]
    is [None] then. *)
Theorem replay_sync_returns (fuel : nat) (c : Ctl) (env : Env) (log : Log) sched
    c' env' log' ret replayed :
  replay_sync fuel c env log sched = Some (c', env', log', Returns ret, replayed) →
  currentReplay c' = None.
Proof.
  unfold Replay.replay_sync. cbv zeta.
  generalize (set_currentReplay (Some (sid (set_cursorRowIndex 0 log))) c).
  generalize (set_cursorRowIndex 0 log). generalize (@nil CommandLogRow).
  clear c log. intros replayed0 log c. revert c env log sched replayed0.
  induction fuel as [|fuel IH]; intros c env log sched replayed0 Hrun; [done|].
  cbn [Replay.replay_loop] in Hrun.
  destruct (cursorRowIndex log <? len (rows log)); [|by simplify_eq].
  destruct (currentReplay c) as [self|] eqn:Hself; [|by simplify_eq].
  destruct (cursorRow log) as [[r|]|e]; [|by simplify_eq..].
  destruct (replayOne c env log r) as [[[c1 env1] log1] res].
  destruct res as [[|]|e]; [by simplify_eq| |by simplify_eq].
  destruct (ensureLoaded_sync env1) as [env2|e]; [|by simplify_eq].
  destruct (wait _ _) as [c2|]; [|done].
  by eapply IH.
Qed.

(** *** A log that nobody touches *)

(** The replayed commands and the interface thread leave the rows and the
    cursor of the log alone. *)
Local Abbreviation same_log l' l :=
  (rows l' = rows (l : Log) ∧ cursorRowIndex l' = cursorRowIndex l).

Lemma replayOne_log (c : Ctl) (env : Env) (log : Log) r :
  (∀ env1 log1 vs r1, same_log (exec_command env1 log1 vs r1).1.2 log1) →
  same_log (replayOne c env log r).1.2 log.
Proof.
  intros Hexec. unfold Replay.replayOne.
  destruct (String.eqb (longname r) "set-option").
  - by destruct (options_set env r).
  - destruct (moveToReplayContext env r) as [env1 [vs|e]]; [|done].
    specialize (Hexec env1 log vs r).
    by destruct (exec_command env1 log vs r) as [[env2 log2] [b|e]].
Qed.

Lemma replay_loop_prefix (fuel : nat) :
  (∀ env1 log1 vs r1, same_log (exec_command env1 log1 vs r1).1.2 log1) →
  ∀ (c : Ctl) (env : Env) (log : Log) sched replayed c' env' log' res replayed',
    Forall (fun slot => ∀ l, same_log (log_during slot l) l ∧
                             same_log (log_waiting slot l) l) sched →
    replay_loop fuel c env log sched replayed = Some (c', env', log', res, replayed') →
    0 ≤ cursorRowIndex log →
    replayed = take (Z.to_nat (cursorRowIndex log)) (rows log) →
    ∃ k, replayed' = take k (rows log).
Proof.
  intros Hexec.
  induction fuel as [|fuel IH];
    intros c env log sched replayed c' env' log' res replayed' Hsched Hrun Hpos Hrep;
    [done|].
  cbn [Replay.replay_loop] in Hrun.
  destruct (Z.ltb_spec (cursorRowIndex log) (len (rows log))) as [Hlt|_];
    [|simplify_eq; by eexists].
  destruct (currentReplay c) as [self|] eqn:Hself; [|simplify_eq; by eexists].
  destruct (lookup_lt_is_Some_2 (rows log) (Z.to_nat (cursorRowIndex log))) as [r Hr].
  { unfold len in Hlt. lia. }
  destruct (cursorRow_at log r Hpos Hr) as [_ Hrow]. rewrite Hrow in Hrun.
  pose proof (replayOne_log c env log r Hexec) as [Hrows1 Hcur1].
  destruct (replayOne c env log r) as [[[c1 env1] log1] res1]. cbn [fst snd] in *.
  assert (Hslot : ∀ l, same_log (log_during (hd idle sched) l) l ∧
                       same_log (log_waiting (hd idle sched) l) l).
  { destruct Hsched as [|slot sched Hs _]; [done|apply Hs]. }
  assert (Hnext : replayed ++ [r] =
                  take (S (Z.to_nat (cursorRowIndex log))) (rows log)).
  { rewrite Hrep. symmetry. by apply take_S_r. }
  destruct res1 as [[|]|e]; [simplify_eq; by eexists| |simplify_eq; by eexists].
  destruct (ensureLoaded_sync env1) as [env2|e]; [|simplify_eq; by eexists].
  destruct (wait _ _) as [c2|]; [|done].
  destruct (Hslot log1) as [[Hr2 Hc2] _].
  match type of Hrun with context [log_waiting ?sl ?l] =>
    destruct (Hslot l) as [_ [Hr3 Hc3]] end.
  cbn [rows cursorRowIndex set_cursorRowIndex] in Hr3, Hc3.
  eapply IH in Hrun.
  - destruct Hrun as [k Hk]. exists k. rewrite Hk. f_equal. congruence.
  - destruct Hsched; [done|by cbn].
  - rewrite Hc3. lia.
  - rewrite Hr3, Hc3, Hr2, Hc2, Hrows1, Hcur1, Hnext. f_equal. lia.
Qed.

(** X27: if no replayed command and nothing the interface thread does
    touches the rows or the cursor of the log, the entries [replay_sync]
    calls [replayOne] with, however it ends (it returns or an exception of
    [ensureLoaded] or [sync] leaves it), are the first entries of the log in
    their order, none left out and none twice. *)
Theorem replay_sync_in_order (fuel : nat) (c : Ctl) (env : Env) (log : Log) sched
    c' env' log' res replayed :
  (∀ env1 log1 vs r1, same_log (exec_command env1 log1 vs r1).1.2 log1) →
  Forall (fun slot => ∀ l, same_log (log_during slot l) l ∧
                           same_log (log_waiting slot l) l) sched →
  replay_sync fuel c env log sched = Some (c', env', log', res, replayed) →
  ∃ k, replayed = take k (rows log).
Proof.
  intros Hexec Hsched Hrun. unfold Replay.replay_sync in Hrun. cbv zeta in Hrun.
  by eapply (replay_loop_prefix fuel Hexec) in Hrun.
Qed.

End Facts.

Import Fixtures ReplayFixtures.

Local Abbreviation replayOne_abc :=
  (replayOne cell_value str_value int_digit "k" (fun vs => true)
     exec_quiet options_set_quiet).
Local Abbreviation replay_loop_abc :=
  (replay_loop cell_value str_value int_digit "k" (fun vs => true)
     exec_quiet options_set_quiet sync_quiet).
Local Abbreviation replay_sync_abc :=
  (replay_sync cell_value str_value int_digit "k" (fun vs => true)
     exec_quiet options_set_quiet sync_quiet).


(** The whole replay of [log3]: the second command is escaped; somebody
    stops the replay during the wait after the first entry; with
    [replay_movement] on, moving to row 2 raises; the replay is paused
    after the first entry and nobody advances or stops it (it waits for
    ever); the [stop-replay] of the log sheet during the first entry ends
    the replay as if the log were at its end. *)
Example replay_sync_log3 :
  let run := replay_sync_abc 4 ctl_idle in
  let log := log_sheet log3 0 in
  (∃ c' env', run (env_abc false) log [] =
     Some (c', env', set_cursorRowIndex 1 log, Returns RetTrue,
           [entry "select-row" ""; entry "edit-cell" "2"]) ∧
     currentReplay c' = None) ∧
  (∃ c' env', run (env_abc false) log [mkSlot [] id [Tick; StopReplay] id] =
     Some (c', env', set_cursorRowIndex 1 log, Returns RetNone,
           [entry "select-row" ""]) ∧
     currentReplay c' = None) ∧
  (∃ c' env', run (env_abc true) log [] =
     Some (c', env', set_cursorRowIndex 1 log, Returns RetTrue,
           [entry "select-row" ""; entry "edit-cell" "2"]) ∧
     currentReplay c' = None) ∧
  run (env_abc false) log [mkSlot [PauseReplay] id [] id] = None ∧
  (∃ c' env', run (env_abc false) log [mkSlot [] stop_replay [] id] =
     Some (c', env', set_cursorRowIndex 4 log, Returns RetNone,
           [entry "select-row" ""]) ∧
     currentReplay c' = None).
Proof.
  cbv zeta. split_and!; [eexists _, _; split; reflexivity ..|reflexivity|
                         eexists _, _; split; reflexivity].
Qed.

(** A replayed command can move the cursor of the log: the entry
    [go-down] names no sheet, runs on the log and moves its cursor, so that
    the entry after it is left out. *)
Example replay_sync_skips :
  let log := log_sheet [entry_on_log "go-down"; entry "select-row" "";
                        entry "edit-cell" "2"] 0 in
  ∃ c' env' log',
    replay_sync cell_value str_value int_digit "k" (fun vs => true)
      exec_moving options_set_quiet sync_quiet 4 ctl_idle (env_abc false) log [] =
    Some (c', env', log', Returns RetTrue, [entry_on_log "go-down"; entry "edit-cell" "2"]).
Proof. cbv zeta. eexists _, _, _. reflexivity. Qed.

(** The replay of [log3] stopped during the wait after its first entry. *)
Lemma replay_sync_returns_witness :
  currentReplay (mkCtl None None false 1) = None.
Proof.
  eapply (replay_sync_returns cell_value str_value int_digit "k" (fun vs => true)
            exec_quiet options_set_quiet sync_quiet 4 ctl_idle (env_abc false)
            (log_sheet log3 0) [mkSlot [] id [Tick; StopReplay] id]).
  reflexivity.
Defined.

(** The replay of [log3], whose second command is escaped. *)
Lemma replay_sync_in_order_witness :
  ∃ k, [entry "select-row" ""; entry "edit-cell" "2"] = take k (rows (log_sheet log3 0)).
Proof.
  eapply (replay_sync_in_order cell_value str_value int_digit "k" (fun vs => true)
            exec_quiet options_set_quiet sync_quiet 4 ctl_idle (env_abc false)
            (log_sheet log3 0) []).
  - intros env1 log1 vs r1. unfold exec_quiet.
    by repeat match goal with |- context [if ?b then _ else _] => destruct b end.
  - constructor.
  - reflexivity.
Defined.

End ReplayFacts.

(** ** The JSON loader *)

Module JsonFacts.
Import Py Sheets Json.

(** [l.insert(len(l), x)] appends. *)
Lemma list_insert_end {A} (l : list A) (x : A) : list_insert l (len l) x = l ++ [x].
Proof.
  unfold list_insert, clamp_index, len.
  destruct (Z.ltb_spec (Z.of_nat (length l)) 0) as [?|_]; [lia|].
  rewrite Z.min_id, Nat2Z.id, take_ge, drop_ge by lia. done.
Qed.

Section Facts.
Variable ColumnItem : string -> string -> Column.
Variable deduceType : Value -> string.

Local Abbreviation addRow_keys := (addRow_keys ColumnItem deduceType).
Local Abbreviation addRow := (addRow ColumnItem deduceType).

Lemma unseen_insert names k c items :
  k ∉ items.*1 → unseen (<[k := c]> names) items = unseen names items.
Proof.
  intros Hk. unfold unseen. induction items as [|[k' v'] items IH]; [done|].
  cbn [List.filter fst]. rewrite IH.
  - rewrite lookup_insert_ne; [done|].
    intros ->. apply Hk. simpl. apply list_elem_of_here.
  - intros Hin. apply Hk. simpl. by apply list_elem_of_further.
Qed.

(** The loop over the keys: one new column object for each key without a
    column, in the order of the keys, appended to the columns and entered
    in [colnames]; nothing else changes. *)
Lemma addRow_keys_spec (items : list (string * Value)) :
  ∀ (h : Heap) (js : JsonSheet) h' js',
    addRow_keys h js items = (h', js') →
    NoDup items.*1 →
    rows (base js') = rows (base js) ∧
    sid (base js') = sid (base js) ∧
    (∀ r, r ∈ dom h → r ∈ dom h' ∧ h' !! r = h !! r) ∧
    (∀ k c, colnames js !! k = Some c → colnames js' !! k = Some c) ∧
    ∃ cs,
      columns (base js') = columns (base js) ++ cs ∧
      NoDup cs ∧
      (∀ c, c ∈ cs → c ∉ dom h) ∧
      Forall2 (fun c kv =>
                 h' !! c = Some (set_sheet (Some (sid (base js)))
                                   (ColumnItem kv.1 (deduceType kv.2))) ∧
                 colnames js' !! kv.1 = Some c)
        cs (unseen (colnames js) items).
Proof.
  induction items as [|[k v] items IH]; intros h js h' js' Hrun Hnd.
  - simpl in Hrun. simplify_eq. split_and!; [done..|].
    exists []. rewrite app_nil_r. split_and!; [done|constructor| |constructor].
    intros c Hc. by apply elem_of_nil in Hc.
  - cbn [Json.addRow_keys] in Hrun. simpl in Hnd. apply NoDup_cons in Hnd as [Hk Hnd].
    unfold unseen. cbn [List.filter fst]. fold (unseen (colnames js) items).
    destruct (colnames js !! k) as [c0|] eqn:Hseen.
    + rewrite bool_decide_eq_false_2 by done. by apply IH.
    + rewrite bool_decide_eq_true_2 by done.
      unfold alloc, addColumn in Hrun. cbn zeta in Hrun.
      pose proof (is_fresh (dom h)) as Hfresh.
      set (c0 := fresh (dom h)) in *.
      rewrite lookup_total_insert_eq, insert_insert_eq, list_insert_end in Hrun.
      destruct (IH _ _ _ _ Hrun Hnd) as (Hrows & Hsid & Hold & Hnames & cs & Hcols & Hcnd & Hnew & Hcs).
      cbn [base colnames rows sid columns set_columns] in *.
      assert (Hc0 : c0 ∈ dom (<[c0 := set_sheet (Some (sid (base js)))
                                   (ColumnItem k (deduceType v))]> h)).
      { rewrite dom_insert. apply elem_of_union_l. by apply elem_of_singleton. }
      split_and!; [done|done| | |].
      * intros r Hr. destruct (Hold r) as [Hd Hl].
        { rewrite dom_insert. by apply elem_of_union_r. }
        split; [done|]. rewrite Hl, lookup_insert_ne; [done|]. congruence.
      * intros k' c' Hk'. apply Hnames. rewrite lookup_insert_ne; [done|]. congruence.
      * exists (c0 :: cs). split_and!.
        -- by rewrite Hcols, <- app_assoc.
        -- constructor; [|done]. intros Hin. by apply Hnew in Hin.
        -- intros c [->|Hin]%elem_of_cons; [done|].
           intros Hd. apply (Hnew c Hin). rewrite dom_insert. by apply elem_of_union_r.
        -- constructor.
           ++ cbn [fst snd]. split.
              ** destruct (Hold c0 Hc0) as [_ ->]. by rewrite lookup_insert_eq.
              ** apply Hnames. by rewrite lookup_insert_eq.
           ++ by rewrite unseen_insert in Hcs.
Qed.

(** C10.  [JsonSheet.addRow] puts the row into the rows (at the end, or
    at [index]).  For a dict it makes one new column for each key that
    [colnames] does not have, in the order of the keys, appends them to the
    columns, enters them in [colnames], and returns the row; no column
    there was changes.  For any other row it makes no column and returns
    [None]. *)
Theorem JsonSheet_addRow (h : Heap) (js : JsonSheet) (row : Value) (index : option Z) :
  (∀ items, row = JDict items → NoDup items.*1) →
  let '(h', js', ret) := addRow h js row index in
  rows (base js') =
    match index with
    | None => rows (base js) ++ [row]
    | Some i => list_insert (rows (base js)) i row
    end ∧
  match row with
  | JDict items =>
      ret = Some row ∧
      (∀ r, r ∈ dom h → h' !! r = h !! r) ∧
      (∀ k c, colnames js !! k = Some c → colnames js' !! k = Some c) ∧
      ∃ cs,
        columns (base js') = columns (base js) ++ cs ∧
        NoDup cs ∧
        (∀ c, c ∈ cs → c ∉ dom h) ∧
        Forall2 (fun c kv =>
                   h' !! c = Some (set_sheet (Some (sid (base js)))
                                     (ColumnItem kv.1 (deduceType kv.2))) ∧
                   colnames js' !! kv.1 = Some c)
          cs (unseen (colnames js) items)
  | _ =>
      ret = None ∧ h' = h ∧
      columns (base js') = columns (base js) ∧ colnames js' = colnames js
  end.
Proof.
  intros Hdict. unfold Json.addRow.
  assert (Hr : rows (Sheets.addRow (base js) row index) =
               match index with
               | None => rows (base js) ++ [row]
               | Some i => list_insert (rows (base js)) i row
               end) by (by destruct index).
  assert (Hc : columns (Sheets.addRow (base js) row index) = columns (base js))
    by (by destruct index).
  assert (Hs : sid (Sheets.addRow (base js) row index) = sid (base js))
    by (by destruct index).
  destruct row as [| | | | |items]; try (cbn [base colnames]; by split_and!).
  destruct (addRow_keys h _ items) as [h1 js1] eqn:Hrun.
  destruct (addRow_keys_spec items _ _ _ _ Hrun (Hdict items eq_refl))
    as (Hrows & Hsid & Hold & Hnames & cs & Hcols & Hcnd & Hnew & Hcs).
  cbn [base colnames] in *. rewrite Hs in Hcs. rewrite Hc in Hcols.
  split; [by rewrite Hrows|]. split_and!; [done| |done|by exists cs].
  intros r Hr'. by apply Hold.
Qed.

End Facts.

Import Fixtures.

Lemma JsonSheet_addRow_witness :
  let '(h', js', ret) := addRow column_item deduce_anytype heap_json sheet_json row_bac None in
  rows (base js') = rows (base sheet_json) ++ [row_bac] ∧
  ret = Some row_bac ∧
  (∀ r, r ∈ dom heap_json → h' !! r = heap_json !! r) ∧
  (∀ k c, colnames sheet_json !! k = Some c → colnames js' !! k = Some c) ∧
  ∃ cs,
    columns (base js') = columns (base sheet_json) ++ cs ∧
    NoDup cs ∧
    (∀ c, c ∈ cs → c ∉ dom heap_json) ∧
    Forall2 (fun c kv =>
               h' !! c = Some (set_sheet (Some (sid (base sheet_json)))
                                 (column_item kv.1 (deduce_anytype kv.2))) ∧
               colnames js' !! kv.1 = Some c)
      cs (unseen (colnames sheet_json)
            [("b", JNum "1"); ("a", JNull); ("c", JStr "x")]).
Proof.
  apply (JsonSheet_addRow column_item deduce_anytype heap_json sheet_json row_bac None).
  intros items [= <-]. cbn [fmap list_fmap fst].
  repeat constructor; rewrite ?elem_of_cons, ?elem_of_nil; intros H;
    repeat destruct H as [H|H]; done.
Defined.

(** The same call computed: the new columns are [b] and [c], in that
    order, after [a]; a row that is not a dict adds no column and returns
    [None]. *)
Example JsonSheet_addRow_computed :
  let result := addRow column_item deduce_anytype heap_json sheet_json row_bac None in
  List.map (fun c => name (result.1.1 !!! c)) (columns (base result.1.2)) = ["a"; "b"; "c"] ∧
  result.2 = Some row_bac ∧
  addRow column_item deduce_anytype heap_json sheet_json (JStr "x") (Some 0) =
    (heap_json,
     mkJsonSheet (set_rows [JStr "x"] (base sheet_json)) (colnames sheet_json),
     None).
Proof. cbv zeta. split_and!; reflexivity. Qed.

End JsonFacts.

(** ** Wrapping a cell *)

Module WrapFacts.
Import Wrap.

(** *** Characters *)

Lemma is_ws_isspace c : is_ws c = true → isspace c = true.
Proof. chars. lia. Qed.

Lemma is_linebreak_isspace c : is_linebreak c = true → isspace c = true.
Proof. chars. lia. Qed.

Lemma isspace_space : isspace space = true.
Proof. reflexivity. Qed.

Lemma isspace_tab c : is_code 9 c = true → isspace c = true.
Proof. chars. lia. Qed.

Lemma space_not_hyphen : is_hyphen space = false.
Proof. reflexivity. Qed.

(** *** Words *)

(** A whitespace character ends the word before it. *)
Lemma words_from_space a : ∀ cur c b,
  isspace c = true →
  words_from cur (a ++ c :: b) = words_from cur a ++ words b.
Proof.
  induction a as [|x a IH]; intros cur c b Hc; simpl.
  - rewrite Hc. by destruct cur.
  - destruct (isspace x); [destruct cur|]; simpl; rewrite ?IH; done.
Qed.

Lemma words_space c b : isspace c = true → words (c :: b) = words b.
Proof. intros Hc. unfold words. simpl. by rewrite Hc. Qed.

Lemma words_from_end_space a : ∀ cur c,
  isspace c = true → words_from cur (a ++ [c]) = words_from cur a.
Proof. intros cur c Hc. by rewrite words_from_space, app_nil_r. Qed.

Lemma words_app a b : apart a b = true → words (a ++ b) = words a ++ words b.
Proof.
  unfold apart. intros [Ha|Hb]%orb_true_iff.
  - destruct (last a) as [c|] eqn:Hl.
    + apply last_Some in Hl as [a' ->].
      rewrite <- app_assoc. simpl. unfold words.
      by rewrite words_from_space, words_from_end_space.
    + apply last_None in Hl as ->. done.
  - destruct b as [|c b]; [by rewrite !app_nil_r|].
    unfold words. rewrite words_from_space by done. by rewrite words_space.
Qed.

Lemma apart_app_r a x y : apart a (x ++ y) = true → apart a x = true.
Proof.
  unfold apart. intros [Ha|Hb]%orb_true_iff; apply orb_true_iff; [by left|right].
  by destruct x.
Qed.

Lemma words_blank s : blank s = true → words s = [].
Proof.
  unfold words, blank. induction s as [|c s IH]; [done|]. simpl.
  intros [Hc Hs]%andb_true_iff. rewrite Hc. by apply IH.
Qed.

Lemma nonspace_blank s : blank s = true → nonspace s = [].
Proof.
  unfold nonspace, blank. induction s as [|c s IH]; [done|]. simpl.
  intros [Hc Hs]%andb_true_iff. rewrite Hc. by apply IH.
Qed.

Lemma nonspace_app a b : nonspace (a ++ b) = nonspace a ++ nonspace b.
Proof. apply List.filter_app. Qed.

(** The words of lines joined by spaces are the words of the lines. *)
Lemma words_join lines : words (join lines) = flat_map words lines.
Proof.
  induction lines as [|l [|l2 rest] IH]; [done| |].
  - simpl. by rewrite app_nil_r.
  - change (join (l :: l2 :: rest)) with (l ++ space :: join (l2 :: rest)).
    unfold words at 1. rewrite words_from_space by done.
    rewrite IH. done.
Qed.

Lemma words_concat cs : safe cs → words (concat cs) = flat_map words cs.
Proof.
  induction cs as [|a cs IH]; [done|]. simpl. intros [Ha Hs].
  by rewrite words_app, IH.
Qed.

Lemma safe_app_l l1 l2 : safe (l1 ++ l2) → safe l1.
Proof.
  induction l1 as [|a l1 IH]; [done|]. simpl. intros [Ha Hs]. split; [|by apply IH].
  rewrite concat_app in Ha. by apply apart_app_r in Ha.
Qed.

Lemma safe_app_r l1 l2 : safe (l1 ++ l2) → safe l2.
Proof. induction l1 as [|a l1 IH]; [done|]. simpl. intros [_ Hs]. by apply IH. Qed.


(** *** Lines from chunks *)

Lemma fill_app width chunks : ∀ cur_len line rest,
  fill width cur_len chunks = (line, rest) → chunks = line ++ rest.
Proof.
  induction chunks as [|c chunks IH]; intros cur_len line rest Hf; simpl in Hf.
  - by simplify_eq.
  - destruct (cur_len + strlen c <=? width); [|by simplify_eq].
    destruct (fill width (cur_len + strlen c) chunks) as [l r] eqn:Hrec.
    simplify_eq. simpl. f_equal. by eapply IH.
Qed.

Lemma fill_first width c chunks :
  (fill width 0 (c :: chunks)).1 = [] → width < strlen c.
Proof.
  simpl. destruct (Z.leb_spec (0 + strlen c) width) as [?|?]; [|lia].
  by destruct (fill width (0 + strlen c) chunks).
Qed.

Lemma drop_last_blank_parts line :
  ∃ d, line = drop_last_blank line ++ d ∧ Forall (fun c => blank c = true) d.
Proof.
  unfold drop_last_blank. destruct (last line) as [c|] eqn:Hl.
  - destruct (blank c) eqn:Hb.
    + apply last_Some in Hl as [l' ->]. exists [c].
      rewrite removelast_last. split; [done|]. by constructor.
    + exists []. by rewrite app_nil_r.
  - exists []. by rewrite app_nil_r.
Qed.

(** One pass takes the chunks of the line from the head of the chunks,
    leaving out a blank chunk before them and one after them at most, and
    takes one chunk at least. *)
Lemma wrap_line_parts width started chunks cur_line chunks' :
  wrap_line width started chunks = (cur_line, chunks') →
  ∃ d1 d2,
    chunks = d1 ++ cur_line ++ d2 ++ chunks' ∧
    Forall (fun c => blank c = true) d1 ∧
    Forall (fun c => blank c = true) d2 ∧
    (chunks ≠ [] → (length chunks' < length chunks)%nat).
Proof.
  unfold wrap_line.
  remember (match chunks with
            | c :: rest => if blank c && started then rest else chunks
            | [] => chunks
            end) as chunks1 eqn:Hc1.
  assert (H1 : ∃ d1, chunks = d1 ++ chunks1 ∧ Forall (fun c => blank c = true) d1 ∧
                     (d1 = [] ∨ (length chunks1 < length chunks)%nat)).
  { subst chunks1. destruct chunks as [|c rest]; [exists []; auto|].
    destruct (blank c) eqn:Hb, started; simpl;
      try (exists []; by auto).
    exists [c]. split_and!; [done|by constructor|right; simpl; lia]. }
  clear Hc1. destruct H1 as (d1 & Hc & Hd1 & Hlen1).
  destruct (fill width 0 chunks1) as [line rest] eqn:Hf.
  pose proof (fill_app _ _ _ _ _ Hf) as Happ.
  set (p := match rest with
            | c :: r => if width <? strlen c
                        then match line with [] => ([c], r) | _ => (line, rest) end
                        else (line, rest)
            | [] => (line, rest)
            end).
  assert (H2 : chunks1 = p.1 ++ p.2 ∧ (chunks1 ≠ [] → (length p.2 < length chunks1)%nat)).
  { subst p. destruct rest as [|c r].
    - simpl. rewrite app_nil_r in Happ. subst line. rewrite app_nil_r.
      split; [done|]. intros Hne. destruct chunks1; [done|simpl; lia].
    - destruct (Z.ltb_spec width (strlen c)) as [Hlong|Hfit].
      + destruct line as [|l0 line]; simpl.
        * split; [done|]. intros _. rewrite Happ. simpl. lia.
        * split; [done|]. intros _. rewrite Happ. simpl. rewrite length_app. simpl. lia.
      + simpl. split; [done|]. intros _.
        destruct line as [|l0 line].
        * exfalso. simpl in Happ. subst chunks1.
          pose proof (fill_first width c r) as Hff. rewrite Hf in Hff.
          specialize (Hff eq_refl). lia.
        * rewrite Happ. simpl. rewrite length_app. simpl. lia. }
  destruct p as [line2 rest2]. destruct H2 as [Hp Hlen2]. simpl in *.
  intros [= <- <-].
  destruct (drop_last_blank_parts line2) as (d2 & Hd & Hd2).
  exists d1, d2. split_and!; [|done|done|].
  - rewrite Hc, Hp. rewrite Hd at 1. by rewrite <- !app_assoc.
  - intros Hne. destruct Hlen1 as [->|Hl].
    + simpl in Hc. subst chunks1. by apply Hlen2.
    + destruct chunks1 as [|c1 r1] eqn:Hch.
      * destruct line2, rest2; simpl in *; try done; lia.
      * assert (length rest2 < length (c1 :: r1))%nat by (by apply Hlen2). lia.
Qed.

Lemma flat_map_words_blank d :
  Forall (fun c => blank c = true) d → flat_map words d = [].
Proof.
  induction 1 as [|c d Hc _ IH]; [done|]. simpl. by rewrite words_blank, IH.
Qed.

Lemma nonspace_concat_blank d :
  Forall (fun c => blank c = true) d → nonspace (concat d) = [].
Proof.
  induction 1 as [|c d Hc _ IH]; [done|]. simpl.
  by rewrite nonspace_app, nonspace_blank, IH.
Qed.

(** The lines hold the characters of the chunks, whitespace apart. *)
Lemma wrap_chunks_nonspace width fuel : ∀ lines chunks,
  (length chunks ≤ fuel)%nat →
  nonspace (concat (wrap_chunks fuel width lines chunks)) =
  nonspace (concat lines) ++ nonspace (concat chunks).
Proof.
  induction fuel as [|fuel IH]; intros lines chunks Hlen.
  - destruct chunks; [|simpl in Hlen; lia]. simpl. by rewrite app_nil_r.
  - cbn [wrap_chunks]. destruct chunks as [|c0 chunks0] eqn:Hch.
    { simpl. by rewrite app_nil_r. }
    rewrite <- Hch in *.
    destruct (wrap_line width _ chunks) as [cur_line chunks'] eqn:Hw.
    destruct (wrap_line_parts _ _ _ _ _ Hw) as (d1 & d2 & Hparts & Hd1 & Hd2 & Hprog).
    assert (Hne : chunks ≠ []) by (by rewrite Hch).
    specialize (Hprog Hne).
    rewrite IH by lia.
    rewrite Hparts.
    rewrite !concat_app, !nonspace_app.
    rewrite (nonspace_concat_blank d1), (nonspace_concat_blank d2) by done.
    simpl. destruct cur_line as [|l0 cur_line].
    + done.
    + rewrite concat_app, nonspace_app. simpl. rewrite app_nil_r.
      by rewrite <- app_assoc.
Qed.

(** If no chunk runs into the next, the words of the lines are the words
    of the chunks. *)
Lemma wrap_chunks_words width fuel : ∀ lines chunks,
  (length chunks ≤ fuel)%nat →
  safe chunks →
  flat_map words (wrap_chunks fuel width lines chunks) =
  flat_map words lines ++ flat_map words chunks.
Proof.
  induction fuel as [|fuel IH]; intros lines chunks Hlen Hsafe.
  - destruct chunks; [|simpl in Hlen; lia]. simpl. by rewrite app_nil_r.
  - cbn [wrap_chunks]. destruct chunks as [|c0 chunks0] eqn:Hch.
    { simpl. by rewrite app_nil_r. }
    rewrite <- Hch in *.
    destruct (wrap_line width _ chunks) as [cur_line chunks'] eqn:Hw.
    destruct (wrap_line_parts _ _ _ _ _ Hw) as (d1 & d2 & Hparts & Hd1 & Hd2 & Hprog).
    assert (Hne : chunks ≠ []) by (by rewrite Hch).
    specialize (Hprog Hne).
    rewrite Hparts in Hsafe.
    assert (Hs1 : safe cur_line).
    { by apply safe_app_r, safe_app_l in Hsafe. }
    assert (Hs2 : safe chunks').
    { by do 3 apply safe_app_r in Hsafe. }
    rewrite IH by (done || lia).
    rewrite Hparts.
    rewrite !flat_map_app.
    rewrite (flat_map_words_blank d1), (flat_map_words_blank d2) by done.
    simpl. destruct cur_line as [|l0 cur_line].
    + done.
    + rewrite flat_map_app. cbn [flat_map]. rewrite app_nil_r.
      rewrite (words_concat (l0 :: cur_line)) by done.
      by rewrite <- app_assoc.
Qed.


(** *** Chunks *)

Lemma run_take (p : ascii → bool) s : Forall (fun c => p c = true) (take (run p s) s).
Proof.
  induction s as [|c s IH]; simpl; [constructor|].
  destruct (p c) eqn:Hp; simpl; by constructor.
Qed.

Lemma run_drop (p : ascii → bool) s :
  match drop (run p s) s with [] => True | c :: _ => p c = false end.
Proof.
  induction s as [|c s IH]; simpl; [done|].
  destruct (p c) eqn:Hp; simpl; done.
Qed.

Lemma emdash_ge s n : emdash s = Some n → (2 ≤ n)%nat.
Proof.
  unfold emdash. destruct (drop _ s) as [|c r]; [done|].
  destruct (Nat.leb_spec 2 (run is_hyphen s)); simpl; [|done].
  destruct (is_word c); [|done]. intros [= <-]. done.
Qed.

Lemma chunk_len_pos prev c rest : (1 ≤ chunk_len prev (c :: rest))%nat.
Proof.
  unfold chunk_len. destruct (is_ws c) eqn:Hws.
  - simpl. rewrite Hws. lia.
  - destruct (if match prev with p :: _ => is_word_punct p | [] => false end
              then emdash (c :: rest) else None) as [n|] eqn:He; [|lia].
    destruct (match prev with p :: _ => is_word_punct p | [] => false end); [|done].
    apply emdash_ge in He. lia.
Qed.

(** The chunks, put together, are the text. *)
Lemma split_from_concat fuel : ∀ prev rest,
  (length rest ≤ fuel)%nat → concat (split_from fuel prev rest) = rest.
Proof.
  induction fuel as [|fuel IH]; intros prev rest Hlen.
  - by destruct rest; [|simpl in Hlen; lia].
  - destruct rest as [|c rest]; [done|].
    cbn [split_from concat].
    pose proof (chunk_len_pos prev c rest) as Hpos.
    rewrite IH; [by rewrite take_drop|].
    rewrite length_drop. simpl in *. lia.
Qed.

Lemma split_concat text : concat (split text) = text.
Proof. by apply split_from_concat. Qed.

Lemma emdash_plain s : plain s → emdash s = None.
Proof.
  intros Hp. unfold emdash.
  assert (run is_hyphen s = 0%nat) as ->.
  { destruct Hp as [|c s Hc _]; [done|]. simpl. by rewrite Hc. }
  by destruct (drop 0 s).
Qed.

Lemma word_more_plain rest : ∀ prev,
  plain rest → word_more prev rest = run (fun c => negb (is_ws c)) rest.
Proof.
  induction rest as [|c rest IH]; intros prev Hp; [done|].
  cbn [word_more run]. inversion Hp as [|? ? Hc Hrest]; subst.
  rewrite Hc. cbn [andb].
  destruct (is_ws c); [done|]. simpl negb. cbv iota.
  rewrite emdash_plain by done. rewrite andb_false_r. by rewrite IH.
Qed.

Lemma chunk_apart prev rest :
  plain rest →
  apart (take (chunk_len prev rest) rest) (drop (chunk_len prev rest) rest) = true.
Proof.
  intros Hp. destruct rest as [|c rest]; [done|].
  unfold chunk_len. destruct (is_ws c) eqn:Hws.
  - unfold apart. apply orb_true_iff. left.
    pose proof (run_take is_ws (c :: rest)) as Hall.
    destruct (last (take (run is_ws (c :: rest)) (c :: rest))) as [x|] eqn:Hl; [|done].
    apply last_Some in Hl as [l' Hl]. rewrite Hl in Hall.
    apply Forall_app in Hall as [_ Hx]. inversion Hx; subst.
    by apply is_ws_isspace.
  - rewrite emdash_plain by done.
    assert ((if match prev with p :: _ => is_word_punct p | [] => false end
             then @None nat else None) = None) as ->.
    { by destruct prev as [|p ?]; [|destruct (is_word_punct p)]. }
    inversion Hp as [|? ? Hc Hrest]; subst.
    rewrite word_more_plain by done.
    unfold apart. apply orb_true_iff. right. cbn [drop].
    pose proof (run_drop (fun c => negb (is_ws c)) rest) as Hd.
    destruct (drop _ rest) as [|x r]; [done|].
    apply negb_false_iff in Hd. by apply is_ws_isspace.
Qed.

Lemma split_from_safe fuel : ∀ prev rest,
  (length rest ≤ fuel)%nat → plain rest → safe (split_from fuel prev rest).
Proof.
  induction fuel as [|fuel IH]; intros prev rest Hlen Hp; [done|].
  destruct rest as [|c rest]; [done|].
  cbn [split_from safe].
  pose proof (chunk_len_pos prev c rest) as Hpos.
  assert (Hl : (length (drop (chunk_len prev (c :: rest)) (c :: rest)) ≤ fuel)%nat).
  { rewrite length_drop. simpl in *. lia. }
  split.
  - rewrite split_from_concat by done. by apply chunk_apart.
  - apply IH; [done|]. by apply Forall_drop.
Qed.

(** *** Tabs *)

Lemma tab_width col : ∃ k, (8 - col mod 8 = S k)%nat.
Proof.
  pose proof (Nat.mod_upper_bound col 8). exists (7 - col mod 8)%nat. lia.
Qed.

Lemma nonspace_spaces n : nonspace (replicate n space) = [].
Proof. induction n; [done|]. simpl. done. Qed.

Lemma words_spaces n s : words (replicate n space ++ s) = words s.
Proof. induction n; [done|]. simpl. by rewrite words_space. Qed.

Lemma expandtabs_nonspace s : ∀ col, nonspace (expandtabs_from col s) = nonspace s.
Proof.
  induction s as [|c s IH]; intros col; [done|]. cbn [expandtabs_from].
  destruct (is_code 9 c) eqn:Htab.
  - rewrite nonspace_app, nonspace_spaces, IH. simpl.
    by rewrite (isspace_tab c Htab).
  - destruct (is_code 10 c || is_code 13 c); simpl; by rewrite IH.
Qed.

Lemma expandtabs_words s : ∀ col cur,
  words_from cur (expandtabs_from col s) = words_from cur s.
Proof.
  induction s as [|c s IH]; intros col cur; [done|]. cbn [expandtabs_from].
  destruct (is_code 9 c) eqn:Htab.
  - destruct (tab_width col) as [k ->].
    change (replicate (S k) space ++ ?x) with ([] ++ space :: (replicate k space ++ x)).
    rewrite words_from_space by done.
    rewrite words_spaces. unfold words at 1. rewrite IH.
    change (c :: s) with ([] ++ c :: s).
    rewrite words_from_space by (by apply isspace_tab). done.
  - destruct (is_code 10 c || is_code 13 c); simpl;
      destruct (isspace c); [destruct cur|..| destruct cur|]; by rewrite ?IH.
Qed.

Lemma expandtabs_plain s : ∀ col, plain s → plain (expandtabs_from col s).
Proof.
  induction s as [|c s IH]; intros col Hp; [done|]. cbn [expandtabs_from].
  inversion Hp as [|? ? Hc Hs]; subst.
  destruct (is_code 9 c).
  - apply Forall_app. split; [|by apply IH].
    apply Forall_replicate. reflexivity.
  - destruct (is_code 10 c || is_code 13 c); (constructor; [done|by apply IH]).
Qed.

(** *** Lines *)

Lemma splitlines_from_words n : ∀ s cur,
  (length s ≤ n)%nat → flat_map words (splitlines_from cur s) = words (cur ++ s).
Proof.
  induction n as [|n IH]; intros s cur Hlen.
  - destruct s; [|simpl in Hlen; lia]. rewrite app_nil_r. simpl.
    destruct cur; [done|]. simpl. by rewrite app_nil_r.
  - destruct s as [|c r].
    { rewrite app_nil_r. simpl. destruct cur; [done|]. simpl. by rewrite app_nil_r. }
    cbn [splitlines_from]. simpl in Hlen.
    destruct (is_linebreak c) eqn:Hb.
    + unfold words at 2. rewrite words_from_space by (by apply is_linebreak_isspace).
      cbn [flat_map]. f_equal.
      destruct r as [|c2 r2]; [done|].
      destruct (is_code 13 c && is_code 10 c2) eqn:Hcrlf.
      * rewrite IH by (simpl in Hlen; lia). simpl.
        apply andb_true_iff in Hcrlf as [_ Hlf].
        rewrite words_space; [done|]. revert Hlf. chars. lia.
      * rewrite IH by lia. done.
    + rewrite IH by lia. by rewrite <- app_assoc.
Qed.

Lemma splitlines_from_nonspace n : ∀ s cur,
  (length s ≤ n)%nat → nonspace (concat (splitlines_from cur s)) = nonspace (cur ++ s).
Proof.
  induction n as [|n IH]; intros s cur Hlen.
  - destruct s; [|simpl in Hlen; lia]. rewrite app_nil_r. simpl.
    destruct cur; [done|]. simpl. by rewrite app_nil_r.
  - destruct s as [|c r].
    { rewrite app_nil_r. simpl. destruct cur; [done|]. simpl. by rewrite app_nil_r. }
    cbn [splitlines_from]. simpl in Hlen.
    destruct (is_linebreak c) eqn:Hb.
    + cbn [concat]. rewrite !nonspace_app. f_equal.
      simpl. rewrite (is_linebreak_isspace c Hb). simpl.
      destruct r as [|c2 r2]; [done|].
      destruct (is_code 13 c && is_code 10 c2) eqn:Hcrlf.
      * rewrite IH by (simpl in Hlen; lia). simpl.
        apply andb_true_iff in Hcrlf as [_ Hlf].
        assert (isspace c2 = true) as -> by (revert Hlf; chars; lia). done.
      * rewrite IH by lia. done.
    + rewrite IH by lia. by rewrite <- app_assoc.
Qed.

Lemma splitlines_from_plain n : ∀ s cur,
  (length s ≤ n)%nat → plain cur → plain s → Forall plain (splitlines_from cur s).
Proof.
  induction n as [|n IH]; intros s cur Hlen Hcur Hs.
  - destruct s; [|simpl in Hlen; lia]. simpl. destruct cur; [by constructor|constructor; [done|by constructor]].
  - destruct s as [|c r].
    { simpl. destruct cur; [by constructor|constructor; [done|by constructor]]. }
    cbn [splitlines_from]. simpl in Hlen.
    inversion Hs as [|? ? Hc Hr]; subst.
    destruct (is_linebreak c) eqn:Hb.
    + constructor; [done|].
      destruct r as [|c2 r2]; [constructor|].
      inversion Hr; subst.
      destruct (is_code 13 c && is_code 10 c2).
      * apply IH; [simpl in Hlen; lia|constructor|done].
      * apply IH; [lia|constructor|done].
    + apply IH; [lia| |done]. apply Forall_app. split; [done|]. by constructor.
Qed.


(** *** [textwrap.wrap] and [splitcell] *)

Lemma wrap_nonspace text width : nonspace (concat (wrap text width)) = nonspace text.
Proof.
  unfold wrap. rewrite wrap_chunks_nonspace by done. simpl.
  rewrite split_concat. apply expandtabs_nonspace.
Qed.

Lemma wrap_words text width : plain text → flat_map words (wrap text width) = words text.
Proof.
  intros Hp. unfold wrap.
  assert (Hs : safe (split (expandtabs text))).
  { apply split_from_safe; [done|]. by apply expandtabs_plain. }
  rewrite wrap_chunks_words by done. simpl.
  rewrite <- words_concat by done. rewrite split_concat.
  apply expandtabs_words.
Qed.

(** C9, amended.  With wrapping disabled or a width that is not positive,
    [splitcell] returns the string as its one line, untouched.  With
    wrapping enabled and a positive width, the lines hold the characters
    of the string in order, whitespace apart: none but whitespace is lost,
    none is added; and if the string has no hyphen, no word is broken:
    the lines, joined by spaces and split into words, give the words of
    the string. *)
Theorem splitcell_wrapping (textwrap_cells : bool) (s : str) (width : Z) :
  (width ≤ 0 ∨ textwrap_cells = false → splitcell textwrap_cells s width = [s]) ∧
  (0 < width → textwrap_cells = true →
     nonspace (concat (splitcell textwrap_cells s width)) = nonspace s ∧
     (plain s → words (join (splitcell textwrap_cells s width)) = words s)).
Proof.
  unfold splitcell. split.
  - intros [Hw| ->].
    + by destruct (Z.leb_spec width 0) as [_|?]; [|lia].
    + by rewrite orb_true_r.
  - intros Hw ->. destruct (Z.leb_spec width 0) as [?|_]; [lia|]. simpl. split.
    + pose proof (splitlines_from_nonspace (length s) s [] (le_n _)) as Hl.
      cbn [app] in Hl. rewrite <- Hl. clear Hl.
      fold (splitlines s). induction (splitlines s) as [|L lines IH]; [done|].
      simpl. by rewrite !concat_app, !nonspace_app, wrap_nonspace, IH.
    + intros Hp. rewrite words_join.
      pose proof (splitlines_from_words (length s) s [] (le_n _)) as Hw'.
      cbn [app] in Hw'. rewrite <- Hw'. clear Hw'.
      pose proof (splitlines_from_plain (length s) s [] (le_n _) (Forall_nil_2 _) Hp) as Hl.
      fold (splitlines s) in *. induction Hl as [|L lines HL _ IH]; [done|].
      simpl. by rewrite flat_map_app, wrap_words, IH.
Qed.

Import Fixtures.

Lemma splitcell_wrapping_witness :
  splitcell false two_words 5 = [two_words] ∧
  splitcell true two_words 0 = [two_words] ∧
  nonspace (concat (splitcell true two_words 5)) = nonspace two_words ∧
  words (join (splitcell true two_words 5)) = words two_words.
Proof.
  destruct (splitcell_wrapping false two_words 5) as [Hoff _].
  destruct (splitcell_wrapping true two_words 0) as [Hzero _].
  destruct (splitcell_wrapping true two_words 5) as [_ Hon].
  destruct Hon as [Hchars Hwords]; [lia|reflexivity|].
  split_and!.
  - apply Hoff. by right.
  - apply Hzero. left. lia.
  - exact Hchars.
  - apply Hwords. unfold plain. vm_compute. repeat constructor.
Defined.

(** C9 as stated fails.  [textwrap.wrap] is called with
    [break_long_words=False], but [break_on_hyphens] is left on: at width 3
    the word [ab-cd] is broken after its hyphen, and the lines joined give
    two words where the string has one. *)
Lemma splitcell_breaks_hyphenated_word :
  splitcell true hyphenated 3 = [list_ascii_of_string "ab-"; list_ascii_of_string "cd"] ∧
  words hyphenated = [hyphenated] ∧
  words (join (splitcell true hyphenated 3)) =
    [list_ascii_of_string "ab-"; list_ascii_of_string "cd"] ∧
  words (join (splitcell true hyphenated 3)) ≠ words hyphenated.
Proof. split_and!; [reflexivity..|]. vm_compute. discriminate. Qed.

End WrapFacts.

(** ** The column layout: which columns it holds, and where *)

Module LayoutGeometry.
Import Py Sheets LayoutFacts.

Section Facts.
Context {Row : Type}.
Variable getMaxWidth : Column -> list Row -> Z.
Variable options : Options.

Local Abbreviation body := (calcColLayout_body getMaxWidth options).
Local Abbreviation loop := (calcColLayout_loop getMaxWidth options).
Local Abbreviation calcColLayout := (calcColLayout getMaxWidth options).

(** An index the loop put into the layout is one it went through, of a
    column that is a key column or not left of the left offset. *)
Lemma loop_keys_only (s : Sheet Row) kcols nvis vrows vcols :
  ∀ i h layout x last h' layout' x' last',
    loop s kcols nvis vrows vcols i (h, layout, x) last = (h', layout', x', last') →
    ∀ j, is_Some (layout' !! j) →
      is_Some (layout !! j) ∨
      (i ≤ j ≤ last' ∧
       ∃ c, vcols !! Z.to_nat (j - i) = Some c ∧
            col_in c kcols || (leftVisibleColIndex s <=? j) = true).
Proof.
  induction vcols as [|c rest IH]; intros i h layout x last h' layout' x' last' Hrun j Hj.
  - simpl in Hrun. simplify_eq. by left.
  - pose proof Hrun as Hrun0.
    rewrite loop_cons in Hrun. cbv zeta in Hrun.
    destruct (body_layout getMaxWidth options s kcols nvis vrows i c h layout x)
      as (h1 & w & Hb).
    rewrite Hb in Hrun. clear Hb.
    destruct (loop_keys _ _ _ _ _ _ _ _ _ _ _ _ _ _ _ _ Hrun0) as (_ & _ & Hlast).
    assert (Hi : i ≤ last') by (destruct Hlast as [[? _]|?]; [done|lia]).
    assert (Hins : ∀ p : Z * Z, col_in c kcols || (leftVisibleColIndex s <=? i) = true →
              is_Some (<[i := p]> layout !! j) →
              is_Some (layout !! j) ∨
              (i ≤ j ≤ last' ∧
               ∃ c0, (c :: rest) !! Z.to_nat (j - i) = Some c0 ∧
                     col_in c0 kcols || (leftVisibleColIndex s <=? j) = true)).
    { intros p Hst. destruct (decide (i = j)) as [->|Hne].
      - intros _. right. split; [lia|]. exists c. by rewrite Z.sub_diag.
      - rewrite lookup_insert_ne by done. by left. }
    assert (Hrec : ∀ l0 : gmap Z (Z * Z),
              (is_Some (l0 !! j) →
               is_Some (layout !! j) ∨
               (i ≤ j ≤ last' ∧
                ∃ c0, (c :: rest) !! Z.to_nat (j - i) = Some c0 ∧
                      col_in c0 kcols || (leftVisibleColIndex s <=? j) = true)) →
              is_Some (l0 !! j) ∨
              (i + 1 ≤ j ≤ last' ∧
               ∃ c0, rest !! Z.to_nat (j - (i + 1)) = Some c0 ∧
                     col_in c0 kcols || (leftVisibleColIndex s <=? j) = true) →
              is_Some (layout !! j) ∨
              (i ≤ j ≤ last' ∧
               ∃ c0, (c :: rest) !! Z.to_nat (j - i) = Some c0 ∧
                     col_in c0 kcols || (leftVisibleColIndex s <=? j) = true)).
    { intros l0 H0 [Hl|(Hr & c0 & Hc0 & Hst)]; [by apply H0|].
      right. split; [lia|]. exists c0. split; [|done].
      replace (Z.to_nat (j - i)) with (S (Z.to_nat (j - (i + 1)))) by lia. done. }
    destruct (col_in c kcols || (leftVisibleColIndex s <=? i)) eqn:Hs;
      cbn [snd] in Hrun;
      match type of Hrun with (if ?b then _ else _) = _ => destruct b eqn:Hbrk end.
    + injection Hrun as <- <- <- <-. by eapply Hins.
    + eapply Hrec; [by apply Hins|]. by eapply IH.
    + injection Hrun as <- <- <- <-. by left.
    + eapply (Hrec layout); [tauto|]. by eapply IH.
Qed.

(** X7: the keys of the layout [calcColLayout] builds are the indexes, up to
    [rightVisibleColIndex], of the visible columns that are key columns or
    are not left of [leftVisibleColIndex]; and [rightVisibleColIndex] is the
    index of a visible column (0 if there is none). *)
Theorem calcColLayout_keys (h : Heap) (s : Sheet Row) :
  let s' := (calcColLayout h s).2 in
  (∀ j, is_Some (visibleColLayout s' !! j) ↔
        0 ≤ j ≤ rightVisibleColIndex s' ∧
        ∃ c, visibleCols h s !! Z.to_nat j = Some c ∧
             (c ∈ keyCols h s ∨ leftVisibleColIndex s ≤ j)) ∧
  0 ≤ rightVisibleColIndex s' < Z.max (nVisibleCols h s) 1.
Proof.
  unfold Sheets.calcColLayout.
  destruct (loop s (keyCols h s) (nVisibleCols h s) (visibleRows h s)
              (visibleCols h s) 0 (h, ∅, 0) 0) as [[[h1 layout] x1] last] eqn:Hrun.
  cbn [snd set_colLayout visibleColLayout rightVisibleColIndex].
  destruct (loop_keys _ _ _ _ _ _ _ _ _ _ _ _ _ _ _ _ Hrun) as (_ & Hkeys & Hlast).
  assert (Hst : ∀ c j, col_in c (keyCols h s) || (leftVisibleColIndex s <=? j) = true ↔
                       c ∈ keyCols h s ∨ leftVisibleColIndex s ≤ j).
  { intros c j. unfold col_in.
    rewrite orb_true_iff, bool_decide_eq_true, Z.leb_le. done. }
  split.
  - intros j. split.
    + intros Hj.
      destruct (loop_keys_only _ _ _ _ _ _ _ _ _ _ _ _ _ _ Hrun j Hj)
        as [Hin|(Hr & c & Hc & Hs)].
      { rewrite lookup_empty in Hin. by destruct Hin. }
      split; [lia|]. exists c. rewrite Z.sub_0_r in Hc. split; [done|]. by apply Hst.
    + intros (Hr & c & Hc & Hs).
      specialize (Hkeys _ _ Hc). rewrite Z.add_0_l, Z2Nat.id in Hkeys by lia.
      apply Hkeys; [lia|]. by apply Hst.
  - unfold nVisibleCols, len. destruct Hlast as [[-> ->]|?]; simpl; lia.
Qed.

(** *** Where the entries lie *)

(** No column has a negative width, and [Column.getMaxWidth] and
    [options.default_width] give none. *)
Hypothesis getMaxWidth_nonneg : ∀ c rows, 0 ≤ getMaxWidth c rows.
Hypothesis default_width_nonneg : 0 ≤ default_width options.

Local Abbreviation widths_nonneg h := (∀ (c : ref) w, width (h !!! c) = Some w → 0 ≤ w).

(** What the loop keeps, at the head of the pass for the index [i]: [x]
    is inside the window; every entry has an index below [i], lies inside
    the window and ends, separator included, at or before [x]; the entries
    are in the order of their indexes, none overlapping the next. *)
Local Abbreviation inside s p :=
  (0 ≤ p.1 ∧ 0 ≤ p.2 ∧ p.1 + p.2 ≤ windowWidth s).
Local Abbreviation ordered layout :=
  (∀ i1 i2 (p1 p2 : Z * Z), (layout : gmap Z (Z * Z)) !! i1 = Some p1 →
     (layout : gmap Z (Z * Z)) !! i2 = Some p2 → i1 < i2 →
     p1.1 + p1.2 + sepColWidth options ≤ p2.1).
Local Abbreviation keeps s i layout x :=
  (0 ≤ x ∧
   (∀ j (p : Z * Z), (layout : gmap Z (Z * Z)) !! j = Some p →
      j < i ∧ inside s p ∧ p.1 + p.2 + sepColWidth options ≤ x) ∧
   ordered layout).

Lemma sepColWidth_nonneg : 0 ≤ sepColWidth options.
Proof. unfold sepColWidth. lia. Qed.

(** One pass through the body: the width it lays the column out with is
    not negative, and at least 1 for a key column. *)
Lemma body_width (s : Sheet Row) kcols nvis vrows i c h layout x :
  widths_nonneg h →
  ∃ h1 w,
    body s kcols nvis vrows i c (h, layout, x) =
      (if col_in c kcols || (leftVisibleColIndex s <=? i)
       then (h1, <[i := (x, Z.min w (windowWidth s - x))]> layout,
             x + w + sepColWidth options)
       else (h1, layout, x)) ∧
    0 ≤ w ∧ (col_in c kcols = true → 1 ≤ w) ∧ widths_nonneg h1.
Proof.
  intros Hh. unfold calcColLayout_body.
  match goal with |- context [match ?w0 with None => ?a | Some _ => ?b end] =>
    set (h1 := match w0 with None => a | Some _ => b end) end.
  assert (Hh1 : widths_nonneg h1).
  { subst h1. destruct (width (h !!! c)) eqn:Hw; [done|].
    destruct (0 <? len vrows); [|done].
    intros r w. destruct (decide (c = r)) as [->|Hne].
    - rewrite lookup_total_insert_eq. cbn. intros [= <-].
      pose proof (getMaxWidth_nonneg (h !!! r) vrows).
      assert (0 ≤ minColWidth options) by (unfold minColWidth; lia).
      destruct (i =? nvis - 1); lia.
    - rewrite lookup_total_insert_ne by done. apply Hh. }
  exists h1. eexists. split; [reflexivity|].
  assert (Hw : 0 ≤ match width (h1 !!! c) with
                   | Some w => w
                   | None => default_width options
                   end).
  { destruct (width (h1 !!! c)) eqn:Hw; [by eapply Hh1|done]. }
  split_and!; [|intros ->|done].
  - destruct (col_in c kcols); lia.
  - lia.
Qed.

Lemma loop_geometry (s : Sheet Row) kcols nvis vrows vcols :
  1 ≤ windowWidth s →
  ∀ i h layout x last h' layout' x' last',
    loop s kcols nvis vrows vcols i (h, layout, x) last = (h', layout', x', last') →
    widths_nonneg h →
    x ≤ windowWidth s - 1 →
    keeps s i layout x →
    (∀ j p, layout' !! j = Some p → inside s p) ∧
    ordered layout' ∧
    (∀ j p, layout' !! j = Some p →
       layout !! j = Some p ∨
       (i ≤ j ∧ ∀ c, vcols !! Z.to_nat (j - i) = Some c → col_in c kcols = true → 1 ≤ p.2)).
Proof.
  intros HW.
  induction vcols as [|c rest IH];
    intros i h layout x last h' layout' x' last' Hrun Hh Hx (Hx0 & Hin & Hord).
  - simpl in Hrun. simplify_eq. split_and!; [|done|by left].
    intros j p Hj. by apply Hin in Hj as (_ & ? & _).
  - rewrite loop_cons in Hrun. cbv zeta in Hrun.
    destruct (body_width s kcols nvis vrows i c h layout x Hh)
      as (h1 & w & Hb & Hw0 & Hw1 & Hh1).
    rewrite Hb in Hrun. clear Hb.
    pose proof sepColWidth_nonneg as Hsep.
    set (e := (x, Z.min w (windowWidth s - x))) in *.
    (* the state after the body keeps the invariant, for the index [i + 1] *)
    assert (Hstored : keeps s (i + 1) (<[i := e]> layout) (x + w + sepColWidth options)).
    { split_and!; [lia| |].
      - intros j p. destruct (decide (i = j)) as [->|Hne].
        + rewrite lookup_insert_eq. intros [= <-]. subst e. cbn. lia.
        + rewrite lookup_insert_ne by done. intros Hj.
          apply Hin in Hj as (? & (? & ? & ?) & ?). split_and!; lia.
      - intros i1 i2 p1 p2.
        destruct (decide (i = i1)) as [E1|Hne1]; destruct (decide (i = i2)) as [E2|Hne2];
          try subst i1; try subst i2.
        + lia.
        + intros _ H2 ?. rewrite lookup_insert_ne in H2 by done.
          apply Hin in H2 as (? & _). lia.
        + intros H1 H2 _. rewrite lookup_insert_ne in H1 by done.
          rewrite lookup_insert_eq in H2. injection H2 as <-.
          apply Hin in H1 as (_ & _ & ?). subst e. cbn. lia.
        + rewrite !lookup_insert_ne by done. apply Hord. }
    assert (Hskipped : keeps s (i + 1) layout x).
    { split_and!; [done| |done].
      intros j p Hj. apply Hin in Hj as (? & (? & ? & ?) & ?). split_and!; lia. }
    assert (Hnew : ∀ j p, <[i := e]> layout !! j = Some p →
              layout !! j = Some p ∨
              (i ≤ j ∧ ∀ c0, (c :: rest) !! Z.to_nat (j - i) = Some c0 →
                             col_in c0 kcols = true → 1 ≤ p.2)).
    { intros j p. destruct (decide (i = j)) as [->|Hne].
      - rewrite lookup_insert_eq. intros [= <-]. right. split; [lia|].
        rewrite Z.sub_diag. intros c0 [= <-] Hk. specialize (Hw1 Hk). subst e. cbn. lia.
      - rewrite lookup_insert_ne by done. by left. }
    assert (Hlater : ∀ (l0 : gmap Z (Z * Z)) j p,
              (l0 !! j = Some p →
               layout !! j = Some p ∨
               (i ≤ j ∧ ∀ c0, (c :: rest) !! Z.to_nat (j - i) = Some c0 →
                              col_in c0 kcols = true → 1 ≤ p.2)) →
              l0 !! j = Some p ∨
              (i + 1 ≤ j ∧ ∀ c0, rest !! Z.to_nat (j - (i + 1)) = Some c0 →
                                 col_in c0 kcols = true → 1 ≤ p.2) →
              layout !! j = Some p ∨
              (i ≤ j ∧ ∀ c0, (c :: rest) !! Z.to_nat (j - i) = Some c0 →
                             col_in c0 kcols = true → 1 ≤ p.2)).
    { intros l0 j p H0 [Hl|[Hr Hk]]; [by apply H0|].
      right. split; [lia|]. intros c0.
      replace (Z.to_nat (j - i)) with (S (Z.to_nat (j - (i + 1)))) by lia. apply Hk. }
    destruct (col_in c kcols || (leftVisibleColIndex s <=? i)) eqn:Hs;
      cbn [snd] in Hrun;
      match type of Hrun with (if ?b then _ else _) = _ =>
        destruct b eqn:Hbrk; [apply Z.ltb_lt in Hbrk|apply Z.ltb_ge in Hbrk] end.
    + injection Hrun as <- <- <- <-. destruct Hstored as (_ & Hin1 & Hord1).
      split_and!; [|done|done].
      intros j p Hj. by apply Hin1 in Hj as (_ & ? & _).
    + destruct (IH _ _ _ _ _ _ _ _ _ Hrun Hh1 Hbrk Hstored) as (H1 & H2 & H3).
      split_and!; [done|done|].
      intros j p Hj. eapply Hlater; [apply Hnew|]. by apply H3.
    + injection Hrun as <- <- <- <-.
      split_and!; [|done|by left].
      intros j p Hj. by apply Hin in Hj as (_ & ? & _).
    + destruct (IH _ _ _ _ _ _ _ _ _ Hrun Hh1 Hbrk Hskipped) as (H1 & H2 & H3).
      split_and!; [done|done|].
      intros j p Hj. eapply (Hlater layout); [tauto|]. by apply H3.
Qed.

(** X8: in a window at least 1 wide, with no negative column width, every
    entry [(x, w)] of the layout [calcColLayout] builds lies inside the
    window; a key column gets a width of 1 at least; and the entries
    follow each other in the order of their indexes, none reaching into
    the next, the separator between them. *)
Theorem calcColLayout_geometry (h : Heap) (s : Sheet Row) :
  1 ≤ windowWidth s →
  widths_nonneg h →
  let s' := (calcColLayout h s).2 in
  (∀ j x w, visibleColLayout s' !! j = Some (x, w) →
     0 ≤ x ∧ 0 ≤ w ∧ x + w ≤ windowWidth s) ∧
  (∀ j x w c, visibleColLayout s' !! j = Some (x, w) →
     visibleCols h s !! Z.to_nat j = Some c → c ∈ keyCols h s → 1 ≤ w) ∧
  (∀ i j xi wi xj wj,
     visibleColLayout s' !! i = Some (xi, wi) →
     visibleColLayout s' !! j = Some (xj, wj) →
     i < j → xi + wi + sepColWidth options ≤ xj).
Proof.
  intros HW Hh. unfold Sheets.calcColLayout.
  destruct (loop s (keyCols h s) (nVisibleCols h s) (visibleRows h s)
              (visibleCols h s) 0 (h, ∅, 0) 0) as [[[h1 layout] x1] last] eqn:Hrun.
  cbn [snd set_colLayout visibleColLayout].
  destruct (loop_geometry _ _ _ _ _ HW _ _ _ _ _ _ _ _ _ Hrun Hh) as (H1 & H2 & H3).
  { lia. }
  { split_and!; [done| |]; intros *; by rewrite lookup_empty. }
  split_and!.
  - intros j x w Hj. by apply H1 in Hj.
  - intros j x w c Hj Hc Hk. destruct (H3 _ _ Hj) as [Hin|[_ Hkey]].
    { by rewrite lookup_empty in Hin. }
    rewrite Z.sub_0_r in Hkey. apply (Hkey c Hc).
    unfold col_in. by apply bool_decide_eq_true_2.
  - intros i j xi wi xj wj Hi Hj Hlt. by apply (H2 _ _ _ _ Hi Hj Hlt).
Qed.

End Facts.

(** The theorem at the sheet [abc] in a window 30 wide. *)
Lemma calcColLayout_geometry_witness :
  let s' := (Sheets.calcColLayout Fixtures.maxw Fixtures.opts Fixtures.heap_abc
               (Fixtures.sheet_abc 30)).2 in
  (∀ j x w, visibleColLayout s' !! j = Some (x, w) → 0 ≤ x ∧ 0 ≤ w ∧ x + w ≤ 30) ∧
  (∀ j x w c, visibleColLayout s' !! j = Some (x, w) →
     visibleCols Fixtures.heap_abc (Fixtures.sheet_abc 30) !! Z.to_nat j = Some c →
     c ∈ keyCols Fixtures.heap_abc (Fixtures.sheet_abc 30) → 1 ≤ w) ∧
  (∀ i j xi wi xj wj,
     visibleColLayout s' !! i = Some (xi, wi) →
     visibleColLayout s' !! j = Some (xj, wj) →
     i < j → xi + wi + sepColWidth Fixtures.opts ≤ xj).
Proof.
  apply (calcColLayout_geometry Fixtures.maxw Fixtures.opts).
  - intros c rows. vm_compute. discriminate.
  - vm_compute. discriminate.
  - vm_compute. discriminate.
  - intros c w.
    destruct (decide (c = 0%nat)) as [->|?]; [vm_compute; intros [= <-]; discriminate|].
    destruct (decide (c = 1%nat)) as [->|?]; [vm_compute; intros [= <-]; discriminate|].
    destruct (decide (c = 2%nat)) as [->|?]; [vm_compute; discriminate|].
    unfold Fixtures.heap_abc. cbn [list_to_map foldr uncurry fst snd].
    rewrite !lookup_total_insert_ne by done. rewrite lookup_total_empty. discriminate.
Defined.

End LayoutGeometry.
(** ** The column layout: computing it twice *)

Module LayoutAgain.
Import Py Sheets LayoutFacts CursorFacts.

Section Facts.
Context {Row : Type}.
Variable getMaxWidth : Column -> list Row -> Z.
Variable options : Options.

Local Abbreviation body := (calcColLayout_body getMaxWidth options).
Local Abbreviation loop := (calcColLayout_loop getMaxWidth options).
Local Abbreviation calcColLayout := (calcColLayout getMaxWidth options).

(** The body reads the sheet for its left offset and its window width. *)
Lemma loop_sheet (s s' : Sheet Row) kcols nvis vrows vcols :
  leftVisibleColIndex s' = leftVisibleColIndex s →
  windowWidth s' = windowWidth s →
  ∀ i st last,
    loop s' kcols nvis vrows vcols i st last = loop s kcols nvis vrows vcols i st last.
Proof.
  intros Hl Hw. induction vcols as [|c rest IH]; intros i st last; [done|].
  rewrite !loop_cons. cbv zeta.
  assert (Hb : body s' kcols nvis vrows i c st = body s kcols nvis vrows i c st).
  { destruct st as [[h layout] x]. unfold calcColLayout_body. by rewrite Hl, Hw. }
  by rewrite Hb, Hw, IH.
Qed.

(** The body changes the width of its column at most, and only from
    "not computed yet", when there are rows on the screen. *)
Lemma body_heap (s : Sheet Row) kcols nvis vrows i c h layout x :
  let h1 := (body s kcols nvis vrows i c (h, layout, x)).1.1 in
  (∀ r, name (h1 !!! r) = name (h !!! r)) ∧
  (∀ r, width (h !!! r) ≠ None → width (h1 !!! r) = width (h !!! r)) ∧
  ((0 <? len vrows) = false → h1 = h) ∧
  (width (h1 !!! c) = None → (0 <? len vrows) = false).
Proof.
  unfold calcColLayout_body.
  match goal with |- context [match ?w0 with None => ?a | Some _ => ?b end] =>
    set (h1 := match w0 with None => a | Some _ => b end) end.
  assert (H : (∀ r, name (h1 !!! r) = name (h !!! r)) ∧
              (∀ r, width (h !!! r) ≠ None → width (h1 !!! r) = width (h !!! r)) ∧
              ((0 <? len vrows) = false → h1 = h) ∧
              (width (h1 !!! c) = None → (0 <? len vrows) = false)).
  { subst h1. destruct (width (h !!! c)) eqn:Hw.
    { split_and!; try done. by rewrite Hw. }
    destruct (0 <? len vrows) eqn:Hrows; [|done].
    split_and!.
    - intros r. destruct (decide (c = r)) as [->|Hne].
      + by rewrite lookup_total_insert_eq.
      + by rewrite lookup_total_insert_ne.
    - intros r Hr. destruct (decide (c = r)) as [->|Hne]; [congruence|].
      by rewrite lookup_total_insert_ne.
    - done.
    - by rewrite lookup_total_insert_eq. }
  by destruct (col_in c kcols || (leftVisibleColIndex s <=? i)).
Qed.

(** Run from a heap in which the column has the width the body left it
    with, the body changes nothing in the heap and lays the column out
    the same. *)
Lemma body_again (s : Sheet Row) kcols nvis vrows i c h layout x h2 :
  let st1 := body s kcols nvis vrows i c (h, layout, x) in
  width (h2 !!! c) = width (st1.1.1 !!! c) →
  body s kcols nvis vrows i c (h2, layout, x) = (h2, st1.1.2, st1.2).
Proof.
  intros st1 Hw2. subst st1. unfold calcColLayout_body in *.
  destruct (width (h !!! c)) as [w0|] eqn:Hw; [|destruct (0 <? len vrows) eqn:Hrows];
    destruct (col_in c kcols || (leftVisibleColIndex s <=? i)) eqn:Hs;
    cbn [fst snd] in *;
    rewrite ?lookup_total_insert_eq in *; cbn [width set_width] in *;
    rewrite ?Hw in *; rewrite Hw2; rewrite ?Hw2; rewrite ?Hrows; reflexivity.
Qed.

(** The loop changes widths at most, and no width that was computed. *)
Lemma loop_heap (s : Sheet Row) kcols nvis vrows vcols :
  ∀ i h layout x last,
    let h' := (loop s kcols nvis vrows vcols i (h, layout, x) last).1.1.1 in
    (∀ r, name (h' !!! r) = name (h !!! r)) ∧
    (∀ r, width (h !!! r) ≠ None → width (h' !!! r) = width (h !!! r)) ∧
    ((0 <? len vrows) = false → h' = h).
Proof.
  induction vcols as [|c rest IH]; intros i h layout x last; [done|].
  rewrite loop_cons. cbv zeta.
  destruct (body_heap s kcols nvis vrows i c h layout x) as (Hn & Hw & He & _).
  destruct (body s kcols nvis vrows i c (h, layout, x)) as [[h1 l1] x1].
  cbn [fst snd] in *. destruct (windowWidth s - 1 <? x1); [done|].
  destruct (IH (i + 1) h1 l1 x1 i) as (Hn' & Hw' & He').
  split_and!.
  - intros r. by rewrite Hn', Hn.
  - intros r Hr. rewrite Hw'; [by apply Hw|]. by rewrite Hw.
  - intros Hrows. by rewrite He', He.
Qed.

(** Run again from the heap it ended with, the loop ends with the same
    heap, the same layout and the same index. *)
Lemma loop_again (s : Sheet Row) kcols nvis vrows vcols :
  ∀ i h layout x last h' layout' x' last',
    loop s kcols nvis vrows vcols i (h, layout, x) last = (h', layout', x', last') →
    loop s kcols nvis vrows vcols i (h', layout, x) last = (h', layout', x', last').
Proof.
  induction vcols as [|c rest IH]; intros i h layout x last h' layout' x' last' Hrun.
  - simpl in *. by simplify_eq.
  - rewrite loop_cons in Hrun |- *. cbv zeta in *.
    pose proof (body_again s kcols nvis vrows i c h layout x h') as Hb.
    destruct (body_heap s kcols nvis vrows i c h layout x) as (_ & _ & _ & Hnone).
    destruct (body s kcols nvis vrows i c (h, layout, x)) as [[h1 l1] x1].
    cbn [fst snd] in *.
    destruct (windowWidth s - 1 <? x1) eqn:Hbrk.
    + injection Hrun as <- <- <- <-. rewrite Hb by done. cbn [snd]. by rewrite Hbrk.
    + pose proof (loop_heap s kcols nvis vrows rest (i + 1) h1 l1 x1 i) as Hheap.
      rewrite Hrun in Hheap. cbn [fst] in Hheap. destruct Hheap as (_ & Hw & He).
      rewrite Hb.
      * cbn [snd]. rewrite Hbrk. by eapply IH.
      * destruct (width (h1 !!! c)) eqn:E.
        -- rewrite Hw; [done|congruence].
        -- rewrite He; [done|]. by apply Hnone.
Qed.

(** [nHeaderRows] reads the names and the flags of the columns. *)
Lemma nHeaderRows_heap h h' (s : Sheet Row) :
  same_flags h h' → (∀ r, name (h' !!! r) = name (h !!! r)) →
  nHeaderRows h' s = nHeaderRows h s.
Proof.
  intros Hf Hn. unfold nHeaderRows.
  destruct (same_flags_visibleCols h h' s Hf) as [_ ->].
  destruct (visibleCols h s) as [|c r]; [done|].
  rewrite Hn. f_equal. apply List.map_ext. intros a. by rewrite Hn.
Qed.

(** X9: computing the layout a second time changes nothing: not the widths the
    first time computed, not the layout, not [rightVisibleColIndex]. *)
Theorem calcColLayout_idempotent (h : Heap) (s : Sheet Row) :
  calcColLayout (calcColLayout h s).1 (calcColLayout h s).2 = calcColLayout h s.
Proof.
  unfold Sheets.calcColLayout.
  pose proof (loop_flags getMaxWidth options s (keyCols h s) (nVisibleCols h s)
                (visibleRows h s) (visibleCols h s) 0 h ∅ 0 0) as Hf.
  pose proof (loop_heap s (keyCols h s) (nVisibleCols h s)
                (visibleRows h s) (visibleCols h s) 0 h ∅ 0 0) as Hheap.
  destruct (loop s (keyCols h s) (nVisibleCols h s) (visibleRows h s)
              (visibleCols h s) 0 (h, ∅, 0) 0) as [[[h1 layout] x1] last] eqn:Hrun.
  cbn [fst snd] in *. destruct Hheap as (Hn & _ & _).
  set (s1 := set_colLayout layout last s).
  assert (Hk : keyCols h1 s1 = keyCols h s).
  { by destruct (same_flags_visibleCols h h1 s1 Hf) as [-> _]. }
  assert (Hv : visibleCols h1 s1 = visibleCols h s).
  { by destruct (same_flags_visibleCols h h1 s1 Hf) as [_ ->]. }
  assert (Hr : visibleRows h1 s1 = visibleRows h s).
  { unfold visibleRows, nVisibleRows.
    by rewrite (nHeaderRows_heap h h1 s1 Hf Hn). }
  unfold nVisibleCols. rewrite Hk, Hv, Hr.
  rewrite (loop_sheet s s1) by done.
  fold (nVisibleCols h s).
  by rewrite (loop_again _ _ _ _ _ _ _ _ _ _ _ _ _ _ Hrun).
Qed.

End Facts.
End LayoutAgain.

(** ** The visible columns, the key columns, the column under the cursor *)

Module ViewFacts.
Import Py PyMore Sheets Views.

Section Facts.
Context {Row : Type}.
Implicit Types (h : Heap) (s : Sheet Row) (c : ref).

Lemma elem_of_keyCols h s c :
  c ∈ keyCols h s ↔ c ∈ columns s ∧ keycol (h !!! c) = true ∧ hidden (h !!! c) = false.
Proof.
  unfold keyCols. rewrite list_elem_of_In, List.filter_In, <- list_elem_of_In.
  rewrite andb_true_iff, negb_true_iff. done.
Qed.

Lemma col_in_keyCols h s c :
  c ∈ columns s → hidden (h !!! c) = false →
  col_in c (keyCols h s) = keycol (h !!! c).
Proof.
  intros Hc Hh. unfold col_in. destruct (keycol (h !!! c)) eqn:Hk.
  - apply bool_decide_eq_true_2. by apply elem_of_keyCols.
  - apply bool_decide_eq_false_2. rewrite elem_of_keyCols. intros (_ & ? & _). congruence.
Qed.

Lemma filter_split {A} (p q : A → bool) (l : list A) :
  List.filter (fun x => q x && p x) l ++ List.filter (fun x => p x && negb (q x)) l
  ≡ₚ List.filter p l.
Proof.
  induction l as [|x l IH]; [done|]. simpl.
  destruct (p x), (q x); simpl; rewrite ?IH; try done.
  by rewrite <- Permutation_middle, IH.
Qed.

(** X10: [visibleCols] is [keyCols] followed by [nonKeyVisibleCols], and it
    is a rearrangement of the columns that are not hidden: which columns
    are key columns settles the order of the visible columns, not their
    number. *)
Theorem visibleCols_split h s :
  visibleCols h s = keyCols h s ++ nonKeyVisibleCols h s ∧
  visibleCols h s ≡ₚ List.filter (fun c => negb (hidden (h !!! c))) (columns s) ∧
  nVisibleCols h s = len (List.filter (fun c => negb (hidden (h !!! c))) (columns s)).
Proof.
  assert (Hperm : visibleCols h s ≡ₚ
                  List.filter (fun c => negb (hidden (h !!! c))) (columns s)).
  { unfold visibleCols, keyCols.
    apply (filter_split (fun c => negb (hidden (h !!! c))) (fun c => keycol (h !!! c))). }
  split_and!; [|done|].
  - unfold visibleCols, nonKeyVisibleCols. f_equal.
    apply List.filter_ext_in. intros c Hc%list_elem_of_In.
    destruct (hidden (h !!! c)) eqn:Hh; [done|].
    by rewrite col_in_keyCols.
  - unfold nVisibleCols, len. by rewrite Hperm.
Qed.

(** X11: the key columns take the first [len(keyCols)] places among the
    visible columns, and no other: for an index of a visible column,
    [isVisibleIdxKey] says whether it is below [len(keyCols)]. *)
Theorem isVisibleIdxKey_spec h s (vcolidx : Z) :
  0 ≤ vcolidx < nVisibleCols h s →
  isVisibleIdxKey h s vcolidx = Returns (vcolidx <? len (keyCols h s)).
Proof.
  intros Hi. unfold isVisibleIdxKey, getitem, nVisibleCols, len in *.
  destruct (Z.ltb_spec vcolidx 0) as [?|_]; [lia|].
  destruct (Z.ltb_spec vcolidx 0) as [?|_]; [lia|].
  destruct (lookup_lt_is_Some_2 (visibleCols h s) (Z.to_nat vcolidx)) as [c Hc]; [lia|].
  rewrite Hc. cbn. f_equal.
  unfold visibleCols in Hc.
  destruct (Z.ltb_spec vcolidx (Z.of_nat (length (keyCols h s)))) as [Hlt|Hge].
  - rewrite lookup_app_l in Hc by lia.
    apply bool_decide_eq_true_2. by eapply list_elem_of_lookup_2.
  - rewrite lookup_app_r in Hc by lia.
    apply list_elem_of_lookup_2, list_elem_of_In, List.filter_In in Hc as [_ Hc].
    apply andb_true_iff in Hc as [_ Hk%negb_true_iff].
    apply bool_decide_eq_false_2. rewrite elem_of_keyCols. intros (_ & ? & _). congruence.
Qed.

(** [l.index(x)] for an element of [l]: its first position. *)
Lemma list_index_elem (l : list ref) (x : ref) :
  x ∈ l →
  ∃ i : nat, list_index l x = Returns (Z.of_nat i) ∧ l !! i = Some x ∧
             ∀ j : nat, (j < i)%nat → l !! j ≠ Some x.
Proof.
  induction l as [|y l IH]; [by intros ?%elem_of_nil|].
  intros Hin. simpl. destruct (decide (y = x)) as [->|Hne].
  - exists 0%nat. split_and!; [done|done|]. intros j ?. lia.
  - apply elem_of_cons in Hin as [?|Hin]; [congruence|].
    destruct (IH Hin) as (i & -> & Hi & Hfirst).
    exists (S i). split_and!.
    + cbn. f_equal. lia.
    + done.
    + intros [|j] ?; simpl; [congruence|]. apply Hfirst. lia.
Qed.

Lemma list_index_absent (l : list ref) (x : ref) :
  x ∉ l → list_index l x = Throws (Builtin ValueError).
Proof.
  induction l as [|y l IH]; [done|]. intros Hin. simpl.
  destruct (decide (y = x)) as [->|Hne].
  - exfalso. apply Hin, list_elem_of_here.
  - rewrite IH; [done|]. intros ?. apply Hin. by apply list_elem_of_further.
Qed.

(** X12: on a sheet with a visible column and the cursor not left of the
    first, [cursorCol] is the visible column at the cursor index (the last
    one if the index is beyond it) and [cursorColIndex] is the first place
    of that column in [columns]; with no visible column [cursorCol] is
    [None] and [cursorColIndex] raises [ValueError]. *)
Theorem cursorColIndex_spec h s :
  (nVisibleCols h s = 0 →
     cursorCol h s = Returns None ∧ cursorColIndex h s = Throws (Builtin ValueError)) ∧
  (1 ≤ nVisibleCols h s → 0 ≤ cursorVisibleColIndex s →
     ∃ c (i : nat),
       cursorCol h s = Returns (Some c) ∧
       visibleCols h s !!
         Z.to_nat (Z.min (cursorVisibleColIndex s) (nVisibleCols h s - 1)) = Some c ∧
       cursorColIndex h s = Returns (Z.of_nat i) ∧
       columns s !! i = Some c ∧
       ∀ j : nat, (j < i)%nat → columns s !! j ≠ Some c).
Proof.
  unfold cursorColIndex, cursorCol, nVisibleCols, len. split.
  - intros Hn. destruct (visibleCols h s); [done|]. simpl in Hn. lia.
  - intros Hn Hc.
    destruct (visibleCols h s) as [|c0 vcols] eqn:Hv; [simpl in Hn; lia|].
    rewrite <- Hv in *.
    set (k := Z.min (cursorVisibleColIndex s) (Z.of_nat (length (visibleCols h s)) - 1)).
    assert (Hk : 0 ≤ k < Z.of_nat (length (visibleCols h s))) by lia.
    destruct (lookup_lt_is_Some_2 (visibleCols h s) (Z.to_nat k)) as [c Hlook]; [lia|].
    assert (Hget : getitem (visibleCols h s) k = Returns c).
    { unfold getitem. destruct (Z.ltb_spec k 0) as [?|_]; [lia|].
      destruct (Z.ltb_spec k 0) as [?|_]; [lia|]. by rewrite Hlook. }
    assert (Hcol : c ∈ columns s).
    { apply list_elem_of_lookup_2 in Hlook. unfold visibleCols, keyCols in Hlook.
      apply elem_of_app in Hlook as [Hin|Hin];
        by apply list_elem_of_In, List.filter_In in Hin as [?%list_elem_of_In _]. }
    destruct (list_index_elem _ _ Hcol) as (i & Hi & Hi2 & Hi3).
    exists c, i. rewrite Hv at 1 3. rewrite <- Hv. fold k. rewrite Hget. cbn.
    by rewrite Hi.
Qed.

(** *** Toggling key columns *)

Lemma toggleKey_twice h c : c ∈ dom h → toggleKey (toggleKey h c) c = h.
Proof.
  intros [col Hcol]%elem_of_dom. unfold toggleKey.
  rewrite lookup_total_insert_eq, insert_insert_eq.
  rewrite (lookup_total_correct _ _ _ Hcol).
  apply map_eq. intros r. destruct (decide (c = r)) as [->|Hne].
  - rewrite lookup_insert_eq, Hcol. destruct col. cbn. by rewrite negb_involutive.
  - by rewrite lookup_insert_ne.
Qed.

Lemma toggleKey_comm h a b :
  toggleKey (toggleKey h a) b = toggleKey (toggleKey h b) a.
Proof.
  destruct (decide (a = b)) as [->|Hne]; [done|]. unfold toggleKey.
  rewrite !lookup_total_insert_ne by done. by apply insert_insert_ne.
Qed.

Lemma toggleKey_foldl cols : ∀ h c,
  foldl toggleKey (toggleKey h c) cols = toggleKey (foldl toggleKey h cols) c.
Proof.
  induction cols as [|a cols IH]; intros h c; [done|].
  cbn [foldl]. rewrite (toggleKey_comm h c a). apply IH.
Qed.

Lemma toggleKeys_dom cols : ∀ h, dom h ⊆ dom (foldl toggleKey h cols).
Proof.
  induction cols as [|a l IHl]; intros h; [done|].
  cbn [foldl]. etrans; [|apply IHl].
  unfold toggleKey. rewrite dom_insert_L. apply union_subseteq_r.
Qed.

(** X13: toggling the key flag of the same columns twice gives back the
    columns as they were, also when a column is listed more than once. *)
Theorem toggleKeys_twice h (cols : list ref) :
  (∀ c, c ∈ cols → c ∈ dom h) →
  toggleKeys (toggleKeys h cols) cols = h.
Proof.
  unfold toggleKeys. revert h.
  induction cols as [|c cols IH]; intros h Hdom; [done|].
  cbn [foldl]. rewrite (toggleKey_foldl cols h c). cbn [foldl].
  rewrite toggleKey_twice.
  - apply IH. intros r Hr. apply Hdom. by apply list_elem_of_further.
  - apply toggleKeys_dom, Hdom, list_elem_of_here.
Qed.

End Facts.

Import Fixtures.

Lemma isVisibleIdxKey_spec_witness :
  isVisibleIdxKey heap_abc (sheet_abc 80) 2 =
    Returns (2 <? len (keyCols heap_abc (sheet_abc 80))).
Proof.
  apply (isVisibleIdxKey_spec heap_abc (sheet_abc 80) 2). vm_compute. split; discriminate || reflexivity.
Defined.

Lemma toggleKeys_twice_witness :
  toggleKeys (toggleKeys heap_abc [0; 2; 0]%nat) [0; 2; 0]%nat = heap_abc.
Proof.
  apply (toggleKeys_twice heap_abc [0; 2; 0]%nat).
  intros c Hc. apply elem_of_dom.
  repeat (apply elem_of_cons in Hc as [->|Hc]; [by eexists|]).
  by apply elem_of_nil in Hc.
Defined.

End ViewFacts.
(** ** The mouse: the column under a click *)

Module MouseFacts.
Import Py PyMore Sheets Views LayoutFacts.

Section Facts.
Context {Row : Type}.
Variable getMaxWidth : Column -> list Row -> Z.
Variable options : Options.
Hypothesis getMaxWidth_nonneg : ∀ c rows, 0 ≤ getMaxWidth c rows.
Hypothesis default_width_nonneg : 0 ≤ default_width options.

Local Abbreviation calcColLayout := (calcColLayout getMaxWidth options).

Lemma elem_of_layout_items (m : gmap Z (Z * Z)) (it : Z * (Z * Z)) :
  it ∈ layout_items m ↔ m !! it.1 = Some it.2.
Proof.
  unfold layout_items. rewrite merge_sort_Permutation.
  destruct it as [j p]. apply elem_of_map_to_list.
Qed.

(** What [visibleColAtX] returns is a column whose span holds [x]; it
    returns [None] only if there is none. *)
Lemma visibleColAtX_Some (s : Sheet Row) x j :
  visibleColAtX s x = Some j →
  ∃ cx w, visibleColLayout s !! j = Some (cx, w) ∧ cx ≤ x ≤ cx + w.
Proof.
  unfold visibleColAtX.
  destruct (List.find _ _) as [[j' [cx w]]|] eqn:Hf; [|done].
  intros [= <-]. apply List.find_some in Hf as [Hin Hx].
  apply list_elem_of_In, elem_of_layout_items in Hin. cbn in *.
  exists cx, w. split; [done|]. lia.
Qed.

Lemma visibleColAtX_None (s : Sheet Row) x :
  visibleColAtX s x = None →
  ∀ j cx w, visibleColLayout s !! j = Some (cx, w) → ¬ (cx ≤ x ≤ cx + w).
Proof.
  unfold visibleColAtX.
  destruct (List.find _ _) as [it|] eqn:Hf; [done|]. intros _ j cx w Hj Hx.
  pose proof (List.find_none _ _ Hf (j, (cx, w))) as Hnone. cbn in Hnone.
  rewrite <- list_elem_of_In, elem_of_layout_items in Hnone.
  specialize (Hnone Hj). lia.
Qed.

(** X14: when the layout is the one [calcColLayout] built (a window at
    least 1 wide, no negative width, a separator of one character at
    least), a click at [x] inside the span of the visible column [i] is
    found to be on that column; and [go-mouse] then moves the column cursor
    there, unless [i] is 0: the first column's index is a false value, and
    the cursor is left where it was. *)
Theorem go_mouse_column (h : Heap) (s : Sheet Row) (i x xi wi mouseY : Z) :
  1 ≤ windowWidth s →
  (∀ (c : ref) w, width (h !!! c) = Some w → 0 ≤ w) →
  1 ≤ sepColWidth options →
  let s' := (calcColLayout h s).2 in
  visibleColLayout s' !! i = Some (xi, wi) →
  xi ≤ x ≤ xi + wi →
  visibleColAtX s' x = Some i ∧
  cursorVisibleColIndex (go_mouse s' x mouseY) =
    if i =? 0 then cursorVisibleColIndex s else i.
Proof.
  intros HW Hh Hsep s' Hi Hx.
  assert (Hord : ∀ i j xi wi xj wj,
            visibleColLayout s' !! i = Some (xi, wi) →
            visibleColLayout s' !! j = Some (xj, wj) →
            i < j → xi + wi + sepColWidth options ≤ xj).
  { subst s'. unfold Sheets.calcColLayout.
    destruct (calcColLayout_loop getMaxWidth options s (keyCols h s) (nVisibleCols h s)
                (visibleRows h s) (visibleCols h s) 0 (h, ∅, 0) 0)
      as [[[h1 layout] x1] last] eqn:Hrun.
    cbn [snd set_colLayout visibleColLayout].
    destruct (LayoutGeometry.loop_geometry getMaxWidth options getMaxWidth_nonneg
                default_width_nonneg _ _ _ _ _ HW _ _ _ _ _ _ _ _ _ Hrun Hh)
      as (_ & H2 & _).
    { lia. }
    { split_and!; [done| |]; intros *; by rewrite lookup_empty. }
    intros i0 j0 xi0 wi0 xj0 wj0 H0 H1 Hlt. by apply (H2 _ _ _ _ H0 H1 Hlt). }
  assert (Hat : visibleColAtX s' x = Some i).
  { destruct (visibleColAtX s' x) as [j|] eqn:Hf.
    - destruct (visibleColAtX_Some _ _ _ Hf) as (cx & w & Hj & Hxj).
      f_equal. destruct (Z.lt_trichotomy j i) as [Hlt|[->|Hgt]]; [|done|].
      + pose proof (Hord _ _ _ _ _ _ Hj Hi Hlt). lia.
      + pose proof (Hord _ _ _ _ _ _ Hi Hj Hgt). lia.
    - exfalso. by eapply visibleColAtX_None. }
  split; [done|].
  unfold go_mouse. cbn [cursorVisibleColIndex set_cursorVisibleColIndex].
  change (visibleColAtX (set_cursorRowIndex _ s') x) with (visibleColAtX s' x).
  rewrite Hat. unfold or_index.
  destruct (i =? 0); [|done].
  subst s'. unfold Sheets.calcColLayout.
  by destruct (calcColLayout_loop _ _ _ _ _ _ _ _ _ _) as [[[? ?] ?] ?].
Qed.

End Facts.

Import Fixtures.

(** The sheet [abc] in a window 80 wide: the column [a] spans 0 to 20, the
    column [b] 21 to 41. *)
Lemma go_mouse_column_witness :
  (visibleColAtX (Sheets.calcColLayout maxw opts heap_abc (sheet_abc 80)).2 30 = Some 1 ∧
   cursorVisibleColIndex
     (go_mouse (Sheets.calcColLayout maxw opts heap_abc (sheet_abc 80)).2 30 5) = 1) ∧
  (visibleColAtX (Sheets.calcColLayout maxw opts heap_abc
                    (set_cursorVisibleColIndex 2 (sheet_abc 80))).2 10 = Some 0 ∧
   cursorVisibleColIndex
     (go_mouse (Sheets.calcColLayout maxw opts heap_abc
                  (set_cursorVisibleColIndex 2 (sheet_abc 80))).2 10 5) = 2).
Proof.
  assert (Hh : ∀ (c : ref) w, width (heap_abc !!! c) = Some w → 0 ≤ w).
  { intros c w.
    destruct (decide (c = 0%nat)) as [->|?]; [vm_compute; intros [= <-]; discriminate|].
    destruct (decide (c = 1%nat)) as [->|?]; [vm_compute; intros [= <-]; discriminate|].
    destruct (decide (c = 2%nat)) as [->|?]; [vm_compute; discriminate|].
    unfold heap_abc. cbn [list_to_map foldr uncurry fst snd].
    rewrite !lookup_total_insert_ne by done. rewrite lookup_total_empty. discriminate. }
  split.
  - apply (go_mouse_column maxw opts) with (h := heap_abc) (s := sheet_abc 80)
      (i := 1) (xi := 21) (wi := 20); try done.
  - apply (go_mouse_column maxw opts) with (h := heap_abc)
      (s := set_cursorVisibleColIndex 2 (sheet_abc 80)) (i := 0) (xi := 0) (wi := 20);
      try done.
Defined.

End MouseFacts.
(** ** Moving by pages, and to the last row *)

Module PageFacts.
Import Py PyMore Sheets Views LayoutFacts CursorFacts.

Section Facts.
Context {Row : Type}.
Variable getMaxWidth : Column -> list Row -> Z.
Variable options : Options.

Local Abbreviation calcColLayout := (calcColLayout getMaxWidth options).
Local Abbreviation checkCursor_loop := (checkCursor_loop getMaxWidth options).
Local Abbreviation checkCursor := (checkCursor getMaxWidth options).

(** What the number of rows of a page is read from. *)
Lemma nVisibleRows_ext h h' (s s' : Sheet Row) :
  same_flags h h' → (∀ r, name (h' !!! r) = name (h !!! r)) →
  columns s' = columns s → rowLayout s' = rowLayout s →
  windowHeight s' = windowHeight s →
  nVisibleRows h' s' = nVisibleRows h s.
Proof.
  intros Hf Hn Hc Hr Hw. unfold nVisibleRows.
  rewrite Hr, Hw, (LayoutAgain.nHeaderRows_heap h h' s' Hf Hn).
  assert (Hh : nHeaderRows h s' = nHeaderRows h s).
  { unfold nHeaderRows, visibleCols, keyCols. by rewrite Hc. }
  by rewrite Hh.
Qed.

(** What the horizontal scroll leaves alone, when it returns. *)
Lemma checkCursor_loop_frame (fuel : nat) :
  ∀ h (s : Sheet Row) h' s',
    checkCursor_loop fuel h s = Some (Ok (h', s')) →
    (∀ r, name (h' !!! r) = name (h !!! r)) ∧
    rowLayout s' = rowLayout s ∧ windowHeight s' = windowHeight s ∧
    windowWidth s' = windowWidth s.
Proof.
  induction fuel as [|fuel IH]; intros h s h' s' Hrun; [done|].
  cbn [Sheets.checkCursor_loop] in Hrun.
  destruct (leftVisibleColIndex s =? cursorVisibleColIndex s); [by simplify_eq|].
  assert (Hcalc : (∀ r, name ((calcColLayout h s).1 !!! r) = name (h !!! r)) ∧
                  rowLayout (calcColLayout h s).2 = rowLayout s ∧
                  windowHeight (calcColLayout h s).2 = windowHeight s ∧
                  windowWidth (calcColLayout h s).2 = windowWidth s).
  { unfold Sheets.calcColLayout.
    pose proof (LayoutAgain.loop_heap getMaxWidth options s (keyCols h s)
                  (nVisibleCols h s) (visibleRows h s) (visibleCols h s) 0 h ∅ 0 0) as Hheap.
    destruct (calcColLayout_loop _ _ _ _ _ _ _ _ _ _) as [[[h1 layout] x] last].
    cbn [fst snd] in *. by destruct Hheap as (? & _). }
  destruct (calcColLayout h s) as [h1 s1]. cbn [fst snd] in Hcalc.
  destruct Hcalc as (Hn & Hr & Hwh & Hww).
  assert (Hstep : ∀ d,
            checkCursor_loop fuel h1
              (set_leftVisibleColIndex (leftVisibleColIndex s1 + d) s1) = Some (Ok (h', s')) →
            (∀ r, name (h' !!! r) = name (h !!! r)) ∧
            rowLayout s' = rowLayout s ∧ windowHeight s' = windowHeight s ∧
            windowWidth s' = windowWidth s).
  { intros d Hd. apply IH in Hd as (Hn' & Hr' & Hwh' & Hww'). cbn in Hr', Hwh', Hww'.
    split_and!; [|congruence..]. intros r. by rewrite Hn'. }
  destruct (Py.min (layout_keys s1)) as [lo|]; [|done].
  destruct (Py.max (layout_keys s1)) as [hi|]; [|done].
  destruct (cursorVisibleColIndex s1 <? lo); [done|].
  destruct (hi <? cursorVisibleColIndex s1); [by eapply Hstep|].
  destruct (visibleColLayout s1 !! cursorVisibleColIndex s1) as [[cur_x cur_w]|]; [|done].
  destruct (cur_x + cur_w <? windowWidth s1); [by simplify_eq|by eapply Hstep].
Qed.

(** The top-row clamp and the vertical scroll do not read the column
    cursor. *)
Lemma clampTopRow_col v (s : Sheet Row) :
  clampTopRow (set_cursorVisibleColIndex v s) =
  set_cursorVisibleColIndex v (clampTopRow s).
Proof.
  destruct s. unfold clampTopRow, nRows.
  cbn [topRowIndex rows set_cursorVisibleColIndex set_topRowIndex].
  repeat match goal with |- context [if ?b then _ else _] => destruct b end; reflexivity.
Qed.

Lemma scrollRows_col v h (s : Sheet Row) :
  scrollRows h (set_cursorVisibleColIndex v s) =
  set_cursorVisibleColIndex v (scrollRows h s).
Proof.
  destruct s. unfold scrollRows. cbv zeta.
  change (nHeaderRows h (set_cursorVisibleColIndex v ?s)) with (nHeaderRows h s).
  change (nVisibleRows h (set_cursorVisibleColIndex v ?s)) with (nVisibleRows h s).
  cbn [topRowIndex cursorRowIndex set_cursorVisibleColIndex set_topRowIndex].
  repeat match goal with |- context [if ?b then _ else _] => destruct b end; reflexivity.
Qed.

(** The rows of the sheet after the clamps and the vertical scroll. *)
Local Abbreviation rows_settled h s := (scrollRows h (clampTopRow (clampCursorRow s))).

(** On a sheet with a visible column, in a window at least 1 wide,
    [checkCursor] returns; the row cursor and the top row are those the
    clamps and the vertical scroll give; the size of a page and the number
    of visible columns stay. *)
Lemma checkCursor_vertical (fuel : nat) h (s : Sheet Row) :
  1 ≤ nVisibleCols h s →
  1 ≤ windowWidth s →
  (Z.to_nat (nVisibleCols h s - leftVisibleColIndex s) ≤ fuel)%nat →
  ∃ h' s', checkCursor fuel h s = Some (Ok (h', s')) ∧
           cursorRowIndex s' = cursorRowIndex (rows_settled h s) ∧
           topRowIndex s' = topRowIndex (rows_settled h s) ∧
           rows s' = rows s ∧
           nVisibleRows h' s' = nVisibleRows h s ∧
           nVisibleCols h' s' = nVisibleCols h s ∧
           windowWidth s' = windowWidth s ∧
           Z.min (leftVisibleColIndex s) 0 ≤ leftVisibleColIndex s'.
Proof.
  intros Hnv HW Hfuel. unfold Sheets.checkCursor.
  set (s1 := clampCursorRow s).
  set (s2 := clampCursorCol h s1).
  assert (H1 : rows s1 = rows s ∧ columns s1 = columns s ∧
               leftVisibleColIndex s1 = leftVisibleColIndex s ∧
               windowWidth s1 = windowWidth s ∧ rowLayout s1 = rowLayout s ∧
               windowHeight s1 = windowHeight s ∧
               cursorVisibleColIndex s1 = cursorVisibleColIndex s).
  { subst s1. unfold clampCursorRow.
    destruct ((nRows s =? 0) || (cursorRowIndex s <=? 0)); [done|].
    by destruct (nRows s <=? cursorRowIndex s). }
  destruct H1 as (Hr1 & Hc1 & Hl1 & Hw1 & Hrl1 & Hwh1 & Hcv1).
  assert (Hnv1 : nVisibleCols h s1 = nVisibleCols h s).
  { unfold nVisibleCols, visibleCols, keyCols. by rewrite Hc1. }
  (* the column clamp changes the column cursor and nothing else *)
  assert (H2 : ∃ v, s2 = set_cursorVisibleColIndex v s1 ∧ 0 ≤ v < nVisibleCols h s).
  { subst s2. unfold clampCursorCol. rewrite Hnv1.
    destruct (Z.leb_spec (cursorVisibleColIndex s1) 0);
      [|destruct (Z.leb_spec (nVisibleCols h s) (cursorVisibleColIndex s1))].
    - exists 0. split; [done|lia].
    - exists (nVisibleCols h s - 1). split; [done|lia].
    - exists (cursorVisibleColIndex s1). split; [by destruct s1|lia]. }
  destruct H2 as (v & Hs2 & Hv). clearbody s2. subst s2.
  set (s3 := clampTopRow (set_cursorVisibleColIndex v s1)).
  set (s4 := scrollRows h s3).
  (* the rows part does not see the column cursor *)
  assert (H4 : s4 = set_cursorVisibleColIndex v (rows_settled h s)).
  { subst s4 s3. by rewrite clampTopRow_col, scrollRows_col. }
  clearbody s4. subst s4.
  set (r := rows_settled h s) in *.
  assert (Hr : rows r = rows s ∧ columns r = columns s ∧
               leftVisibleColIndex r = leftVisibleColIndex s ∧
               windowWidth r = windowWidth s ∧ rowLayout r = rowLayout s ∧
               windowHeight r = windowHeight s).
  { subst r. fold s1. unfold scrollRows, clampTopRow. cbv zeta.
    destruct (topRowIndex s1 <=? 0); [|destruct (nRows s1 - 1 <? topRowIndex s1)];
      repeat match goal with |- context [if ?b then _ else _] => destruct b end;
      cbn; split_and!; done. }
  destruct Hr as (Hrr & Hrc & Hrl & Hrw & Hrrl & Hrwh).
  assert (Hnvr : ∀ x, nVisibleCols h (set_cursorVisibleColIndex x r) = nVisibleCols h s).
  { intros x. unfold nVisibleCols, visibleCols, keyCols. cbn [columns set_cursorVisibleColIndex].
    by rewrite Hrc. }
  assert (H3 : cursorVisibleColIndex s3 = v ∧
               leftVisibleColIndex s3 = leftVisibleColIndex s).
  { subst s3. rewrite clampTopRow_col. cbn. split; [done|].
    rewrite <- Hl1. unfold clampTopRow.
    repeat match goal with |- context [if ?b then _ else _] => destruct b end; done. }
  destruct H3 as [-> ->]. clearbody s3.
  destruct (Z.leb_spec (v - leftVisibleColIndex s) 0) as [Hx|Hx].
  - eexists _, _. split; [reflexivity|].
    cbn [cursorRowIndex topRowIndex rows set_leftVisibleColIndex set_cursorVisibleColIndex
         windowWidth leftVisibleColIndex cursorVisibleColIndex].
    split_and!; try done.
    + apply nVisibleRows_ext; try done.
    + unfold nVisibleCols, visibleCols, keyCols.
      cbn [columns set_leftVisibleColIndex set_cursorVisibleColIndex]. by rewrite Hrc.
    + lia.
  - 
    destruct (checkCursor_loop_returns getMaxWidth options fuel h
                (set_cursorVisibleColIndex v r))
      as (h' & s' & Hrun & Hf & Hr' & Hc' & Hcr' & Htop' & Hcv' & Hl').
    { cbn. lia. }
    { rewrite Hnvr. cbn. lia. }
    { cbn. lia. }
    { cbn. lia. }
    rewrite Hrun.
    destruct (checkCursor_loop_frame _ _ _ _ _ Hrun) as (Hn' & Hrl' & Hwh' & Hww').
    exists h', s'. split; [done|].
    cbn in Hr', Hc', Hcr', Htop', Hcv', Hl', Hrl', Hwh', Hww'.
    split_and!; [exact Hcr'|exact Htop'|congruence| | |congruence|lia].
    + apply nVisibleRows_ext; try done; congruence.
    + unfold nVisibleCols.
      destruct (same_flags_visibleCols h h' s' Hf) as [_ ->].
      unfold visibleCols, keyCols. by rewrite Hc', Hrc.
Qed.

(** The row cursor and the top row after the clamps and the vertical
    scroll, from the numbers they are computed with. *)
Lemma rows_settled_spec h (s : Sheet Row) :
  let n := nRows s in
  let c1 := if (n =? 0) || (cursorRowIndex s <=? 0) then 0
            else if n <=? cursorRowIndex s then n - 1 else cursorRowIndex s in
  let t1 := if topRowIndex s <=? 0 then 0
            else if n - 1 <? topRowIndex s then n - 1 else topRowIndex s in
  cursorRowIndex (rows_settled h s) = c1 ∧
  topRowIndex (rows_settled h s) =
    if c1 - t1 + nHeaderRows h s <? nHeaderRows h s then c1
    else if nHeaderRows h s + nVisibleRows h s - 1 <? c1 - t1 + nHeaderRows h s
         then c1 - nVisibleRows h s + 1
    else t1.
Proof.
  intros n c1 t1.
  set (s1 := clampCursorRow s).
  assert (H1 : nRows s1 = n ∧ topRowIndex s1 = topRowIndex s ∧ cursorRowIndex s1 = c1 ∧
               nHeaderRows h s1 = nHeaderRows h s ∧ nVisibleRows h s1 = nVisibleRows h s).
  { subst s1 c1 n. unfold clampCursorRow.
    destruct ((nRows s =? 0) || (cursorRowIndex s <=? 0)); [done|].
    by destruct (nRows s <=? cursorRowIndex s). }
  destruct H1 as (Hn1 & Ht1 & Hc1 & Hh1 & Hv1). clearbody s1.
  set (s2 := clampTopRow s1).
  assert (H2 : topRowIndex s2 = t1 ∧ cursorRowIndex s2 = c1 ∧
               nHeaderRows h s2 = nHeaderRows h s ∧ nVisibleRows h s2 = nVisibleRows h s).
  { subst s2 t1. unfold clampTopRow. rewrite Hn1, Ht1, <- Hc1, <- Hh1, <- Hv1.
    destruct (topRowIndex s <=? 0); [done|].
    by destruct (n - 1 <? topRowIndex s). }
  destruct H2 as (Ht2 & Hc2 & Hh2 & Hv2). clearbody s2.
  unfold scrollRows. cbv zeta. rewrite Hh2, Hv2, Ht2, Hc2.
  destruct (c1 - t1 + nHeaderRows h s <? nHeaderRows h s); [done|].
  by destruct (nHeaderRows h s + nVisibleRows h s - 1 <? c1 - t1 + nHeaderRows h s).
Qed.

(** X17: after [checkCursor], on a sheet with a visible column and a
    page of one row at least, the row under the cursor is on the screen:
    [topRowIndex <= cursorRowIndex < topRowIndex + nVisibleRows]; and the
    top row is the index of a row when the sheet has rows. *)
Theorem checkCursor_row_on_screen (fuel : nat) h (s : Sheet Row) :
  1 ≤ nVisibleCols h s →
  1 ≤ windowWidth s →
  (Z.to_nat (nVisibleCols h s - leftVisibleColIndex s) ≤ fuel)%nat →
  1 ≤ nVisibleRows h s →
  ∃ h' s', checkCursor fuel h s = Some (Ok (h', s')) ∧
           topRowIndex s' ≤ cursorRowIndex s' < topRowIndex s' + nVisibleRows h' s' ∧
           (1 ≤ nRows s → 0 ≤ topRowIndex s' < nRows s).
Proof.
  intros Hnv HW Hfuel Hvr.
  destruct (checkCursor_vertical fuel h s Hnv HW Hfuel)
    as (h' & s' & Hrun & Hc & Ht & _ & Hvr' & _).
  exists h', s'. split; [done|].
  destruct (rows_settled_spec h s) as [Hc1 Ht1].
  rewrite Hvr', Hc, Ht, Hc1, Ht1. clear Hrun Hc Ht Hc1 Ht1 Hnv HW Hfuel Hvr'.
  split; [|intros Hn];
    repeat (match goal with
    | |- context [?a =? ?b] => destruct (Z.eqb_spec a b)
    | |- context [?a <=? ?b] => destruct (Z.leb_spec a b)
    | |- context [?a <? ?b] => destruct (Z.ltb_spec a b)
    | H : context [?a =? ?b] |- _ => destruct (Z.eqb_spec a b)
    | H : context [?a <=? ?b] |- _ => destruct (Z.leb_spec a b)
    | H : context [?a <? ?b] |- _ => destruct (Z.ltb_spec a b)
    end; cbn [orb] in * ); lia.
Qed.

(** X15: [go-bottom] puts the cursor one past the last row; the
    [checkCursor] that follows brings it to the last row, and the last page
    of rows is on the screen: the top row is [nRows - nVisibleRows], or 0
    on a sheet shorter than a page. *)
Theorem go_bottom_checkCursor (fuel : nat) h (s : Sheet Row) :
  1 ≤ nVisibleCols h s →
  1 ≤ windowWidth s →
  (Z.to_nat (nVisibleCols h s - leftVisibleColIndex s) ≤ fuel)%nat →
  1 ≤ nRows s →
  1 ≤ nVisibleRows h s →
  ∃ h' s', checkCursor fuel h (go_bottom h s) = Some (Ok (h', s')) ∧
           cursorRowIndex s' = nRows s - 1 ∧
           topRowIndex s' = Z.max (nRows s - nVisibleRows h s) 0.
Proof.
  intros Hnv HW Hfuel Hn Hvr.
  destruct (checkCursor_vertical fuel h (go_bottom h s))
    as (h' & s' & Hrun & Hc & Ht & _); [done..|].
  exists h', s'. split; [done|].
  destruct (rows_settled_spec h (go_bottom h s)) as [Hc1 Ht1].
  rewrite Hc, Ht, Hc1, Ht1. clear Hrun Hc Ht Hc1 Ht1 Hnv HW Hfuel.
  change (nVisibleRows h (go_bottom h s)) with (nVisibleRows h s).
  change (nHeaderRows h (go_bottom h s)) with (nHeaderRows h s).
  change (nRows (go_bottom h s)) with (nRows s).
  change (cursorRowIndex (go_bottom h s)) with (len (rows s)).
  change (topRowIndex (go_bottom h s)) with (len (rows s) - nVisibleRows h s).
  unfold nRows in *.
  repeat (match goal with
  | |- context [?a =? ?b] => destruct (Z.eqb_spec a b)
  | |- context [?a <=? ?b] => destruct (Z.leb_spec a b)
  | |- context [?a <? ?b] => destruct (Z.ltb_spec a b)
  | H : context [?a =? ?b] |- _ => destruct (Z.eqb_spec a b)
  | H : context [?a <=? ?b] |- _ => destruct (Z.leb_spec a b)
  | H : context [?a <? ?b] |- _ => destruct (Z.ltb_spec a b)
  end; cbn [orb] in *); lia.
Qed.

(** X16: a page down and a page up.  From a view that holds the cursor
    ([topRowIndex <= cursorRowIndex < topRowIndex + nVisibleRows]), when
    the row a page below the cursor exists, [next-page] and the
    [checkCursor] that follows move the cursor and the top row by one page,
    and [prev-page] with its [checkCursor] brings both back where they
    were. *)
Theorem next_page_prev_page (fuel : nat) h (s : Sheet Row) :
  1 ≤ nVisibleCols h s →
  1 ≤ windowWidth s →
  (Z.to_nat (nVisibleCols h s + Z.abs (leftVisibleColIndex s)) ≤ fuel)%nat →
  1 ≤ nVisibleRows h s →
  0 ≤ topRowIndex s ≤ cursorRowIndex s →
  cursorRowIndex s < topRowIndex s + nVisibleRows h s →
  cursorRowIndex s + nVisibleRows h s ≤ nRows s - 1 →
  ∃ h1 s1 h2 s2,
    checkCursor fuel h (next_page h s) = Some (Ok (h1, s1)) ∧
    cursorRowIndex s1 = cursorRowIndex s + nVisibleRows h s ∧
    topRowIndex s1 = topRowIndex s + nVisibleRows h s ∧
    checkCursor fuel h1 (prev_page h1 s1) = Some (Ok (h2, s2)) ∧
    cursorRowIndex s2 = cursorRowIndex s ∧
    topRowIndex s2 = topRowIndex s.
Proof.
  intros Hnv HW Hfuel Hvr Hview Hview2 Hroom.
  destruct (checkCursor_vertical fuel h (next_page h s))
    as (h1 & s1 & Hrun1 & Hc1 & Ht1 & Hr1 & Hvr1 & Hnv1 & Hw1 & Hl1); [done|done|..].
  { change (nVisibleCols h (next_page h s)) with (nVisibleCols h s).
    change (leftVisibleColIndex (next_page h s)) with (leftVisibleColIndex s). lia. }
  change (nVisibleCols h (next_page h s)) with (nVisibleCols h s) in Hnv1.
  change (nVisibleRows h (next_page h s)) with (nVisibleRows h s) in Hvr1.
  change (windowWidth (next_page h s)) with (windowWidth s) in Hw1.
  change (leftVisibleColIndex (next_page h s)) with (leftVisibleColIndex s) in Hl1.
  change (rows (next_page h s)) with (rows s) in Hr1.
  destruct (rows_settled_spec h (next_page h s)) as [Hc1' Ht1'].
  rewrite Hc1' in Hc1. rewrite Ht1' in Ht1. clear Hc1' Ht1'.
  change (nVisibleRows h (next_page h s)) with (nVisibleRows h s) in Ht1.
  change (nHeaderRows h (next_page h s)) with (nHeaderRows h s) in Hc1, Ht1.
  change (nRows (next_page h s)) with (nRows s) in Hc1, Ht1.
  change (cursorRowIndex (next_page h s))
    with (cursorRowIndex s + nVisibleRows h s) in Hc1, Ht1.
  change (topRowIndex (next_page h s))
    with (topRowIndex s + nVisibleRows h s) in Hc1, Ht1.
  assert (Hc1' : cursorRowIndex s1 = cursorRowIndex s + nVisibleRows h s).
  { rewrite Hc1. clear Hc1 Ht1.
    repeat (match goal with
    | |- context [?a =? ?b] => destruct (Z.eqb_spec a b)
    | |- context [?a <=? ?b] => destruct (Z.leb_spec a b)
    | |- context [?a <? ?b] => destruct (Z.ltb_spec a b)
    end; cbn [orb] in * ); lia. }
  assert (Ht1' : topRowIndex s1 = topRowIndex s + nVisibleRows h s).
  { rewrite Ht1. clear Hc1 Ht1.
    repeat (match goal with
    | |- context [?a =? ?b] => destruct (Z.eqb_spec a b)
    | |- context [?a <=? ?b] => destruct (Z.leb_spec a b)
    | |- context [?a <? ?b] => destruct (Z.ltb_spec a b)
    | H : context [?a =? ?b] |- _ => destruct (Z.eqb_spec a b)
    | H : context [?a <=? ?b] |- _ => destruct (Z.leb_spec a b)
    | H : context [?a <? ?b] |- _ => destruct (Z.ltb_spec a b)
    end; cbn [orb] in * ); lia. }
  clear Hc1 Ht1.
  destruct (checkCursor_vertical fuel h1 (prev_page h1 s1))
    as (h2 & s2 & Hrun2 & Hc2 & Ht2 & _).
  { change (nVisibleCols h1 (prev_page h1 s1)) with (nVisibleCols h1 s1). lia. }
  { change (windowWidth (prev_page h1 s1)) with (windowWidth s1). lia. }
  { change (nVisibleCols h1 (prev_page h1 s1)) with (nVisibleCols h1 s1).
    change (leftVisibleColIndex (prev_page h1 s1)) with (leftVisibleColIndex s1). lia. }
  exists h1, s1, h2, s2. split_and!; [done..| |].
  - rewrite Hc2. destruct (rows_settled_spec h1 (prev_page h1 s1)) as [-> _].
    change (nRows (prev_page h1 s1)) with (nRows s1).
    change (cursorRowIndex (prev_page h1 s1)) with (cursorRowIndex s1 - nVisibleRows h1 s1).
    unfold nRows in *. rewrite Hr1, Hvr1, Hc1'.
    repeat (match goal with
    | |- context [?a =? ?b] => destruct (Z.eqb_spec a b)
    | |- context [?a <=? ?b] => destruct (Z.leb_spec a b)
    | |- context [?a <? ?b] => destruct (Z.ltb_spec a b)
    end; cbn [orb] in * ); lia.
  - rewrite Ht2. destruct (rows_settled_spec h1 (prev_page h1 s1)) as [_ ->].
    change (nVisibleRows h1 (prev_page h1 s1)) with (nVisibleRows h1 s1).
    change (nHeaderRows h1 (prev_page h1 s1)) with (nHeaderRows h1 s1).
    change (nRows (prev_page h1 s1)) with (nRows s1).
    change (cursorRowIndex (prev_page h1 s1)) with (cursorRowIndex s1 - nVisibleRows h1 s1).
    change (topRowIndex (prev_page h1 s1)) with (topRowIndex s1 - nVisibleRows h1 s1).
    unfold nRows in *. rewrite Hr1, Hvr1, Hc1', Ht1'.
    repeat (match goal with
    | |- context [?a =? ?b] => destruct (Z.eqb_spec a b)
    | |- context [?a <=? ?b] => destruct (Z.leb_spec a b)
    | |- context [?a <? ?b] => destruct (Z.ltb_spec a b)
    | H : context [?a =? ?b] |- _ => destruct (Z.eqb_spec a b)
    | H : context [?a <=? ?b] |- _ => destruct (Z.leb_spec a b)
    | H : context [?a <? ?b] |- _ => destruct (Z.ltb_spec a b)
    end; cbn [orb] in * ); lia.
Qed.

End Facts.

Import Fixtures MoreFixtures.

Lemma checkCursor_row_on_screen_witness :
  ∃ h' s',
    Sheets.checkCursor maxw opts 3 heap_abc (set_cursorRowIndex 4 (sheet_five 1))
      = Some (Ok (h', s')) ∧
    topRowIndex s' ≤ cursorRowIndex s' < topRowIndex s' + nVisibleRows h' s' ∧
    (1 ≤ nRows (set_cursorRowIndex 4 (sheet_five 1)) →
     0 ≤ topRowIndex s' < nRows (set_cursorRowIndex 4 (sheet_five 1))).
Proof.
  apply (checkCursor_row_on_screen maxw opts 3 heap_abc
           (set_cursorRowIndex 4 (sheet_five 1)));
    vm_compute; (discriminate || lia).
Defined.

Lemma go_bottom_checkCursor_witness :
  ∃ h' s',
    Sheets.checkCursor maxw opts 3 heap_abc (go_bottom heap_abc (sheet_five 0))
      = Some (Ok (h', s')) ∧
    cursorRowIndex s' = nRows (sheet_five 0) - 1 ∧
    topRowIndex s' =
      Z.max (nRows (sheet_five 0) - nVisibleRows heap_abc (sheet_five 0)) 0.
Proof.
  apply (go_bottom_checkCursor maxw opts 3 heap_abc (sheet_five 0));
    vm_compute; (discriminate || lia).
Defined.

Lemma next_page_prev_page_witness :
  ∃ h1 s1 h2 s2,
    Sheets.checkCursor maxw opts 3 heap_abc (next_page heap_abc (sheet_five 2))
      = Some (Ok (h1, s1)) ∧
    cursorRowIndex s1 = cursorRowIndex (sheet_five 2) + nVisibleRows heap_abc (sheet_five 2) ∧
    topRowIndex s1 = topRowIndex (sheet_five 2) + nVisibleRows heap_abc (sheet_five 2) ∧
    Sheets.checkCursor maxw opts 3 h1 (prev_page h1 s1) = Some (Ok (h2, s2)) ∧
    cursorRowIndex s2 = cursorRowIndex (sheet_five 2) ∧
    topRowIndex s2 = topRowIndex (sheet_five 2).
Proof.
  apply (next_page_prev_page maxw opts 3 heap_abc (sheet_five 2));
    vm_compute; try (discriminate || lia); split; discriminate.
Defined.

End PageFacts.

(** ** Dicts built in order *)

Module DictFacts.
Import Dicts.

Section Facts.
Context {K V : Type} `{EqDecision K}.
Implicit Types (d : dict (K := K) (V := V)) (k : K) (v : V).

Lemma dict_get_set d k v k' :
  dict_get (dict_set d k v) k' = if decide (k = k') then Some v else dict_get d k'.
Proof.
  induction d as [|[k0 v0] d IH]; simpl.
  - by destruct (decide (k = k')).
  - destruct (decide (k0 = k)) as [->|Hne]; simpl.
    + by destruct (decide (k = k')).
    + rewrite IH. destruct (decide (k0 = k')) as [->|?]; [|done].
      by rewrite decide_False by congruence.
Qed.

Lemma dict_set_keys d k v :
  (dict_set d k v).*1 = if decide (k ∈ d.*1) then d.*1 else d.*1 ++ [k].
Proof.
  induction d as [|[k0 v0] d IH]; cbn [dict_set].
  - rewrite decide_False; [done|]. by intros ?%elem_of_nil.
  - destruct (decide (k0 = k)) as [->|Hne]; rewrite !fmap_cons; cbn [fst].
    + rewrite decide_True; [done|]. apply list_elem_of_here.
    + rewrite IH. destruct (decide (k ∈ d.*1)) as [Hin|Hnin].
      * rewrite decide_True; [done|]. by apply list_elem_of_further.
      * rewrite decide_False; [done|].
        intros [?|?]%elem_of_cons; [congruence|done].
Qed.

Lemma dict_get_None d k : dict_get d k = None ↔ k ∉ d.*1.
Proof.
  induction d as [|[k0 v0] d IH]; cbn [dict_get].
  - split; [intros _ ?%elem_of_nil|]; done.
  - rewrite fmap_cons. cbn [fst]. destruct (decide (k0 = k)) as [->|Hne].
    + split; [done|]. intros Hn. exfalso. apply Hn, list_elem_of_here.
    + rewrite IH. split.
      * intros Hn [?|?]%elem_of_cons; [congruence|done].
      * intros Hn Hin. apply Hn. by apply list_elem_of_further.
Qed.

Section Of.
Context {A : Type} (key : A → K) (val : A → V).

Local Abbreviation step := (fun d x => dict_set d (key x) (val x)).

(** The keys of a dict comprehension: the keys in the order they are
    first met. *)
Lemma dict_of_keys (xs : list A) :
  (dict_of key val xs).*1 = first_seen (key <$> xs).
Proof.
  unfold dict_of, first_seen.
  assert (Hgen : ∀ d : dict (K := K) (V := V),
    (foldl step d xs).*1 =
      foldl (fun acc k => if decide (k ∈ acc) then acc else acc ++ [k]) (d.*1) (key <$> xs)).
  { induction xs as [|x xs IH]; intros d; [done|].
    rewrite fmap_cons. cbn [foldl]. by rewrite IH, dict_set_keys. }
  apply (Hgen []).
Qed.

(** Its value for a key: that of the last element with the key. *)
Lemma dict_of_get (xs : list A) k :
  dict_get (dict_of key val xs) k =
    val <$> last (filter (fun x => key x = k) xs).
Proof.
  unfold dict_of.
  assert (Hgen : ∀ d,
    dict_get (foldl step d xs) k =
      match last (filter (fun x => key x = k) xs) with
      | Some x => Some (val x)
      | None => dict_get d k
      end).
  { induction xs as [|x xs IH]; intros d; [done|].
    cbn [foldl]. rewrite IH, dict_get_set, filter_cons.
    destruct (decide (key x = k)) as [Hk|Hk].
    - rewrite last_cons. by destruct (last (filter _ xs)).
    - done. }
  rewrite Hgen. by destruct (last _).
Qed.

(** With no key met twice, the dict has one item for each element, in
    order. *)
Lemma dict_of_NoDup (xs : list A) :
  NoDup (key <$> xs) → dict_of key val xs = (fun x => (key x, val x)) <$> xs.
Proof.
  unfold dict_of. intros Hnd.
  assert (Hgen : ∀ d, (∀ x, x ∈ xs → key x ∉ d.*1) →
            foldl step d xs = d ++ ((fun x => (key x, val x)) <$> xs)).
  { induction xs as [|x xs IH]; intros d Hd; [by rewrite app_nil_r|].
    cbn [foldl fmap list_fmap]. apply NoDup_cons in Hnd as [Hx Hnd].
    assert (Hset : dict_set d (key x) (val x) = d ++ [(key x, val x)]).
    { specialize (Hd x (list_elem_of_here _ _)). clear -Hd.
      induction d as [|[k0 v0] d IHd]; [done|]. simpl.
      rewrite decide_False.
      - f_equal. apply IHd. intros Hin. apply Hd. by apply list_elem_of_further.
      - intros ->. apply Hd, list_elem_of_here. }
    rewrite Hset, IH; [by rewrite <- app_assoc|done|].
    intros y Hy. rewrite fmap_app. intros [Hin|Hin]%elem_of_app.
    - by apply (Hd y (list_elem_of_further _ _ _ Hy)).
    - apply list_elem_of_singleton in Hin. cbn in Hin. apply Hx. rewrite <- Hin.
      by apply list_elem_of_fmap_2. }
  rewrite Hgen; [done|]. intros x _ ?%elem_of_nil. done.
Qed.

End Of.
End Facts.

(** [first_seen] keeps every key, once. *)
Lemma first_seen_spec {K} `{EqDecision K} (ks : list K) :
  NoDup (first_seen ks) ∧ ∀ k, k ∈ first_seen ks ↔ k ∈ ks.
Proof.
  unfold first_seen.
  assert (Hgen : ∀ acc, NoDup acc →
    NoDup (foldl (fun acc k => if decide (k ∈ acc) then acc else acc ++ [k]) acc ks) ∧
    ∀ k, k ∈ foldl (fun acc k => if decide (k ∈ acc) then acc else acc ++ [k]) acc ks
         ↔ k ∈ acc ∨ k ∈ ks).
  { induction ks as [|k0 ks IH]; intros acc Hacc.
    - split; [done|]. intros k. rewrite elem_of_nil. tauto.
    - cbn [foldl]. destruct (decide (k0 ∈ acc)) as [Hin|Hnin].
      + destruct (IH acc Hacc) as [H1 H2]. split; [done|].
        intros k. rewrite H2, elem_of_cons. split; [tauto|].
        intros [?|[->|?]]; tauto.
      + destruct (IH (acc ++ [k0])) as [H1 H2].
        { apply NoDup_app. split_and!; [done| |apply NoDup_singleton].
          intros x Hx ->%list_elem_of_singleton. done. }
        split; [done|]. intros k.
        rewrite H2, elem_of_app, list_elem_of_singleton, elem_of_cons. tauto. }
  destruct (Hgen [] (NoDup_nil_2)) as [H1 H2]. split; [done|].
  intros k. rewrite H2, elem_of_nil. tauto.
Qed.

Lemma first_seen_NoDup {K} `{EqDecision K} (ks : list K) :
  NoDup ks → first_seen ks = ks.
Proof.
  unfold first_seen. intros Hnd.
  assert (Hgen : ∀ acc, (∀ k, k ∈ ks → k ∉ acc) →
    foldl (fun acc k => if decide (k ∈ acc) then acc else acc ++ [k]) acc ks = acc ++ ks).
  { induction ks as [|k0 ks IH]; intros acc Hacc; [by rewrite app_nil_r|].
    cbn [foldl]. apply NoDup_cons in Hnd as [Hk Hnd].
    rewrite decide_False by (apply Hacc, list_elem_of_here).
    rewrite IH; [by rewrite <- app_assoc|done|].
    intros k Hin [?|Hk0%list_elem_of_singleton]%elem_of_app; [|by subst].
    by apply (Hacc k (list_elem_of_further _ _ _ Hin)). }
  apply (Hgen []). intros k _ ?%elem_of_nil. done.
Qed.

End DictFacts.

(** ** Columns by name *)

Module NameFacts.
Import Py Sheets Dicts Names DictFacts.

Section Facts.
Context {Row : Type}.


End Facts.
End NameFacts.

(** ** The JSON loader: a document loaded, a row saved *)

Module JsonIOFacts.
Import Py Sheets Dicts Json JsonIO DictFacts.

(** X19: the dict [_rowdict] makes for a row has one item for each
    distinct column name, in the order the names are first met, and under
    a name the cell of the last column that has it: of two columns with
    the same name the first is left out.  With no name used twice it has
    one item for each column, in order. *)
Theorem rowdict_last (h : Heap) (cols : list ref) (row : Value) :
  (_rowdict h cols row).*1 = first_seen ((fun c => name (h !!! c)) <$> cols) ∧
  (∀ k, dict_get (_rowdict h cols row) k =
          (fun c => (c, row)) <$> last (filter (fun c => name (h !!! c) = k) cols)) ∧
  (NoDup ((fun c => name (h !!! c)) <$> cols) →
     _rowdict h cols row = (fun c => (name (h !!! c), (c, row))) <$> cols).
Proof.
  unfold _rowdict. split_and!.
  - apply dict_of_keys.
  - intros k. apply dict_of_get.
  - apply dict_of_NoDup.
Qed.

Section Facts.
Variable ColumnItem : string -> string -> Column.
Variable deduceType : Value -> string.
(** The column made for a key has the key as its name. *)
Hypothesis ColumnItem_name : ∀ k t, name (ColumnItem k t) = k.

Local Abbreviation addRow_keys := (addRow_keys ColumnItem deduceType).
Local Abbreviation addRow := (addRow ColumnItem deduceType).
Local Abbreviation reload := (reload ColumnItem deduceType).

Local Abbreviation names h js := ((fun c => name (h !!! c)) <$> columns (base js)).
Local Abbreviation seen :=
  (fun (acc : list string) k => if decide (k ∈ acc) then acc else acc ++ [k]).

(** What loading keeps: the columns are objects of the heap, [colnames]
    gives under a name a column of the sheet that has this name, and has
    every name a column of the sheet has. *)
Local Abbreviation wellnamed h js :=
  ((∀ c, c ∈ columns (base js) → c ∈ dom h) ∧
   (∀ k c, colnames js !! k = Some c → c ∈ columns (base js) ∧ name (h !!! c) = k) ∧
   (∀ k, k ∈ names h js → is_Some (colnames js !! k))).

Lemma addRow_keys_names (items : list (string * Value)) :
  ∀ (h : Heap) (js : JsonSheet) h' js',
    addRow_keys h js items = (h', js') →
    wellnamed h js →
    wellnamed h' js' ∧
    names h' js' = foldl seen (names h js) items.*1 ∧
    rows (base js') = rows (base js).
Proof.
  induction items as [|[k v] items IH]; intros h js h' js' Hrun (Hdom & Hcol & Hname).
  - simpl in Hrun. by simplify_eq.
  - cbn [Json.addRow_keys] in Hrun. rewrite fmap_cons. cbn [foldl fst].
    destruct (colnames js !! k) as [c0|] eqn:Hseen.
    + destruct (Hcol _ _ Hseen) as [Hc0 Hn0].
      rewrite decide_True.
      * by apply IH.
      * rewrite <- Hn0. by apply (list_elem_of_fmap_2 (fun c => name (h !!! c))).
    + rewrite decide_False.
      2:{ intros Hin. apply Hname in Hin as [? Hin]. congruence. }
      unfold alloc, addColumn in Hrun. cbn zeta in Hrun.
      pose proof (is_fresh (dom h)) as Hfresh.
      set (c0 := fresh (dom h)) in *.
      rewrite lookup_total_insert_eq, insert_insert_eq, JsonFacts.list_insert_end in Hrun.
      set (col := set_sheet (Some (sid (base js))) (ColumnItem k (deduceType v))) in *.
      assert (Hold : ∀ c, c ∈ columns (base js) → <[c0 := col]> h !!! c = h !!! c).
      { intros c Hc. rewrite lookup_total_insert_ne; [done|].
        intros <-. by apply Hfresh, Hdom. }
      assert (Hnames : (fun c => name (<[c0 := col]> h !!! c)) <$>
                         (columns (base js) ++ [c0]) = names h js ++ [k]).
      { rewrite fmap_app. f_equal.
        - apply list_fmap_ext. intros i c Hc. rewrite Hold; [done|].
          by eapply list_elem_of_lookup_2.
        - cbn. rewrite lookup_total_insert_eq. subst col. cbn. by rewrite ColumnItem_name. }
      eapply IH in Hrun as (Hinv & Hn & Hr).
      * split; [done|]. split; [|done]. rewrite Hn. cbn [base columns set_columns].
        by rewrite Hnames.
      * cbn [base colnames columns set_columns]. split_and!.
        -- intros c [Hc|Hc%list_elem_of_singleton]%elem_of_app; rewrite dom_insert.
           ++ by apply elem_of_union_r, Hdom.
           ++ by apply elem_of_union_l, elem_of_singleton.
        -- intros k' c. destruct (decide (k = k')) as [->|Hne].
           ++ rewrite lookup_insert_eq. intros [= <-]. split.
              ** apply elem_of_app. right. apply list_elem_of_here.
              ** rewrite lookup_total_insert_eq. subst col. cbn. by rewrite ColumnItem_name.
           ++ rewrite lookup_insert_ne by done. intros Hk'.
              destruct (Hcol _ _ Hk') as [Hc Hn]. split.
              ** apply elem_of_app. by left.
              ** by rewrite Hold.
        -- intros k'. rewrite Hnames.
           intros [Hin|Hin%list_elem_of_singleton]%elem_of_app.
           ++ destruct (decide (k = k')) as [->|Hne].
              ** rewrite lookup_insert_eq. by eexists.
              ** rewrite lookup_insert_ne by done. by apply Hname.
           ++ subst k'. rewrite lookup_insert_eq. by eexists.
Qed.

(** A row goes into the rows; a dict adds the columns of its new keys. *)
Lemma addRow_names (h : Heap) (js : JsonSheet) (row : Value) :
  wellnamed h js →
  let st := (addRow h js row None).1 in
  wellnamed st.1 st.2 ∧
  names st.1 st.2 = foldl seen (names h js) (keys_of row) ∧
  rows (base st.2) = rows (base js) ++ [row].
Proof.
  intros Hinv. unfold Json.addRow.
  destruct row as [| | | | |items]; try (cbn; by split; [|split]).
  destruct (addRow_keys h _ items) as [h1 js1] eqn:Hrun.
  apply addRow_keys_names in Hrun as (? & ? & ?); [|done].
  cbn [fst snd keys_of]. by split; [|split].
Qed.

Lemma reload_names (rs : list Value) :
  ∀ (h : Heap) (js : JsonSheet),
    wellnamed h js →
    let st := foldl (fun st r => (addRow st.1 st.2 r None).1) (h, js) rs in
    wellnamed st.1 st.2 ∧
    names st.1 st.2 = foldl seen (names h js) (concat (keys_of <$> rs)) ∧
    rows (base st.2) = rows (base js) ++ rs.
Proof.
  induction rs as [|r rs IH]; intros h js Hinv.
  - cbn. split; [done|]. split; [done|]. by rewrite app_nil_r.
  - cbn [foldl fst snd]. rewrite fmap_cons. cbn [concat]. rewrite foldl_app.
    destruct (addRow_names h js r Hinv) as (Hinv1 & Hn1 & Hr1).
    destruct (addRow h js r None) as [[h1 js1] ret]. cbn [fst snd] in *.
    destruct (IH h1 js1 Hinv1) as (Hinv2 & Hn2 & Hr2).
    split; [done|]. split.
    + by rewrite Hn2, Hn1.
    + by rewrite Hr2, Hr1, <- app_assoc.
Qed.

(** X20: reloading a [JsonSheet] from a document that is a dict (one
    row) or a list (its items are the rows) leaves these rows, in order;
    the columns are then named by the distinct keys of the dict rows, in
    the order the keys are first met; no two columns share a name, and
    [colnames] gives under a name exactly the column that has it. *)
Theorem reload_columns (h : Heap) (js : JsonSheet) (ret : Value) (rs : list Value) :
  iterload_rows ret = Some rs →
  ∃ h' js',
    reload h js ret = Some (h', js') ∧
    rows (base js') = rs ∧
    (fun c => name (h' !!! c)) <$> columns (base js') =
      first_seen (concat (keys_of <$> rs)) ∧
    NoDup (columns (base js')) ∧
    (∀ k c, colnames js' !! k = Some c ↔
            c ∈ columns (base js') ∧ name (h' !!! c) = k).
Proof.
  intros Hrs. unfold JsonIO.reload. rewrite Hrs.
  set (js0 := mkJsonSheet (set_columns [] (set_rows [] (base js))) ∅).
  destruct (reload_names rs h js0) as ((Hdom & Hcol & Hname) & Hn & Hr).
  { subst js0. cbn. split_and!.
    - by intros c ?%elem_of_nil.
    - intros k c. by rewrite lookup_empty.
    - by intros k ?%elem_of_nil. }
  destruct (foldl _ (h, js0) rs) as [h' js']. cbn [fst snd] in *.
  exists h', js'. split; [done|].
  change (names h js0) with (@nil string) in Hn. fold (first_seen (concat (keys_of <$> rs))) in Hn.
  assert (Hnd : NoDup ((fun c => name (h' !!! c)) <$> columns (base js'))).
  { rewrite Hn. apply first_seen_spec. }
  split_and!; [done|done|by eapply NoDup_fmap_1|].
  intros k c. split; [apply Hcol|]. intros [Hc Hk].
  destruct (Hname k) as [c' Hc'].
  { rewrite <- Hk. by apply (list_elem_of_fmap_2 (fun c => name (h' !!! c))). }
  rewrite Hc'. f_equal. destruct (Hcol _ _ Hc') as [Hin' Hk'].
  apply list_elem_of_lookup in Hc as [i Hi]. apply list_elem_of_lookup in Hin' as [i' Hi'].
  assert (i = i') as ->; [|congruence].
  eapply NoDup_lookup; [exact Hnd| |].
  - rewrite list_lookup_fmap, Hi. cbn. by rewrite Hk.
  - rewrite list_lookup_fmap, Hi'. cbn. by rewrite Hk'.
Qed.

End Facts.

Import Fixtures.

(** The document [[{"b": 1, "a": null}, 3, {"a": 2, "c": "x"}]]. *)
Lemma reload_columns_witness :
  ∃ h' js',
    reload column_item deduce_anytype heap_json sheet_json
      (JList [JDict [("b", JNum "1"); ("a", JNull)]; JNum "3";
              JDict [("a", JNum "2"); ("c", JStr "x")]]) = Some (h', js') ∧
    rows (base js') = [JDict [("b", JNum "1"); ("a", JNull)]; JNum "3";
                       JDict [("a", JNum "2"); ("c", JStr "x")]] ∧
    (fun c => name (h' !!! c)) <$> columns (base js') =
      first_seen (concat (keys_of <$> [JDict [("b", JNum "1"); ("a", JNull)]; JNum "3";
                                       JDict [("a", JNum "2"); ("c", JStr "x")]])) ∧
    NoDup (columns (base js')) ∧
    (∀ k c, colnames js' !! k = Some c ↔
            c ∈ columns (base js') ∧ name (h' !!! c) = k).
Proof.
  apply (reload_columns column_item deduce_anytype).
  - reflexivity.
  - reflexivity.
Defined.

End JsonIOFacts.

(** ** The command log: a row or a column written down, and found again *)

Module RoundTripFacts.
Import Py PyMore Sheets Views CmdLog Hook ViewFacts.

(** [indexMatch] gives the smallest index whose element passes, and
    [None] only if none does. *)
Lemma indexMatch_Some {A} (L : list A) (func : A → bool) (i : Z) :
  indexMatch L func = Some i →
  0 ≤ i ∧ (∃ x, L !! Z.to_nat i = Some x ∧ func x = true) ∧
  ∀ (j : nat) y, Z.of_nat j < i → L !! j = Some y → func y = false.
Proof.
  revert i. induction L as [|x L IH]; intros i; [done|]. cbn [indexMatch].
  destruct (func x) eqn:Hx.
  - intros [= <-]. split_and!; [done|by exists x|]. intros j y ?. lia.
  - destruct (indexMatch L func) as [i0|]; [|done]. intros [= <-].
    destruct (IH i0 eq_refl) as (H0 & (x0 & Hx0 & Hf0) & Hmin).
    split_and!; [lia| |].
    + exists x0. split; [|done].
      replace (Z.to_nat (i0 + 1)) with (S (Z.to_nat i0)) by lia. done.
    + intros [|j] y Hj; cbn; [by intros [= <-]|]. apply Hmin. lia.
Qed.

Lemma indexMatch_None {A} (L : list A) (func : A → bool) :
  indexMatch L func = None ↔ ∀ x, x ∈ L → func x = false.
Proof.
  induction L as [|x L IH]; cbn [indexMatch].
  - split; [|done]. by intros _ x ?%elem_of_nil.
  - destruct (func x) eqn:Hx.
    + split; [done|]. intros H. specialize (H x (list_elem_of_here _ _)). congruence.
    + destruct (indexMatch L func) as [i0|].
      * split; [done|]. intros H.
        assert (Hn : Some i0 = None); [|done].
        apply IH. intros y Hy. apply H. by apply list_elem_of_further.
      * split; [|done]. intros _ y [->|Hy]%elem_of_cons; [done|].
        by apply IH.
Qed.

Lemma indexMatch_is_Some {A} (L : list A) (func : A → bool) (k : nat) x :
  L !! k = Some x → func x = true →
  ∃ i, indexMatch L func = Some i ∧ i ≤ Z.of_nat k.
Proof.
  intros Hk Hx. destruct (indexMatch L func) as [i|] eqn:Hi.
  - exists i. split; [done|].
    destruct (indexMatch_Some _ _ _ Hi) as (H0 & _ & Hmin).
    destruct (Z.le_gt_cases i (Z.of_nat k)) as [?|Hgt]; [done|].
    specialize (Hmin k x ltac:(lia) Hk). congruence.
  - exfalso. assert (Hf : func x = false); [|congruence].
    eapply indexMatch_None; [done|]. by eapply list_elem_of_lookup_2.
Qed.

Lemma getitem_lookup {A} (l : list A) (i : Z) :
  0 ≤ i < len l → ∃ x, getitem l i = Returns x ∧ l !! Z.to_nat i = Some x.
Proof.
  intros Hi. unfold getitem, len in *.
  destruct (Z.ltb_spec i 0) as [?|_]; [lia|].
  destruct (Z.ltb_spec i 0) as [?|_]; [lia|].
  destruct (lookup_lt_is_Some_2 l (Z.to_nat i)) as [x Hx]; [lia|].
  exists x. by rewrite Hx.
Qed.

Lemma append_empty (s : string) : (s ++ "")%string = s.
Proof.
  induction s as [|c s IH]; [done|].
  change (String c (s ++ "")%string = String c s). by f_equal.
Qed.

Section Facts.
Context {Row TypedValue : Type}.
Variable getTypedValue : Column -> Row -> TypedValue.
Variable str : TypedValue -> string.
Variable int : string -> option Z.
Variable repr_int : Z -> string.
Variable rowkey_prefix : string.
Variable sheet_bool : Sheet Row -> bool.
Variable cmdlog_sheet : nat -> nat.

Local Abbreviation rowkey := (rowkey getTypedValue).
Local Abbreviation keystr := (keystr str rowkey_prefix).
Local Abbreviation getRowIndexFromStr :=
  (getRowIndexFromStr getTypedValue str int rowkey_prefix).
Local Abbreviation moveToRow := (moveToRow getTypedValue str int rowkey_prefix).
Local Abbreviation moveToCol := (moveToCol int).
Local Abbreviation rowname := (rowname getTypedValue str repr_int rowkey_prefix).
Local Abbreviation colname := (colname repr_int).
Local Abbreviation beforeExecHook :=
  (beforeExecHook getTypedValue str repr_int rowkey_prefix sheet_bool cmdlog_sheet).

(** The column under the cursor, for a cursor on a visible column. *)
Lemma cursorCol_lookup (h : Heap) (vs : Sheet Row) :
  1 ≤ nVisibleCols h vs → 0 ≤ cursorVisibleColIndex vs →
  ∃ c, cursorCol h vs = Returns (Some c) ∧
       visibleCols h vs !!
         Z.to_nat (Z.min (cursorVisibleColIndex vs) (nVisibleCols h vs - 1)) = Some c.
Proof.
  intros Hn Hc. unfold cursorCol. unfold nVisibleCols in *.
  destruct (getitem_lookup (visibleCols h vs)
              (Z.min (cursorVisibleColIndex vs) (len (visibleCols h vs) - 1)))
    as (c & Hget & Hlook); [unfold len in *; lia|].
  exists c. split; [|done].
  destruct (visibleCols h vs) as [|c0 l] eqn:Hv; [unfold len in Hn; cbn in Hn; lia|].
  by rewrite Hget.
Qed.

Lemma colname_returns (h : Heap) (vs : Sheet Row) (cmd : Command) :
  (reads_col cmd = true → 1 ≤ nVisibleCols h vs ∧ 0 ≤ cursorVisibleColIndex vs) →
  ∃ cn, colname h vs cmd = Returns cn.
Proof.
  intros Hcol. unfold Hook.colname. destruct (reads_col cmd); [|by eexists].
  destruct Hcol as [Hn Hc]; [done|].
  destruct (cursorCol_lookup h vs Hn Hc) as (c & -> & Hlook). cbn.
  destruct (truthy_str (name (h !!! c))); [by eexists|].
  destruct (list_index_elem (visibleCols h vs) c) as (i & -> & _).
  { by eapply list_elem_of_lookup_2. }
  by eexists.
Qed.

Lemma rowname_returns (h : Heap) (vs : Sheet Row) (cmd : Command) :
  nRows vs = 0 ∨ 0 ≤ cursorRowIndex vs < nRows vs →
  ∃ rn, rowname h vs cmd = Returns rn.
Proof.
  intros Hrow. unfold Hook.rowname.
  destruct (reads_row cmd && (0 <? nRows vs)) eqn:Hr; [|by eexists].
  apply andb_true_iff in Hr as [_ Hr%Z.ltb_lt].
  destruct Hrow as [?|Hrow]; [lia|].
  destruct (getitem_lookup (rows vs) (cursorRowIndex vs) Hrow) as (r & -> & _).
  by eexists.
Qed.

Lemma rowkey_nil (h : Heap) (vs : Sheet Row) (r : Row) :
  rowkey h vs r = [] ↔ keyCols h vs = [].
Proof.
  unfold CmdLog.rowkey. destruct (keyCols h vs); [done|]. split; discriminate.
Qed.

(** X21: a row written down and found again.  For a command that reads
    the cursor row, [beforeExecHook] writes into the row field of the
    active command the key of the cursor row, or its index when the sheet
    has no key column; [moveToRow], which a replay resolves this field
    with, then finds the first row that has this key, which is the cursor
    row or one before it, and with no key column the cursor row itself.
    (The index is written and read back as it is, and is not mistaken for
    a key, when [int(str(i)) == i] and [options.rowkey_prefix] alone is not
    the text of this index.) *)
Theorem record_row_round_trip (self vsid : nat) (h : Heap) (vs : Sheet Row)
    (cmd : Command) (args keystrokes : string) (ctl : Ctl) (rec : Recorder) :
  sheet_bool vs = true →
  cmd_longname cmd ≠ "open-file"%string →
  reads_row cmd = true →
  0 ≤ cursorRowIndex vs < nRows vs →
  (reads_col cmd = true → 1 ≤ nVisibleCols h vs ∧ 0 ≤ cursorVisibleColIndex vs) →
  int (repr_int (cursorRowIndex vs)) = Some (cursorRowIndex vs) →
  (keyCols h vs = [] → rowkey_prefix ≠ repr_int (cursorRowIndex vs)) →
  ∃ rec' r (i : Z) here there,
    beforeExecHook self vsid h vs cmd args keystrokes ctl rec = (rec', Returns tt) ∧
    activeCommand rec' = Some r ∧
    longname r = cmd_longname cmd ∧ input r = args ∧
    moveToRow false h vs (row r) = (set_cursorRowIndex i vs, Ok true) ∧
    0 ≤ i ≤ cursorRowIndex vs ∧
    rows vs !! Z.to_nat (cursorRowIndex vs) = Some here ∧
    rows vs !! Z.to_nat i = Some there ∧
    (keyCols h vs = [] → i = cursorRowIndex vs) ∧
    (keyCols h vs ≠ [] →
       keystr (rowkey h vs there) = keystr (rowkey h vs here) ∧
       ∀ (j : nat) r0, Z.of_nat j < i → rows vs !! j = Some r0 →
         keystr (rowkey h vs r0) ≠ keystr (rowkey h vs here)).
Proof.
  intros Hbool Hname Hreads Hrow Hcol Hint Hprefix.
  unfold Hook.beforeExecHook.
  set (rec1 := match activeCommand rec with
               | Some _ => afterExecSheet cmdlog_sheet self vsid false "" rec
               | None => rec
               end).
  rewrite Hbool. apply String.eqb_neq in Hname. rewrite Hname. cbn [andb negb].
  destruct (colname_returns h vs cmd Hcol) as (cn & Hcn).
  destruct (getitem_lookup (rows vs) (cursorRowIndex vs) Hrow) as (here & Hget & Hhere).
  assert (Hrn : rowname h vs cmd =
                Returns (match rowkey h vs here with
                         | [] => repr_int (cursorRowIndex vs)
                         | k => keystr k
                         end)).
  { unfold Hook.rowname. rewrite Hreads.
    destruct (Z.ltb_spec 0 (nRows vs)) as [_|?]; [|lia]. cbn [andb].
    by rewrite Hget. }
  rewrite Hrn, Hcn. cbn [mbind outcome_bind and_then].
  set (rn := match rowkey h vs here with
             | [] => repr_int (cursorRowIndex vs)
             | k => keystr k
             end) in *.
  (* what [getRowIndexFromStr] makes of the name *)
  assert (Hfound : ∃ (i : Z) there,
    getRowIndexFromStr h vs rn = Some i ∧ 0 ≤ i ≤ cursorRowIndex vs ∧
    rows vs !! Z.to_nat i = Some there ∧
    (keyCols h vs = [] → i = cursorRowIndex vs) ∧
    (keyCols h vs ≠ [] →
       keystr (rowkey h vs there) = keystr (rowkey h vs here) ∧
       ∀ (j : nat) r0, Z.of_nat j < i → rows vs !! j = Some r0 →
         keystr (rowkey h vs r0) ≠ keystr (rowkey h vs here))).
  { unfold CmdLog.getRowIndexFromStr.
    destruct (keyCols h vs) as [|kc kcs] eqn:Hk.
    - assert (Hrn0 : rn = repr_int (cursorRowIndex vs)).
      { subst rn. by rewrite (proj2 (rowkey_nil h vs here) Hk). }
      rewrite Hrn0.
      assert (Hnone : indexMatch (rows vs)
                        (fun r => String.eqb (keystr (rowkey h vs r))
                                    (repr_int (cursorRowIndex vs))) = None).
      { apply indexMatch_None. intros r _.
        rewrite (proj2 (rowkey_nil h vs r) Hk). unfold CmdLog.keystr. cbn.
        rewrite append_empty. apply String.eqb_neq. by apply Hprefix. }
      rewrite Hnone, Hint. exists (cursorRowIndex vs), here.
      split_and!; [done|lia|lia|done|done|done].
    - assert (Hrn0 : rn = keystr (rowkey h vs here)).
      { subst rn. destruct (rowkey h vs here) eqn:E; [|done].
        apply rowkey_nil in E. congruence. }
      rewrite Hrn0.
      destruct (indexMatch_is_Some (rows vs)
                  (fun r => String.eqb (keystr (rowkey h vs r)) (keystr (rowkey h vs here)))
                  (Z.to_nat (cursorRowIndex vs)) here Hhere) as (i & Hi & Hle).
      { apply String.eqb_refl. }
      rewrite Hi. destruct (indexMatch_Some _ _ _ Hi) as (H0 & (there & Hthere & Heq) & Hmin).
      exists i, there. split_and!; [done|lia|lia|done|done|].
      intros _. split; [by apply String.eqb_eq|].
      intros j r0 Hj Hr0. apply String.eqb_neq. by eapply Hmin. }
  destruct Hfound as (i & there & Hidx & Hi & Hthere & Hnokey & Hkey).
  eexists _, _, i, here, there. split; [reflexivity|].
  cbn [activeCommand longname input].
  split_and!; try done; try lia.
  change (moveToRow false h vs rn = (set_cursorRowIndex i vs, Ok true)).
  unfold CmdLog.moveToRow. by rewrite Hidx.
Qed.

(** X22: a column written down and found again.  For a command that
    reads the cursor column, [beforeExecHook] writes the name of the cursor
    column, or its place among the visible columns when it has no name;
    [moveToCol] then goes to the first visible column with this name (the
    cursor column or one before it), or for a column without a name to the
    first place of the column itself.  But a name that reads as an integer
    is taken for an index: [moveToCol] goes to that index, which need not
    be where the column is. *)
Theorem record_col_round_trip (self vsid : nat) (h : Heap) (vs : Sheet Row)
    (cmd : Command) (args keystrokes : string) (ctl : Ctl) (rec : Recorder) :
  sheet_bool vs = true →
  cmd_longname cmd ≠ "open-file"%string →
  reads_col cmd = true →
  0 ≤ cursorVisibleColIndex vs < nVisibleCols h vs →
  nRows vs = 0 ∨ 0 ≤ cursorRowIndex vs < nRows vs →
  (∀ j, 0 ≤ j ≤ cursorVisibleColIndex vs → int (repr_int j) = Some j) →
  ∃ rec' r c,
    beforeExecHook self vsid h vs cmd args keystrokes ctl rec = (rec', Returns tt) ∧
    activeCommand rec' = Some r ∧
    visibleCols h vs !! Z.to_nat (cursorVisibleColIndex vs) = Some c ∧
    (name (h !!! c) = ""%string →
       ∃ j : Z,
         moveToCol false h vs (col r) = (set_cursorVisibleColIndex j vs, Ok true) ∧
         0 ≤ j ≤ cursorVisibleColIndex vs ∧
         visibleCols h vs !! Z.to_nat j = Some c ∧
         ∀ j' : nat, Z.of_nat j' < j → visibleCols h vs !! j' ≠ Some c) ∧
    (name (h !!! c) ≠ ""%string → int (name (h !!! c)) = None →
       ∃ (j : Z) c',
         moveToCol false h vs (col r) = (set_cursorVisibleColIndex j vs, Ok true) ∧
         0 ≤ j ≤ cursorVisibleColIndex vs ∧
         visibleCols h vs !! Z.to_nat j = Some c' ∧
         name (h !!! c') = name (h !!! c) ∧
         ∀ (j' : nat) c0, Z.of_nat j' < j → visibleCols h vs !! j' = Some c0 →
           name (h !!! c0) ≠ name (h !!! c)) ∧
    (name (h !!! c) ≠ ""%string → ∀ j, int (name (h !!! c)) = Some j →
       moveToCol false h vs (col r) = (set_cursorVisibleColIndex j vs, Ok true)).
Proof.
  intros Hbool Hname Hreads Hcol Hrow Hint.
  unfold Hook.beforeExecHook.
  set (rec1 := match activeCommand rec with
               | Some _ => afterExecSheet cmdlog_sheet self vsid false "" rec
               | None => rec
               end).
  rewrite Hbool. apply String.eqb_neq in Hname. rewrite Hname. cbn [andb negb].
  destruct (rowname_returns h vs cmd Hrow) as (rn & ->).
  destruct (cursorCol_lookup h vs) as (c & Hcur & Hc); [lia|lia|].
  rewrite Z.min_l in Hc by lia.
  set (cn := if truthy_str (name (h !!! c)) then name (h !!! c)
             else match list_index (visibleCols h vs) c with
                  | Returns i => repr_int i
                  | Throws _ => ""%string
                  end).
  destruct (list_index_elem (visibleCols h vs) c) as (i0 & Hi0 & Hlook0 & Hfirst0).
  { by eapply list_elem_of_lookup_2. }
  assert (Hcn : colname h vs cmd = Returns cn).
  { unfold Hook.colname. rewrite Hreads, Hcur. cbn [mbind outcome_bind and_then]. subst cn.
    destruct (truthy_str (name (h !!! c))); [done|]. by rewrite Hi0. }
  rewrite Hcn. cbn [mbind outcome_bind and_then].
  eexists _, _, c. split; [reflexivity|]. cbn [activeCommand].
  split; [done|]. split; [done|].
  assert (Hi0le : Z.of_nat i0 ≤ cursorVisibleColIndex vs).
  { destruct (Z.le_gt_cases (Z.of_nat i0) (cursorVisibleColIndex vs)) as [?|Hgt]; [done|].
    exfalso. apply (Hfirst0 (Z.to_nat (cursorVisibleColIndex vs))); [lia|done]. }
  split_and!.
  - intros Hempty.
    change (∃ j : Z,
      moveToCol false h vs cn = (set_cursorVisibleColIndex j vs, Ok true) ∧
      0 ≤ j ≤ cursorVisibleColIndex vs ∧
      visibleCols h vs !! Z.to_nat j = Some c ∧
      ∀ j' : nat, Z.of_nat j' < j → visibleCols h vs !! j' ≠ Some c).
    assert (Hcn0 : cn = repr_int (Z.of_nat i0)).
    { subst cn. by rewrite Hempty, Hi0. }
    exists (Z.of_nat i0). rewrite Hcn0. unfold CmdLog.moveToCol.
    rewrite Hint by lia. rewrite Nat2Z.id.
    split_and!; [done|lia|done|done|]. intros j' Hj'. apply Hfirst0. lia.
  - intros Hnonempty Hnoint.
    change (∃ (j : Z) c',
      moveToCol false h vs cn = (set_cursorVisibleColIndex j vs, Ok true) ∧
      0 ≤ j ≤ cursorVisibleColIndex vs ∧
      visibleCols h vs !! Z.to_nat j = Some c' ∧
      name (h !!! c') = name (h !!! c) ∧
      ∀ (j' : nat) c0, Z.of_nat j' < j → visibleCols h vs !! j' = Some c0 →
        name (h !!! c0) ≠ name (h !!! c)).
    assert (Hcn0 : cn = name (h !!! c)).
    { subst cn. by destruct (name (h !!! c)). }
    rewrite Hcn0. unfold CmdLog.moveToCol. rewrite Hnoint.
    destruct (indexMatch_is_Some (visibleCols h vs)
                (fun c0 => String.eqb (name (h !!! c)) (name (h !!! c0)))
                (Z.to_nat (cursorVisibleColIndex vs)) c Hc) as (j & Hj & Hle).
    { apply String.eqb_refl. }
    rewrite Hj. destruct (indexMatch_Some _ _ _ Hj) as (H0 & (c' & Hc' & Heq) & Hmin).
    exists j, c'. apply String.eqb_eq in Heq.
    split_and!; [done|lia|lia|done|done|].
    intros j' c0 Hj' Hc0 Heq0. specialize (Hmin j' c0 Hj' Hc0).
    rewrite Heq0, String.eqb_refl in Hmin. done.
  - intros Hnonempty j Hj.
    change (moveToCol false h vs cn = (set_cursorVisibleColIndex j vs, Ok true)).
    assert (Hcn0 : cn = name (h !!! c)).
    { subst cn. by destruct (name (h !!! c)). }
    rewrite Hcn0. unfold CmdLog.moveToCol. by rewrite Hj.
Qed.

End Facts.

Import Fixtures HookFixtures.

Local Abbreviation hook_abc :=
  (beforeExecHook cell_value str_value repr_digit "k" (fun vs => true) S).

(** The command [edit-cell] on the sheet [abc], the cursor on row 1 (the
    second row) and on column 2 (the column [c]). *)
Lemma record_row_round_trip_witness :
  ∃ rec' r (i : Z) here there,
    hook_abc 9%nat 0%nat heap_abc (sheet_at 1 2) edit_cell "" "e" ctl_idle recorder_idle
      = (rec', Returns tt) ∧
    activeCommand rec' = Some r ∧
    longname r = cmd_longname edit_cell ∧ input r = ""%string ∧
    moveToRow cell_value str_value int_digit "k" false heap_abc (sheet_at 1 2) (row r) =
      (set_cursorRowIndex i (sheet_at 1 2), Ok true) ∧
    0 ≤ i ≤ cursorRowIndex (sheet_at 1 2) ∧
    rows (sheet_at 1 2) !! Z.to_nat (cursorRowIndex (sheet_at 1 2)) = Some here ∧
    rows (sheet_at 1 2) !! Z.to_nat i = Some there ∧
    (keyCols heap_abc (sheet_at 1 2) = [] → i = cursorRowIndex (sheet_at 1 2)) ∧
    (keyCols heap_abc (sheet_at 1 2) ≠ [] →
       keystr str_value "k" (rowkey cell_value heap_abc (sheet_at 1 2) there) =
       keystr str_value "k" (rowkey cell_value heap_abc (sheet_at 1 2) here) ∧
       ∀ (j : nat) r0, Z.of_nat j < i → rows (sheet_at 1 2) !! j = Some r0 →
         keystr str_value "k" (rowkey cell_value heap_abc (sheet_at 1 2) r0) ≠
         keystr str_value "k" (rowkey cell_value heap_abc (sheet_at 1 2) here)).
Proof.
  apply (record_row_round_trip cell_value str_value int_digit repr_digit "k"
           (fun vs => true) S 9%nat 0%nat heap_abc (sheet_at 1 2) edit_cell "" "e"
           ctl_idle recorder_idle).
  - reflexivity.
  - discriminate.
  - reflexivity.
  - vm_compute. split; discriminate || reflexivity.
  - intros _. vm_compute. split; discriminate.
  - reflexivity.
  - intros H. vm_compute in H. discriminate.
Defined.

Lemma record_col_round_trip_witness :
  ∃ rec' r c,
    hook_abc 9%nat 0%nat heap_abc (sheet_at 1 2) edit_cell "" "e" ctl_idle recorder_idle
      = (rec', Returns tt) ∧
    activeCommand rec' = Some r ∧
    visibleCols heap_abc (sheet_at 1 2) !!
      Z.to_nat (cursorVisibleColIndex (sheet_at 1 2)) = Some c ∧
    (name (heap_abc !!! c) = ""%string →
       ∃ j : Z,
         moveToCol int_digit false heap_abc (sheet_at 1 2) (col r) =
           (set_cursorVisibleColIndex j (sheet_at 1 2), Ok true) ∧
         0 ≤ j ≤ cursorVisibleColIndex (sheet_at 1 2) ∧
         visibleCols heap_abc (sheet_at 1 2) !! Z.to_nat j = Some c ∧
         ∀ j' : nat, Z.of_nat j' < j → visibleCols heap_abc (sheet_at 1 2) !! j' ≠ Some c) ∧
    (name (heap_abc !!! c) ≠ ""%string → int_digit (name (heap_abc !!! c)) = None →
       ∃ (j : Z) c',
         moveToCol int_digit false heap_abc (sheet_at 1 2) (col r) =
           (set_cursorVisibleColIndex j (sheet_at 1 2), Ok true) ∧
         0 ≤ j ≤ cursorVisibleColIndex (sheet_at 1 2) ∧
         visibleCols heap_abc (sheet_at 1 2) !! Z.to_nat j = Some c' ∧
         name (heap_abc !!! c') = name (heap_abc !!! c) ∧
         ∀ (j' : nat) c0, Z.of_nat j' < j →
           visibleCols heap_abc (sheet_at 1 2) !! j' = Some c0 →
           name (heap_abc !!! c0) ≠ name (heap_abc !!! c)) ∧
    (name (heap_abc !!! c) ≠ ""%string → ∀ j, int_digit (name (heap_abc !!! c)) = Some j →
       moveToCol int_digit false heap_abc (sheet_at 1 2) (col r) =
         (set_cursorVisibleColIndex j (sheet_at 1 2), Ok true)).
Proof.
  apply (record_col_round_trip cell_value str_value int_digit repr_digit "k"
           (fun vs => true) S 9%nat 0%nat heap_abc (sheet_at 1 2) edit_cell "" "e"
           ctl_idle recorder_idle).
  - reflexivity.
  - discriminate.
  - reflexivity.
  - vm_compute. split; discriminate || reflexivity.
  - right. vm_compute. split; discriminate || reflexivity.
  - intros j Hj. change (cursorVisibleColIndex (sheet_at 1 2)) with 2 in Hj.
    assert (j = 0 ∨ j = 1 ∨ j = 2) as [->|[->| ->]] by lia; reflexivity.
Defined.

End RoundTripFacts.
(** ** The first free file name *)

Module SuffixFacts.
Import Suffix.

Section Facts.
Variable path_exists : string -> bool.

Lemma fnSuffix_loop_spec (prefix : string) (n : nat) :
  ∀ (fuel i : nat),
    (i ≤ n)%nat → (n - i < fuel)%nat →
    path_exists (candidate prefix n) = false →
    (∀ j, (i ≤ j < n)%nat → path_exists (candidate prefix j) = true) →
    fnSuffix_loop path_exists prefix fuel i (candidate prefix i) =
      Some (candidate prefix n).
Proof.
  induction fuel as [|fuel IH]; intros i Hi Hfuel Hfree Hused; [lia|].
  cbn [fnSuffix_loop].
  destruct (decide (i = n)) as [->|Hne].
  - by rewrite Hfree.
  - rewrite Hused by lia.
    change (prefix ++ "-" ++ pretty (S i) ++ ".vd")%string with (candidate prefix (S i)).
    apply IH; [lia|lia|done|]. intros j Hj. apply Hused. lia.
Qed.

(** X23: [fnSuffix] gives the first of the names [prefix.vd],
    [prefix-1.vd], [prefix-2.vd], ... that no file has yet: the name it
    returns does not exist, and every name before it in this order
    does. *)
Theorem fnSuffix_first_free (prefix : string) (n fuel : nat) :
  path_exists (candidate prefix n) = false →
  (∀ j, (j < n)%nat → path_exists (candidate prefix j) = true) →
  (n < fuel)%nat →
  fnSuffix path_exists prefix fuel = Some (candidate prefix n).
Proof.
  intros Hfree Hused Hfuel. unfold fnSuffix.
  change (prefix ++ ".vd")%string with (candidate prefix 0).
  apply fnSuffix_loop_spec; [lia|lia|done|]. intros j Hj. apply Hused. lia.
Qed.

End Facts.

(** The files [log.vd] and [log-1.vd] exist: the name is [log-2.vd]. *)
Lemma fnSuffix_first_free_witness :
  fnSuffix (fun fn => String.eqb fn "log.vd" || String.eqb fn "log-1.vd") "log" 3 =
    Some (candidate "log" 2).
Proof.
  apply (fnSuffix_first_free
           (fun fn => String.eqb fn "log.vd" || String.eqb fn "log-1.vd") "log" 2 3).
  - reflexivity.
  - intros j Hj. assert (j = 0 ∨ j = 1)%nat as [->| ->] by lia; reflexivity.
  - lia.
Defined.

End SuffixFacts.

(** ** The command log: a paused replay *)

Module PauseFacts.
Import CmdLog.

(** With no timeout and nothing but the ticks of a clock, nobody
    releases the semaphore. *)
Lemma acquire_ticks (c : Ctl) (ticks : list UiEvent) :
  semaphore c = 0%nat → (∀ e, e ∈ ticks → e = Tick) →
  ∀ rest, acquire false c (ticks ++ rest) = acquire false c rest.
Proof.
  intros Hsem Hticks rest. induction ticks as [|e ticks IH]; [done|].
  rewrite (Hticks e (list_elem_of_here _ _)). cbn [app acquire]. rewrite Hsem.
  apply IH. intros e' He'. apply Hticks. by apply list_elem_of_further.
Qed.

(** X24: a paused replay.  While a replay is paused (and the semaphore
    holds no release) the wait between two entries does not end on its
    own, however many timer ticks pass; [advance-replay] ends it once,
    leaving the replay paused as before, so that one entry more is
    replayed; [pause-replay] ends it and leaves the replay running. *)
Theorem paused_replay_waits (c : Ctl) (ticks : list UiEvent) :
  paused c = true →
  semaphore c = 0%nat →
  is_Some (currentReplay c) →
  (∀ e, e ∈ ticks → e = Tick) →
  wait c ticks = None ∧
  wait c (ticks ++ [AdvanceReplay]) = Some c ∧
  wait c (ticks ++ [PauseReplay]) =
    Some (mkCtl (currentReplay c) (currentReplayRow c) false 0).
Proof.
  intros Hp Hsem [self Hself] Hticks. unfold wait. split_and!.
  - cbn [wait_loop]. unfold delay. rewrite Hp. cbn [negb].
    rewrite <- (app_nil_r ticks), acquire_ticks by done.
    cbn [acquire]. by rewrite Hsem.
  - cbn [wait_loop]. unfold delay. rewrite Hp. cbn [negb].
    rewrite acquire_ticks by done. cbn [acquire ui_event]. rewrite Hsem, Hself.
    cbn. destruct c as [cr crr p sem]. cbn in *. by subst.
  - cbn [wait_loop]. unfold delay. rewrite Hp. cbn [negb].
    rewrite acquire_ticks by done. cbn [acquire ui_event]. rewrite Hsem.
    unfold togglePause. rewrite Hself, Hp. cbn. by rewrite ?Hself, ?Hp, ?Hsem.
Qed.

Lemma paused_replay_waits_witness :
  wait (mkCtl (Some 9%nat) None true 0) [Tick; Tick] = None ∧
  wait (mkCtl (Some 9%nat) None true 0) ([Tick; Tick] ++ [AdvanceReplay]) =
    Some (mkCtl (Some 9%nat) None true 0) ∧
  wait (mkCtl (Some 9%nat) None true 0) ([Tick; Tick] ++ [PauseReplay]) =
    Some (mkCtl (currentReplay (mkCtl (Some 9%nat) None true 0))
            (currentReplayRow (mkCtl (Some 9%nat) None true 0)) false 0).
Proof.
  apply (paused_replay_waits (mkCtl (Some 9%nat) None true 0) [Tick; Tick]).
  - reflexivity.
  - reflexivity.
  - by eexists.
  - intros e He. repeat (apply elem_of_cons in He as [->|He]; [done|]).
    by apply elem_of_nil in He.
Defined.

End PauseFacts.

(** ** Wrapping a cell: the lines fit *)

Module WrapFitFacts.
Import Wrap WrapFacts.

(** A chunk is a run of whitespace, or has none in it. *)
Local Abbreviation solid s := (Forall (fun c => is_ws c = false) s).
Local Abbreviation spaces s := (Forall (fun c => is_ws c = true) s).

Lemma hyphen_not_ws c : is_hyphen c = true → is_ws c = false.
Proof.
  unfold is_hyphen, is_ws, between, is_code, code. intros H%Nat.eqb_eq.
  rewrite H. reflexivity.
Qed.

Lemma emdash_run s n : emdash s = Some n → n = run is_hyphen s.
Proof.
  unfold emdash. destruct (drop (run is_hyphen s) s) as [|c2 r2]; [done|].
  destruct ((2 <=? run is_hyphen s)%nat && is_word c2); [|done]. by intros [= <-].
Qed.

Lemma word_more_solid rest : ∀ prev, solid (take (word_more prev rest) rest).
Proof.
  induction rest as [|c rest IH]; intros prev; [constructor|].
  cbn [word_more].
  destruct (is_hyphen c && behind_hyphen prev && ahead_hyphen rest) eqn:Hh.
  - apply andb_true_iff in Hh as [Hh _]. apply andb_true_iff in Hh as [Hh _].
    cbn. constructor; [by apply hyphen_not_ws|]. rewrite take_0. constructor.
  - destruct (is_ws c) eqn:Hws; [constructor|].
    destruct (match prev with p :: _ => is_word_punct p | [] => false end
              && match emdash (c :: rest) with Some _ => true | None => false end);
      [constructor|].
    cbn. constructor; [done|]. apply IH.
Qed.

Lemma chunk_kind prev rest :
  spaces (take (chunk_len prev rest) rest) ∨ solid (take (chunk_len prev rest) rest).
Proof.
  destruct rest as [|c rest]; [left; constructor|]. cbn [chunk_len].
  destruct (is_ws c) eqn:Hws.
  - left. apply run_take.
  - right.
    destruct (if match prev with p :: _ => is_word_punct p | [] => false end
              then emdash (c :: rest) else None) as [n|] eqn:He.
    + assert (Hn : emdash (c :: rest) = Some n).
      { destruct (match prev with p :: _ => is_word_punct p | [] => false end); [done|].
        discriminate. }
      apply emdash_run in Hn. rewrite Hn.
      eapply Forall_impl; [apply (run_take is_hyphen (c :: rest))|].
      intros x. apply hyphen_not_ws.
    + cbn. constructor; [done|]. apply word_more_solid.
Qed.

Lemma split_from_kinds fuel : ∀ prev rest,
  Forall (fun chunk => chunk ≠ [] ∧ (spaces chunk ∨ solid chunk)) (split_from fuel prev rest).
Proof.
  induction fuel as [|fuel IH]; intros prev rest; [constructor|].
  cbn [split_from]. destruct rest as [|c rest]; [constructor|].
  constructor; [|apply IH]. split; [|apply chunk_kind].
  pose proof (chunk_len_pos prev c rest) as Hpos.
  destruct (chunk_len prev (c :: rest)); [lia|]. done.
Qed.

Lemma spaces_blank chunk : spaces chunk → blank chunk = true.
Proof.
  unfold blank. intros H. apply forallb_forall. intros c Hc%list_elem_of_In.
  apply is_ws_isspace. by eapply Forall_forall in H.
Qed.

Lemma strlen_concat_app (a b : list str) :
  strlen (concat (a ++ b)) = strlen (concat a) + strlen (concat b).
Proof. unfold strlen. rewrite concat_app, length_app. lia. Qed.

(** The chunks [fill] takes fit into what is left of the width. *)
Lemma fill_fits width chunks : ∀ cur_len line rest,
  fill width cur_len chunks = (line, rest) →
  line = [] ∨ cur_len + strlen (concat line) ≤ width.
Proof.
  induction chunks as [|c chunks IH]; intros cur_len line rest Hf; simpl in Hf.
  - simplify_eq. by left.
  - destruct (Z.leb_spec (cur_len + strlen c) width) as [Hfit|?]; [|simplify_eq; by left].
    destruct (fill width (cur_len + strlen c) chunks) as [l r] eqn:Hrec.
    simplify_eq. right. destruct (IH _ _ _ Hrec) as [->|Hle].
    + cbn. rewrite app_nil_r. lia.
    + cbn [concat]. unfold strlen in *. rewrite length_app. lia.
Qed.

Lemma drop_last_blank_shorter line :
  strlen (concat (drop_last_blank line)) ≤ strlen (concat line).
Proof.
  destruct (drop_last_blank_parts line) as (d & Hd & _).
  rewrite Hd at 2. rewrite strlen_concat_app. unfold strlen. lia.
Qed.

(** The line one pass makes fits the width, or is one chunk that is not
    blank. *)
Lemma wrap_line_fits width started chunks cur_line chunks' :
  0 ≤ width →
  wrap_line width started chunks = (cur_line, chunks') →
  strlen (concat cur_line) ≤ width ∨
  ∃ c, cur_line = [c] ∧ c ∈ chunks ∧ blank c = false.
Proof.
  intros Hw. unfold wrap_line.
  set (chunks1 := match chunks with
                  | c :: rest => if blank c && started then rest else chunks
                  | [] => chunks
                  end).
  assert (Hsub : ∀ c, c ∈ chunks1 → c ∈ chunks).
  { subst chunks1. destruct chunks as [|c0 rest]; [done|].
    destruct (blank c0 && started); [|done].
    intros c Hc. by apply list_elem_of_further. }
  clearbody chunks1.
  destruct (fill width 0 chunks1) as [line rest] eqn:Hf.
  pose proof (fill_app _ _ _ _ _ Hf) as Happ.
  pose proof (fill_fits _ _ _ _ _ Hf) as Hfit.
  assert (Hline : strlen (concat line) ≤ width).
  { destruct Hfit as [->|?]; [unfold strlen; cbn; lia|lia]. }
  assert (Hgen : ∀ l r, (l, r) = (line, rest) →
            strlen (concat (drop_last_blank l)) ≤ width).
  { intros l r [= -> ->]. pose proof (drop_last_blank_shorter line). lia. }
  destruct rest as [|c r].
  { intros [= <- <-]. left. by eapply Hgen. }
  destruct (width <? strlen c); [|intros [= <- <-]; left; by eapply Hgen].
  destruct line as [|l0 line]; [|intros [= <- <-]; left; by eapply Hgen].
  intros [= <- <-]. unfold drop_last_blank. cbn [last].
  destruct (blank c) eqn:Hb.
  - left. unfold strlen. cbn. lia.
  - right. exists c. split_and!; [done| |done].
    apply Hsub. rewrite Happ. apply list_elem_of_here.
Qed.

Lemma wrap_line_chunks width started chunks cur_line chunks' :
  wrap_line width started chunks = (cur_line, chunks') →
  (∀ c, c ∈ cur_line → c ∈ chunks) ∧ (∀ c, c ∈ chunks' → c ∈ chunks).
Proof.
  intros Hw. destruct (wrap_line_parts _ _ _ _ _ Hw) as (d1 & d2 & -> & _).
  split; intros c Hc; rewrite !elem_of_app; tauto.
Qed.

Lemma concat_nonempty (cs : list str) :
  cs ≠ [] → Forall (fun c => c ≠ []) cs → concat cs ≠ [].
Proof.
  destruct cs as [|c cs]; [done|]. intros _ Hne. apply Forall_cons in Hne as [Hc _].
  cbn. destruct c; [done|]. done.
Qed.

Lemma wrap_chunks_fit width fuel : ∀ lines chunks,
  0 ≤ width →
  Forall (fun chunk => chunk ≠ [] ∧ (spaces chunk ∨ solid chunk)) chunks →
  ∀ line, line ∈ wrap_chunks fuel width lines chunks →
    line ∈ lines ∨ (line ≠ [] ∧ (strlen line ≤ width ∨ solid line)).
Proof.
  induction fuel as [|fuel IH]; intros lines chunks Hw Hk line Hin; [by left|].
  cbn [wrap_chunks] in Hin. destruct chunks as [|c0 chunks0]; [by left|].
  set (chunks := c0 :: chunks0) in *.
  destruct (wrap_line width (match lines with [] => false | _ => true end) chunks)
    as [cur_line chunks'] eqn:Hline.
  destruct (wrap_line_chunks _ _ _ _ _ Hline) as [Hcur Hrest].
  assert (Hk' : Forall (fun chunk => chunk ≠ [] ∧ (spaces chunk ∨ solid chunk)) chunks').
  { apply Forall_forall. intros c Hc. eapply Forall_forall in Hk; [exact Hk|]. by apply Hrest. }
  apply IH in Hin; [|done|done].
  destruct Hin as [Hin|Hin]; [|by right].
  destruct cur_line as [|l0 cur_line0] eqn:Hcl; [by left|]. rewrite <- Hcl in *.
  apply elem_of_app in Hin as [Hin|Hin%list_elem_of_singleton]; [by left|].
  right. subst line. split.
  - apply concat_nonempty; [by rewrite Hcl|].
    apply Forall_forall. intros c Hc.
    eapply Forall_forall in Hk; [by destruct Hk|]. by apply Hcur.
  - destruct (wrap_line_fits _ _ _ _ _ Hw Hline) as [?|(c & Hc & Hcin & Hb)]; [by left|].
    right. rewrite Hc. cbn. rewrite app_nil_r.
    eapply Forall_forall in Hk; [|exact Hcin]. destruct Hk as [_ [Hsp|Hso]]; [|done].
    apply spaces_blank in Hsp. congruence.
Qed.

(** X25: with wrapping on and a width above 0, no line [splitcell]
    gives is empty, and every line fits the width unless it is one piece
    with no space, tab or line break in it, which cannot be broken
    ([break_long_words] is off). *)
Theorem splitcell_lines_fit (s : str) (width : Z) (line : str) :
  0 < width →
  line ∈ splitcell true s width →
  line ≠ [] ∧ (strlen line ≤ width ∨ Forall (fun c => is_ws c = false) line).
Proof.
  intros Hw. unfold splitcell.
  destruct (Z.leb_spec width 0) as [?|_]; [lia|]. cbn [orb negb].
  intros Hin. apply list_elem_of_In, in_flat_map in Hin as (L & _ & Hin%list_elem_of_In).
  unfold wrap in Hin.
  apply wrap_chunks_fit in Hin as [Hin|Hin]; [by apply elem_of_nil in Hin|done|lia|].
  apply split_from_kinds.
Qed.

Lemma splitcell_lines_fit_witness :
  list_ascii_of_string "hello" ≠ [] ∧
  (strlen (list_ascii_of_string "hello") ≤ 3 ∨
   Forall (fun c => is_ws c = false) (list_ascii_of_string "hello")).
Proof.
  apply (splitcell_lines_fit Fixtures.two_words 3 (list_ascii_of_string "hello")).
  - lia.
  - vm_compute. apply list_elem_of_here.
Defined.

End WrapFitFacts.

(** ** Checking the cursor twice *)

Module CursorAgain.
Import Py Sheets LayoutFacts CursorFacts LayoutAgain PageFacts.

Section Facts.
Context {Row : Type}.
Variable getMaxWidth : Column -> list Row -> Z.
Variable options : Options.

Local Abbreviation calcColLayout := (calcColLayout getMaxWidth options).
Local Abbreviation checkCursor_loop := (checkCursor_loop getMaxWidth options).
Local Abbreviation checkCursor := (checkCursor getMaxWidth options).
Local Abbreviation rows_settled h s := (scrollRows h (clampTopRow (clampCursorRow s))).

(** The layout computed from the state a first computation left is the
    same layout, and leaves the same state. *)
Lemma calcColLayout_again h (s : Sheet Row) h1 s1 :
  calcColLayout h s = (h1, s1) → calcColLayout h1 s1 = (h1, s1).
Proof.
  unfold Sheets.calcColLayout.
  pose proof (loop_flags getMaxWidth options s (keyCols h s) (nVisibleCols h s)
                (visibleRows h s) (visibleCols h s) 0 h ∅ 0 0) as Hf.
  pose proof (loop_heap getMaxWidth options s (keyCols h s) (nVisibleCols h s)
                (visibleRows h s) (visibleCols h s) 0 h ∅ 0 0) as Hheap.
  destruct (calcColLayout_loop getMaxWidth options s (keyCols h s) (nVisibleCols h s)
              (visibleRows h s) (visibleCols h s) 0 (h, ∅, 0) 0)
    as [[[h0 layout] x1] last] eqn:Hrun.
  cbn [fst snd] in *. destruct Hheap as (Hn & _ & _). intros [= <- <-].
  set (s1 := set_colLayout layout last s).
  assert (Hk : keyCols h0 s1 = keyCols h s).
  { by destruct (same_flags_visibleCols h h0 s1 Hf) as [-> _]. }
  assert (Hv : visibleCols h0 s1 = visibleCols h s).
  { by destruct (same_flags_visibleCols h h0 s1 Hf) as [_ ->]. }
  assert (Hr : visibleRows h0 s1 = visibleRows h s).
  { unfold visibleRows, nVisibleRows. by rewrite (nHeaderRows_heap h h0 s1 Hf Hn). }
  unfold nVisibleCols. rewrite Hk, Hv, Hr.
  rewrite (loop_sheet getMaxWidth options s s1) by done.
  fold (nVisibleCols h s).
  by rewrite (loop_again _ _ _ _ _ _ _ _ _ _ _ _ _ _ _ _ Hrun).
Qed.

(** Where the horizontal scroll stops it stays: the left offset has
    reached the cursor, or the scroll run again from there stops at
    once. *)
Lemma checkCursor_loop_fixed (fuel : nat) :
  ∀ h (s : Sheet Row) h' s',
    checkCursor_loop fuel h s = Some (Ok (h', s')) →
    leftVisibleColIndex s' = cursorVisibleColIndex s' ∨
    ∀ fuel', checkCursor_loop (S fuel') h' s' = Some (Ok (h', s')).
Proof.
  induction fuel as [|fuel IH]; intros h s h' s' Hrun; [done|].
  cbn [Sheets.checkCursor_loop] in Hrun.
  destruct (leftVisibleColIndex s =? cursorVisibleColIndex s) eqn:Hhead.
  { simplify_eq. left. by apply Z.eqb_eq. }
  pose proof (calcColLayout_frame getMaxWidth options h s) as Hfr.
  destruct (calcColLayout h s) as [h1 s1] eqn:Hcalc.
  destruct Hfr as (_ & _ & _ & _ & _ & Hcv & Hlv & _).
  destruct (Py.min (layout_keys s1)) as [lo|] eqn:Hlo; [|done].
  destruct (Py.max (layout_keys s1)) as [hi|] eqn:Hhi; [|done].
  destruct (cursorVisibleColIndex s1 <? lo) eqn:Hbelow; [done|].
  destruct (hi <? cursorVisibleColIndex s1) eqn:Habove; [by eapply IH|].
  destruct (visibleColLayout s1 !! cursorVisibleColIndex s1) as [[cur_x cur_w]|] eqn:Hcur;
    [|done].
  destruct (cur_x + cur_w <? windowWidth s1) eqn:Hfit; [|by eapply IH].
  simplify_eq. right. intros fuel'. cbn [Sheets.checkCursor_loop].
  assert (Hhead1 : (leftVisibleColIndex s' =? cursorVisibleColIndex s') = false)
    by (by rewrite Hlv, Hcv).
  rewrite Hhead1, (calcColLayout_again _ _ _ _ Hcalc), Hlo, Hhi.
  by rewrite Hbelow, Habove, Hcur, Hfit.
Qed.

(** Writing into a field the value it has changes nothing. *)
Lemma set_cursorRowIndex_same (s : Sheet Row) v :
  v = cursorRowIndex s → set_cursorRowIndex v s = s.
Proof. intros ->. by destruct s. Qed.
Lemma set_cursorVisibleColIndex_same (s : Sheet Row) v :
  v = cursorVisibleColIndex s → set_cursorVisibleColIndex v s = s.
Proof. intros ->. by destruct s. Qed.
Lemma set_topRowIndex_same (s : Sheet Row) v :
  v = topRowIndex s → set_topRowIndex v s = s.
Proof. intros ->. by destruct s. Qed.
Lemma set_leftVisibleColIndex_same (s : Sheet Row) v :
  v = leftVisibleColIndex s → set_leftVisibleColIndex v s = s.
Proof. intros ->. by destruct s. Qed.

(** A cursor and a top row that are in bounds, the cursor on the screen:
    the clamps and the vertical scroll change nothing. *)
Lemma rows_settled_fixed h (s : Sheet Row) :
  0 ≤ cursorRowIndex s < nRows s →
  0 ≤ topRowIndex s ≤ cursorRowIndex s →
  cursorRowIndex s < topRowIndex s + nVisibleRows h s →
  rows_settled h s = s.
Proof.
  intros Hc Ht Hs.
  assert (H1 : clampCursorRow s = s).
  { unfold clampCursorRow.
    destruct (Z.eqb_spec (nRows s) 0); [lia|]. cbn [orb].
    destruct (Z.leb_spec (cursorRowIndex s) 0); [apply set_cursorRowIndex_same; lia|].
    destruct (Z.leb_spec (nRows s) (cursorRowIndex s)); [lia|done]. }
  rewrite H1.
  assert (H2 : clampTopRow s = s).
  { unfold clampTopRow.
    destruct (Z.leb_spec (topRowIndex s) 0); [apply set_topRowIndex_same; lia|].
    destruct (Z.ltb_spec (nRows s - 1) (topRowIndex s)); [lia|done]. }
  rewrite H2. unfold scrollRows. cbv zeta.
  destruct (Z.ltb_spec (cursorRowIndex s - topRowIndex s + nHeaderRows h s)
              (nHeaderRows h s)); [lia|].
  destruct (Z.ltb_spec (nHeaderRows h s + nVisibleRows h s - 1)
              (cursorRowIndex s - topRowIndex s + nHeaderRows h s)); [lia|done].
Qed.

(** [checkCursor] in two steps: the rows settle and the column cursor is
    clamped to [v]; then the left offset is put on the cursor, or the
    horizontal scroll runs. *)
Lemma checkCursor_steps (fuel : nat) h (s : Sheet Row) :
  1 ≤ nVisibleCols h s →
  let v := Z.max 0 (Z.min (cursorVisibleColIndex s) (nVisibleCols h s - 1)) in
  let r := set_cursorVisibleColIndex v (rows_settled h s) in
  checkCursor fuel h s =
    if v - leftVisibleColIndex s <=? 0
    then Some (Ok (h, set_leftVisibleColIndex v r))
    else checkCursor_loop fuel h r.
Proof.
  intros Hnv v r. unfold Sheets.checkCursor.
  set (s1 := clampCursorRow s).
  assert (H1 : columns s1 = columns s ∧ leftVisibleColIndex s1 = leftVisibleColIndex s ∧
               cursorVisibleColIndex s1 = cursorVisibleColIndex s).
  { subst s1. unfold clampCursorRow.
    destruct ((nRows s =? 0) || (cursorRowIndex s <=? 0)); [done|].
    by destruct (nRows s <=? cursorRowIndex s). }
  destruct H1 as (Hc1 & Hl1 & Hcv1).
  assert (Hnv1 : nVisibleCols h s1 = nVisibleCols h s).
  { unfold nVisibleCols, visibleCols, keyCols. by rewrite Hc1. }
  assert (H2 : clampCursorCol h s1 = set_cursorVisibleColIndex v s1).
  { unfold clampCursorCol. rewrite Hnv1, Hcv1. subst v.
    destruct (Z.leb_spec (cursorVisibleColIndex s) 0);
      [|destruct (Z.leb_spec (nVisibleCols h s) (cursorVisibleColIndex s))].
    - f_equal. lia.
    - f_equal. lia.
    - symmetry. apply set_cursorVisibleColIndex_same. lia. }
  rewrite H2, clampTopRow_col, scrollRows_col. fold r.
  assert (Hl : leftVisibleColIndex (set_cursorVisibleColIndex v (clampTopRow s1))
               = leftVisibleColIndex s).
  { cbn. rewrite <- Hl1. unfold clampTopRow.
    destruct (topRowIndex s1 <=? 0); [done|].
    by destruct (nRows s1 - 1 <? topRowIndex s1). }
  rewrite Hl. by cbn [cursorVisibleColIndex set_cursorVisibleColIndex].
Qed.

Lemma rows_settled_frame h (s : Sheet Row) :
  let r := rows_settled h s in
  rows r = rows s ∧ columns r = columns s ∧ rowLayout r = rowLayout s ∧
  windowHeight r = windowHeight s ∧ windowWidth r = windowWidth s ∧
  leftVisibleColIndex r = leftVisibleColIndex s.
Proof.
  unfold scrollRows, clampTopRow, clampCursorRow. cbv zeta.
  repeat match goal with |- context [if ?b then _ else _] => destruct b end;
    cbn; split_and!; done.
Qed.

(** X26: [checkCursor] is idempotent on a sheet with a row, a visible
    column and a page of one row at least: run again on the state it left,
    it returns with this very state (cursor, offsets, layout and column
    widths). *)
Theorem checkCursor_idempotent (fuel : nat) h (s : Sheet Row) :
  1 ≤ nVisibleCols h s →
  1 ≤ windowWidth s →
  (Z.to_nat (nVisibleCols h s - leftVisibleColIndex s) ≤ fuel)%nat →
  1 ≤ nRows s →
  1 ≤ nVisibleRows h s →
  ∃ h' s', checkCursor fuel h s = Some (Ok (h', s')) ∧
           checkCursor fuel h' s' = Some (Ok (h', s')).
Proof.
  intros Hnv HW Hfuel Hn Hvr.
  rewrite (checkCursor_steps fuel h s Hnv). cbv zeta.
  set (v := Z.max 0 (Z.min (cursorVisibleColIndex s) (nVisibleCols h s - 1))).
  assert (Hv : 0 ≤ v < nVisibleCols h s) by lia.
  destruct (rows_settled_frame h s) as (Hrr & Hrc & Hrrl & Hrwh & Hrw & Hrl).
  destruct (rows_settled_spec h s) as [Hc1 Ht1].
  set (r0 := rows_settled h s) in *.
  (* the rows are settled *)
  assert (Hrows : 0 ≤ cursorRowIndex r0 < nRows s ∧
                  0 ≤ topRowIndex r0 ≤ cursorRowIndex r0 ∧
                  cursorRowIndex r0 < topRowIndex r0 + nVisibleRows h s).
  { rewrite Hc1, Ht1. clear -Hn Hvr.
    repeat (match goal with
    | |- context [?a =? ?b] => destruct (Z.eqb_spec a b)
    | |- context [?a <=? ?b] => destruct (Z.leb_spec a b)
    | |- context [?a <? ?b] => destruct (Z.ltb_spec a b)
    | H : context [?a =? ?b] |- _ => destruct (Z.eqb_spec a b)
    | H : context [?a <=? ?b] |- _ => destruct (Z.leb_spec a b)
    | H : context [?a <? ?b] |- _ => destruct (Z.ltb_spec a b)
    end; cbn [orb] in * ); lia. }
  clear Hc1 Ht1. destruct Hrows as (Hcr & Htr & Hsr).
  (* what a second run does with a state whose rows are settled *)
  assert (Hsecond : ∀ h' s',
    same_flags h h' → (∀ c, name (h' !!! c) = name (h !!! c)) →
    rows s' = rows s → columns s' = columns s → rowLayout s' = rowLayout s →
    windowHeight s' = windowHeight s →
    cursorRowIndex s' = cursorRowIndex r0 → topRowIndex s' = topRowIndex r0 →
    cursorVisibleColIndex s' = v →
    checkCursor fuel h' s' =
      if v - leftVisibleColIndex s' <=? 0
      then Some (Ok (h', set_leftVisibleColIndex v s'))
      else checkCursor_loop fuel h' s').
  { intros h' s' Hf Hnm Hr' Hc' Hrl' Hwh' Hcr' Htr' Hcv'.
    assert (Hnv' : nVisibleCols h' s' = nVisibleCols h s).
    { unfold nVisibleCols. destruct (same_flags_visibleCols h h' s' Hf) as [_ ->].
      unfold visibleCols, keyCols. by rewrite Hc'. }
    assert (Hvr' : nVisibleRows h' s' = nVisibleRows h s).
    { by apply nVisibleRows_ext. }
    rewrite (checkCursor_steps fuel h' s') by lia. cbv zeta.
    rewrite Hnv', Hcv'. fold v.
    replace (Z.max 0 (Z.min v (nVisibleCols h s - 1))) with v by lia.
    rewrite rows_settled_fixed.
    - by rewrite (set_cursorVisibleColIndex_same s' v).
    - unfold nRows. rewrite Hr', Hcr'. apply Hcr.
    - rewrite Hcr', Htr'. apply Htr.
    - rewrite Hcr', Htr', Hvr'. apply Hsr. }
  destruct (Z.leb_spec (v - leftVisibleColIndex s) 0) as [Hx|Hx].
  - eexists _, _. split; [reflexivity|].
    rewrite Hsecond; try done.
    cbn [leftVisibleColIndex set_leftVisibleColIndex].
    destruct (Z.leb_spec (v - v) 0) as [_|?]; [|lia].
    by rewrite (set_leftVisibleColIndex_same _ v).
  - destruct (checkCursor_loop_returns getMaxWidth options fuel h
                (set_cursorVisibleColIndex v r0))
      as (h' & s' & Hrun & Hf & Hr' & Hc' & Hcr' & Htr' & Hcv' & Hl').
    { cbn. lia. }
    { change (nVisibleCols h (set_cursorVisibleColIndex v r0)) with (nVisibleCols h r0).
      unfold nVisibleCols, visibleCols, keyCols in *. rewrite Hrc. cbn. lia. }
    { cbn. lia. }
    { cbn. lia. }
    destruct (checkCursor_loop_frame getMaxWidth options _ _ _ _ _ Hrun)
      as (Hnm & Hrl' & Hwh' & _).
    pose proof (checkCursor_loop_fixed _ _ _ _ _ Hrun) as Hfix.
    cbn in Hr', Hc', Hcr', Htr', Hcv', Hl', Hrl', Hwh'.
    exists h', s'. split; [done|].
    rewrite Hsecond; try congruence; try done.
    destruct (Z.leb_spec (v - leftVisibleColIndex s') 0) as [Hx'|Hx'].
    + by rewrite (set_leftVisibleColIndex_same s' v) by lia.
    + destruct Hfix as [Heq|Hfix]; [lia|].
      destruct fuel as [|fuel']; [lia|]. apply Hfix.
Qed.

End Facts.

Import Fixtures MoreFixtures.

Lemma checkCursor_idempotent_witness :
  ∃ h' s',
    Sheets.checkCursor maxw opts 3 heap_abc
      (set_cursorVisibleColIndex 7 (set_cursorRowIndex 9 (sheet_five 1)))
      = Some (Ok (h', s')) ∧
    Sheets.checkCursor maxw opts 3 h' s' = Some (Ok (h', s')).
Proof.
  apply (checkCursor_idempotent maxw opts 3 heap_abc
           (set_cursorVisibleColIndex 7 (set_cursorRowIndex 9 (sheet_five 1))));
    vm_compute; (discriminate || lia).
Defined.

End CursorAgain.

(** ** A page to the left *)

Module PagingFacts.
Import Py PyMore Sheets Views Paging LayoutFacts CursorFacts.

Section Facts.
Context {Row : Type}.
Variable getMaxWidth : Column -> list Row -> Z.
Variable options : Options.

Local Abbreviation body := (calcColLayout_body getMaxWidth options).
Local Abbreviation loop := (calcColLayout_loop getMaxWidth options).
Local Abbreviation calcColLayout := (calcColLayout getMaxWidth options).
Local Abbreviation tandem_left := (tandem_left getMaxWidth options).
Local Abbreviation pageLeft_shift := (pageLeft_shift getMaxWidth options).
Local Abbreviation pageLeft_squeeze := (pageLeft_squeeze getMaxWidth options).
Local Abbreviation pageLeft := (pageLeft getMaxWidth options).
Local Abbreviation go_rightmost := (go_rightmost getMaxWidth options).

(** What is the same in two states of a sheet of which the second comes
    from the first by steps of [pageLeft]: everything but the layout, the
    widths, and the two column indexes, which move together. *)
Local Abbreviation kept h s h' s' :=
  (same_flags h h' ∧ (∀ r : ref, name (h' !!! r) = name (h !!! r)) ∧
   rows s' = rows s ∧ columns s' = columns s ∧
   cursorRowIndex s' = cursorRowIndex s ∧ topRowIndex s' = topRowIndex s ∧
   rowLayout s' = rowLayout s ∧ windowHeight s' = windowHeight s ∧
   windowWidth s' = windowWidth s ∧
   cursorVisibleColIndex s' - leftVisibleColIndex s' =
     cursorVisibleColIndex s - leftVisibleColIndex s).

Lemma kept_refl h (s : Sheet Row) : kept h s h s.
Proof. split_and!; done. Qed.

Lemma kept_trans h1 (s1 : Sheet Row) h2 s2 h3 s3 :
  kept h1 s1 h2 s2 → kept h2 s2 h3 s3 → kept h1 s1 h3 s3.
Proof.
  intros (Hf & Hn & ? & ? & ? & ? & ? & ? & ? & ?) (Hf' & Hn' & ? & ? & ? & ? & ? & ? & ? & ?).
  split_and!;
    first [ by eapply same_flags_trans | (intros r; by rewrite Hn') | congruence | lia ].
Qed.

Lemma calcColLayout_kept h (s : Sheet Row) :
  kept h s (calcColLayout h s).1 (calcColLayout h s).2 ∧
  leftVisibleColIndex (calcColLayout h s).2 = leftVisibleColIndex s.
Proof.
  pose proof (calcColLayout_frame getMaxWidth options h s) as Hfr.
  assert (Hcalc : (∀ r, name ((calcColLayout h s).1 !!! r) = name (h !!! r)) ∧
                  rowLayout (calcColLayout h s).2 = rowLayout s ∧
                  windowHeight (calcColLayout h s).2 = windowHeight s).
  { unfold Sheets.calcColLayout.
    pose proof (LayoutAgain.loop_heap getMaxWidth options s (keyCols h s)
                  (nVisibleCols h s) (visibleRows h s) (visibleCols h s) 0 h ∅ 0 0) as Hheap.
    destruct (calcColLayout_loop _ _ _ _ _ _ _ _ _ _) as [[[h1 layout] x] last].
    cbn [fst snd] in *. by destruct Hheap as (? & _). }
  destruct (calcColLayout h s) as [h1 s1]. cbn [fst snd] in *.
  destruct Hfr as (? & ? & ? & ? & ? & ? & ? & ?). destruct Hcalc as (? & ? & ?).
  split_and!; try done. lia.
Qed.

Lemma tandem_left_kept h (s : Sheet Row) :
  kept h s (tandem_left h s).1 (tandem_left h s).2 ∧
  leftVisibleColIndex (tandem_left h s).2 = leftVisibleColIndex s - 1.
Proof.
  unfold Paging.tandem_left. cbv zeta.
  match goal with |- context [calcColLayout h ?s0] =>
    destruct (calcColLayout_kept h s0) as [(? & ? & ? & ? & ? & ? & ? & ? & ? & Ht) Hl] end.
  cbn in *. split_and!; try done. lia.
Qed.

(** The lists of columns and the rows on the screen are the same in both. *)
Lemma kept_views h (s : Sheet Row) h' s' :
  kept h s h' s' →
  keyCols h' s' = keyCols h s ∧ visibleCols h' s' = visibleCols h s ∧
  nVisibleCols h' s' = nVisibleCols h s ∧ visibleRows h' s' = visibleRows h s.
Proof.
  intros (Hf & Hn & Hr & Hc & _ & Ht & Hrl & Hwh & _).
  destruct (same_flags_visibleCols h h' s' Hf) as [Hk Hv].
  assert (Hk' : keyCols h' s' = keyCols h s).
  { rewrite Hk. unfold keyCols. by rewrite Hc. }
  assert (Hv' : visibleCols h' s' = visibleCols h s).
  { rewrite Hv. unfold visibleCols, keyCols. by rewrite Hc. }
  split_and!; [done|done| |].
  - unfold nVisibleCols. by rewrite Hv'.
  - unfold visibleRows. rewrite Hr, Ht.
    by rewrite (PageFacts.nVisibleRows_ext h h' s s' Hf Hn Hc Hrl Hwh).
Qed.

(** The first loop returns, after at most as many rounds as the left
    offset is right of the first column that is no key column. *)
Lemma pageLeft_shift_returns (targetIdx first : Z) (fuel : nat) :
  ∀ h (s : Sheet Row),
    (Z.to_nat (leftVisibleColIndex s - first) < fuel)%nat →
    ∃ h' s', pageLeft_shift fuel targetIdx first h s = Some (h', s') ∧
             kept h s h' s' ∧
             leftVisibleColIndex s' ≤ leftVisibleColIndex s ∧
             Z.min first (leftVisibleColIndex s) ≤ leftVisibleColIndex s' ∧
             ((h', s') = (h, s) ∨
              ∃ h0 s0, kept h s h0 s0 ∧
                       first < leftVisibleColIndex s0 ≤ leftVisibleColIndex s ∧
                       (h', s') = tandem_left h0 s0).
Proof.
  induction fuel as [|fuel IH]; intros h s Hfuel; [lia|].
  cbn [Paging.pageLeft_shift].
  destruct (negb (rightVisibleColIndex s =? targetIdx) &&
            (first <? leftVisibleColIndex s)) eqn:Hgo.
  - apply andb_true_iff in Hgo as [_ Hlt%Z.ltb_lt].
    pose proof (tandem_left_kept h s) as [Hk Hl].
    destruct (tandem_left h s) as [h1 s1] eqn:Hstep. cbn [fst snd] in Hk, Hl.
    destruct (IH h1 s1) as (h' & s' & Hrun & Hk' & Hle & Hge & Hlast); [lia|].
    exists h', s'. split; [done|]. split; [by eapply kept_trans|].
    split; [lia|]. split; [lia|]. right.
    destruct Hlast as [Hsame|(h0 & s0 & Hk0 & Hl0 & Hs0)].
    + exists h, s. split; [apply kept_refl|]. split; [lia|]. congruence.
    + exists h0, s0. split; [by eapply kept_trans|]. split; [lia|done].
  - exists h, s. split; [done|]. split; [apply kept_refl|]. split; [lia|].
    split; [lia|]. by left.
Qed.

Lemma getitem_throws {A} (l : list A) (i : Z) e : getitem l i = Throws e → e = IndexError.
Proof.
  unfold getitem. destruct (_ <? 0); [by intros [= <-]|].
  destruct (l !! _); [done|by intros [= <-]].
Qed.

(** The second loop ends, after at most as many rounds as the left offset
    is right of 0. *)
Lemma pageLeft_squeeze_ends (fuel : nat) :
  ∀ h (s : Sheet Row),
    (Z.to_nat (leftVisibleColIndex s) < fuel)%nat →
    ∃ res, pageLeft_squeeze fuel h s = Some res ∧
      match res with
      | Returns (h', s') =>
          kept h s h' s' ∧
          Z.min 0 (leftVisibleColIndex s) ≤ leftVisibleColIndex s' ≤ leftVisibleColIndex s + 1
      | Throws e => e = IndexError ∨ e = Builtin KeyError ∨ e = TypeError
      end.
Proof.
  induction fuel as [|fuel IH]; intros h s Hfuel; [lia|].
  cbn [Paging.pageLeft_squeeze].
  destruct (Z.ltb_spec 0 (leftVisibleColIndex s)) as [Hpos|Hle].
  - destruct (getitem (visibleCols h s) (rightVisibleColIndex s)) as [rightcol|e] eqn:Hget.
    2:{ exists (Throws e). split; [done|]. left. by eapply getitem_throws. }
    destruct (visibleColLayout s !! rightVisibleColIndex s) as [[x w]|].
    2:{ exists (Throws (Builtin KeyError)). split; [done|]. right. by left. }
    destruct (width (h !!! rightcol)) as [colwidth|].
    2:{ exists (Throws TypeError). split; [done|]. right. by right. }
    destruct (w <? colwidth).
    + eexists (Returns (_, _)). split; [done|]. cbn. split; [|lia].
      split_and!; try done. lia.
    + pose proof (tandem_left_kept h s) as [Hk Hl].
      destruct (tandem_left h s) as [h1 s1] eqn:Hstep. cbn [fst snd] in Hk, Hl.
      destruct (IH h1 s1) as (res & Hrun & Hres); [lia|].
      exists res. split; [done|]. destruct res as [[h' s']|e]; [|done].
      destruct Hres as [Hk' Hb]. split; [by eapply kept_trans|lia].
  - eexists (Returns (_, _)). split; [done|]. split; [apply kept_refl|lia].
Qed.

(** The columns that are no key columns come after the key columns in
    [visibleCols]: the first of them is at the index [len(keyCols)]. *)
Lemma first_nonkey h (s : Sheet Row) c0 :
  getitem (nonKeyVisibleCols h s) 0 = Returns c0 →
  ∃ i : nat, list_index (visibleCols h s) c0 = Returns (Z.of_nat i) ∧
             (i < length (visibleCols h s))%nat.
Proof.
  intros Hget.
  assert (Hin : c0 ∈ nonKeyVisibleCols h s).
  { unfold getitem in Hget. cbn in Hget.
    destruct (nonKeyVisibleCols h s) as [|c l]; [done|].
    cbn in Hget. injection Hget as <-. apply list_elem_of_here. }
  unfold nonKeyVisibleCols in Hin.
  apply list_elem_of_In, List.filter_In in Hin as [Hc Hp].
  apply list_elem_of_In in Hc.
  apply andb_true_iff in Hp as [Hh Hk]. apply negb_true_iff in Hh.
  rewrite (ViewFacts.col_in_keyCols h s c0 Hc Hh) in Hk.
  destruct (ViewFacts.list_index_elem (visibleCols h s) c0) as (i & Hi & Hl & _).
  { unfold visibleCols. apply elem_of_app. right.
    apply list_elem_of_In, List.filter_In. split; [by apply list_elem_of_In|].
    by rewrite Hh, Hk. }
  exists i. split; [done|]. by eapply lookup_lt_Some.
Qed.

(** What [pageLeft] does, whatever the sheet. *)
Lemma pageLeft_ends (fuel : nat) h (s : Sheet Row) :
  (Z.to_nat (leftVisibleColIndex s) < fuel)%nat →
  ∃ res, pageLeft fuel h s = Some res ∧
    (nonKeyVisibleCols h s = [] → res = Throws IndexError) ∧
    match res with
    | Returns (h', s') =>
        kept h s h' s' ∧
        Z.min 0 (leftVisibleColIndex s) ≤ leftVisibleColIndex s' ≤ leftVisibleColIndex s + 1
    | Throws e => e = IndexError ∨ e = Builtin KeyError ∨ e = TypeError
    end.
Proof.
  intros Hfuel. unfold Paging.pageLeft. cbv zeta.
  destruct (getitem (nonKeyVisibleCols h s) 0) as [c0|e] eqn:Hget.
  2:{ exists (Throws e). apply getitem_throws in Hget as ->. split_and!; [done|done|by left]. }
  assert (Hne : nonKeyVisibleCols h s ≠ []).
  { intros Hnil. by rewrite Hnil in Hget. }
  destruct (first_nonkey h s c0 Hget) as (i & -> & _).
  destruct (pageLeft_shift_returns (leftVisibleColIndex s) (Z.of_nat i) fuel h s)
    as (h1 & s1 & -> & Hk & Hle & Hge & _); [lia|].
  destruct (rightVisibleColIndex s1 =? nVisibleCols h1 s1 - 1).
  - destruct (pageLeft_squeeze_ends fuel h1 s1) as (res & -> & Hres); [lia|].
    exists res. split; [done|]. split; [done|].
    destruct res as [[h' s']|e]; [|done].
    destruct Hres as [Hk' Hb]. split; [by eapply kept_trans|lia].
  - eexists (Returns (_, _)). split; [done|]. split; [done|]. split; [done|lia].
Qed.

(** X28: [pageLeft] ends, in no more rounds of its two loops than the left
    offset counts; without a visible column that is no key column it
    raises [IndexError]; it raises nothing but [IndexError], [KeyError]
    and [TypeError]; and when it returns the cursor column and the left
    offset have moved in tandem (their difference is what it was), the
    left offset by at most one to the right and not below 0, and the
    rows, the columns, the row cursor, the top row and the flags of the
    columns are untouched. *)
Theorem pageLeft_tandem (fuel : nat) h (s : Sheet Row) :
  (Z.to_nat (leftVisibleColIndex s) < fuel)%nat →
  ∃ res, pageLeft fuel h s = Some res ∧
    (nonKeyVisibleCols h s = [] → res = Throws IndexError) ∧
    match res with
    | Returns (h', s') =>
        cursorVisibleColIndex s' - leftVisibleColIndex s' =
          cursorVisibleColIndex s - leftVisibleColIndex s ∧
        Z.min 0 (leftVisibleColIndex s) ≤ leftVisibleColIndex s' ≤ leftVisibleColIndex s + 1 ∧
        rows s' = rows s ∧ columns s' = columns s ∧
        cursorRowIndex s' = cursorRowIndex s ∧ topRowIndex s' = topRowIndex s ∧
        same_flags h h'
    | Throws e => e = IndexError ∨ e = Builtin KeyError ∨ e = TypeError
    end.
Proof.
  intros Hfuel. destruct (pageLeft_ends fuel h s Hfuel) as (res & Hrun & Hnone & Hres).
  exists res. split; [done|]. split; [done|].
  destruct res as [[h' s']|e]; [|done].
  destruct Hres as [(? & _ & ? & ? & ? & ? & _ & _ & _ & ?) ?]. split_and!; try done; lia.
Qed.

(** *** The right column after a layout *)

(** Where the layout loop stops: at a column whose width is known, if the
    screen shows a row; and this column is the last of the list or was
    stored in the layout. *)
Lemma loop_last (s : Sheet Row) kcols nvis vrows vcols :
  ∀ i h layout x last h' layout' x' last',
    loop s kcols nvis vrows vcols i (h, layout, x) last = (h', layout', x', last') →
    vcols ≠ [] → x ≤ windowWidth s - 1 → (0 <? len vrows) = true →
    ∃ c, vcols !! Z.to_nat (last' - i) = Some c ∧ i ≤ last' ∧
         width (h' !!! c) ≠ None ∧
         (last' = i + len vcols - 1 ∨
          col_in c kcols || (leftVisibleColIndex s <=? last') = true).
Proof.
  induction vcols as [|c rest IH];
    intros i h layout x last h' layout' x' last' Hrun Hne Hx Hrows; [done|].
  rewrite loop_cons in Hrun. cbv zeta in Hrun.
  pose proof (LayoutAgain.body_heap getMaxWidth options s kcols nvis vrows i c h layout x)
    as (_ & _ & _ & Hw).
  destruct (body_layout getMaxWidth options s kcols nvis vrows i c h layout x)
    as (h1 & w & Hb).
  rewrite Hb in Hrun, Hw. clear Hb.
  assert (Hw1 : width (h1 !!! c) ≠ None).
  { intros Hnone. destruct (col_in c kcols || (leftVisibleColIndex s <=? i));
      cbn [fst] in Hw; apply Hw in Hnone; congruence. }
  clear Hw.
  assert (Hhere : ∀ stored : bool,
            (stored = false → length rest = 0%nat) →
            stored = false ∨ col_in c kcols || (leftVisibleColIndex s <=? i) = true →
            ∃ c0, (c :: rest) !! Z.to_nat (i - i) = Some c0 ∧ i ≤ i ∧
                  width (h1 !!! c0) ≠ None ∧
                  (i = i + len (c :: rest) - 1 ∨
                   col_in c0 kcols || (leftVisibleColIndex s <=? i) = true)).
  { intros stored Hlen Hst. exists c. rewrite Z.sub_diag. split_and!; [done|lia|done|].
    destruct stored.
    - right. by destruct Hst.
    - left. unfold len. rewrite length_cons, Hlen by done. lia. }
  assert (Hrec : ∀ l1 x1,
            x1 ≤ windowWidth s - 1 →
            loop s kcols nvis vrows rest (i + 1) (h1, l1, x1) i = (h', layout', x', last') →
            ∃ c0, (c :: rest) !! Z.to_nat (last' - i) = Some c0 ∧ i ≤ last' ∧
                  width (h' !!! c0) ≠ None ∧
                  (last' = i + len (c :: rest) - 1 ∨
                   col_in c0 kcols || (leftVisibleColIndex s <=? last') = true)).
  { intros l1 x1 Hx1 Hrun1. destruct (decide (rest = [])) as [->|Hrest].
    - cbn in Hrun1. injection Hrun1 as <- <- <- <-.
      exists c. rewrite Z.sub_diag. split_and!; [done|lia|done|].
      left. unfold len. cbn. lia.
    - destruct (IH _ _ _ _ _ _ _ _ _ Hrun1 Hrest Hx1 Hrows) as (c0 & Hc0 & Hle & Hw0 & Hend).
      exists c0. split_and!; [|lia|done|].
      + replace (Z.to_nat (last' - i)) with (S (Z.to_nat (last' - (i + 1)))) by lia. done.
      + destruct Hend as [->|?]; [left|by right]. unfold len. rewrite length_cons. lia. }
  destruct (col_in c kcols || (leftVisibleColIndex s <=? i)) eqn:Hs; cbn [snd] in Hrun.
  - destruct (Z.ltb_spec (windowWidth s - 1) (x + w + sepColWidth options)) as [Hbrk|Hno].
    + injection Hrun as <- <- <- <-. apply (Hhere true); [done|by right].
    + by eapply Hrec.
  - destruct (Z.ltb_spec (windowWidth s - 1) x) as [?|_]; [lia|]. by eapply Hrec.
Qed.

(** The state is such that the test of the second loop of [pageLeft] can
    be made: [rightVisibleColIndex] is the index of a visible column, it is
    a key of the layout, and the width of the column is known. *)
Local Abbreviation right_known h s :=
  (∃ c : ref, getitem (visibleCols h s) (rightVisibleColIndex s) = Returns c ∧
              is_Some (visibleColLayout s !! rightVisibleColIndex s) ∧
              width (h !!! c) ≠ None).

Lemma calcColLayout_right h (s : Sheet Row) h1 s1 :
  calcColLayout h s = (h1, s1) →
  1 ≤ windowWidth s → 0 < len (visibleRows h s) → 1 ≤ nVisibleCols h s →
  leftVisibleColIndex s ≤ nVisibleCols h s - 1 →
  right_known h1 s1.
Proof.
  intros Hc HW Hrows Hnv Hleft.
  pose proof (calcColLayout_kept h s) as [Hk _]. rewrite Hc in Hk. cbn [fst snd] in Hk.
  apply kept_views in Hk as (_ & Hv & _). rewrite Hv. clear Hv.
  unfold Sheets.calcColLayout in Hc.
  destruct (loop s (keyCols h s) (nVisibleCols h s) (visibleRows h s)
              (visibleCols h s) 0 (h, ∅, 0) 0) as [[[h2 layout] x] last] eqn:Hrun.
  injection Hc as <- <-. cbn [set_colLayout rightVisibleColIndex visibleColLayout].
  destruct (loop_last _ _ _ _ _ _ _ _ _ _ _ _ _ _ Hrun) as (c & Hcol & Hle & Hw & Hend).
  { intros Hnil. unfold nVisibleCols, len in Hnv. rewrite Hnil in Hnv. simpl in Hnv. lia. }
  { lia. } { by apply Z.ltb_lt. }
  rewrite Z.sub_0_r in Hcol.
  assert (Hlt : (Z.to_nat last < length (visibleCols h s))%nat).
  { by eapply lookup_lt_Some. }
  exists c. split_and!; [| |done].
  - destruct (RoundTripFacts.getitem_lookup (visibleCols h s) last) as (c' & -> & Hc').
    { unfold len. lia. }
    congruence.
  - destruct (loop_keys _ _ _ _ _ _ _ _ _ _ _ _ _ _ _ _ Hrun) as (_ & Hkeys & _).
    specialize (Hkeys _ _ Hcol). rewrite Z.add_0_l, Z2Nat.id in Hkeys by lia.
    apply Hkeys; [lia|].
    destruct Hend as [->|?]; [|done].
    apply orb_true_iff. right. apply Z.leb_le. unfold nVisibleCols in Hleft. lia.
Qed.

Lemma tandem_left_right h (s : Sheet Row) h1 s1 :
  tandem_left h s = (h1, s1) →
  1 ≤ windowWidth s → 0 < len (visibleRows h s) → 1 ≤ nVisibleCols h s →
  leftVisibleColIndex s ≤ nVisibleCols h s →
  right_known h1 s1.
Proof.
  unfold Paging.tandem_left. cbv zeta. intros Hc HW Hrows Hnv Hleft.
  apply (calcColLayout_right _ _ _ _ Hc).
  - done.
  - done.
  - done.
  - change (leftVisibleColIndex s - 1 ≤ nVisibleCols h s - 1). lia.
Qed.

(** With a row on the screen and the right column known, the second loop
    returns. *)
Lemma pageLeft_squeeze_returns (fuel : nat) :
  ∀ h (s : Sheet Row),
    (Z.to_nat (leftVisibleColIndex s) < fuel)%nat →
    1 ≤ windowWidth s → 0 < len (visibleRows h s) → 1 ≤ nVisibleCols h s →
    leftVisibleColIndex s ≤ nVisibleCols h s →
    right_known h s →
    ∃ h' s', pageLeft_squeeze fuel h s = Some (Returns (h', s')).
Proof.
  induction fuel as [|fuel IH]; intros h s Hfuel HW Hrows Hnv Hleft Hknown; [lia|].
  cbn [Paging.pageLeft_squeeze].
  destruct (Z.ltb_spec 0 (leftVisibleColIndex s)) as [Hpos|Hle]; [|by eexists _, _].
  destruct Hknown as (c & -> & [[x w] ->] & Hw).
  destruct (width (h !!! c)) as [colwidth|]; [|done].
  destruct (w <? colwidth); [by eexists _, _|].
  pose proof (tandem_left_kept h s) as [Hk Hl].
  destruct (tandem_left h s) as [h1 s1] eqn:Hstep. cbn [fst snd] in Hk, Hl.
  pose proof (kept_views _ _ _ _ Hk) as (_ & _ & Hnv1 & Hrows1).
  apply IH; [lia| | | | |].
  - destruct Hk as (_ & _ & _ & _ & _ & _ & _ & _ & -> & _). done.
  - by rewrite Hrows1.
  - by rewrite Hnv1.
  - rewrite Hnv1. lia.
  - by apply (tandem_left_right _ _ _ _ Hstep).
Qed.

(** With a row on the screen, a column that is no key column and the
    right column known, [pageLeft] returns. *)
Lemma pageLeft_returns (fuel : nat) h (s : Sheet Row) :
  (Z.to_nat (leftVisibleColIndex s) < fuel)%nat →
  1 ≤ windowWidth s → 0 < len (visibleRows h s) → nonKeyVisibleCols h s ≠ [] →
  leftVisibleColIndex s ≤ nVisibleCols h s →
  right_known h s →
  ∃ h' s', pageLeft fuel h s = Some (Returns (h', s')).
Proof.
  intros Hfuel HW Hrows Hne Hleft Hknown. unfold Paging.pageLeft. cbv zeta.
  destruct (getitem (nonKeyVisibleCols h s) 0) as [c0|e] eqn:Hget.
  2:{ unfold getitem in Hget. destruct (nonKeyVisibleCols h s); [done|]. by cbn in Hget. }
  destruct (first_nonkey h s c0 Hget) as (i & -> & Hi).
  assert (Hnv : 1 ≤ nVisibleCols h s) by (unfold nVisibleCols, len; lia).
  destruct (pageLeft_shift_returns (leftVisibleColIndex s) (Z.of_nat i) fuel h s)
    as (h1 & s1 & -> & Hk & Hle & Hge & Hlast); [lia|].
  destruct (rightVisibleColIndex s1 =? nVisibleCols h1 s1 - 1); [|by eexists _, _].
  pose proof (kept_views _ _ _ _ Hk) as (_ & _ & Hnv1 & Hrows1).
  apply pageLeft_squeeze_returns; [lia| | | | |].
  - destruct Hk as (_ & _ & _ & _ & _ & _ & _ & _ & -> & _). done.
  - by rewrite Hrows1.
  - by rewrite Hnv1.
  - rewrite Hnv1. lia.
  - destruct Hlast as [[= -> ->]|(h0 & s0 & Hk0 & Hl0 & Hs0)]; [done|].
    pose proof (kept_views _ _ _ _ Hk0) as (_ & _ & Hnv0 & Hrows0).
    apply (tandem_left_right h0 s0); [done| | | |].
    + destruct Hk0 as (_ & _ & _ & _ & _ & _ & _ & _ & -> & _). done.
    + by rewrite Hrows0.
    + by rewrite Hnv0.
    + rewrite Hnv0. lia.
Qed.

(** X29: on a sheet as [calcColLayout] left it (the layout is that of the
    last draw), with a row on the screen, a visible column that is no key
    column and a left offset that is the index of a visible column or
    left of them, [go-rightmost] raises nothing: it returns with the
    cursor on the last visible column and a left offset from 0 to
    [nVisibleCols] (one past the cursor at most), and leaves the rows, the
    columns, the row cursor and the top row alone. *)
Theorem go_rightmost_returns (fuel : nat) h (s : Sheet Row) :
  calcColLayout h s = (h, s) →
  1 ≤ windowWidth s →
  0 < len (visibleRows h s) →
  nonKeyVisibleCols h s ≠ [] →
  leftVisibleColIndex s ≤ nVisibleCols h s - 1 →
  (Z.to_nat (nVisibleCols h s) ≤ fuel)%nat →
  ∃ h' s', go_rightmost fuel h s = Some (Returns (h', s')) ∧
           cursorVisibleColIndex s' = nVisibleCols h s - 1 ∧
           0 ≤ leftVisibleColIndex s' ≤ nVisibleCols h s ∧
           rows s' = rows s ∧ columns s' = columns s ∧
           cursorRowIndex s' = cursorRowIndex s ∧ topRowIndex s' = topRowIndex s ∧
           same_flags h h'.
Proof.
  intros Hdrawn HW Hrows Hne Hleft Hfuel.
  assert (Hnv : 1 ≤ nVisibleCols h s).
  { destruct (nonKeyVisibleCols h s) as [|c0 l] eqn:Hnk; [done|].
    destruct (first_nonkey h s c0) as (i & _ & Hi); [by rewrite Hnk|].
    unfold nVisibleCols, len. lia. }
  pose proof (calcColLayout_right h s h s Hdrawn HW Hrows Hnv Hleft) as Hknown.
  unfold Paging.go_rightmost. cbv zeta.
  set (s0 := set_leftVisibleColIndex (len (visibleCols h s) - 1) s).
  assert (Hl0 : leftVisibleColIndex s0 = nVisibleCols h s - 1) by done.
  destruct (pageLeft_returns fuel h s0) as (h' & s' & Hrun); [lia|done|done|done| |done|].
  { rewrite Hl0. change (nVisibleCols h s0) with (nVisibleCols h s). lia. }
  destruct (pageLeft_ends fuel h s0) as (res & Hrun' & _ & Hres); [lia|].
  rewrite Hrun in Hrun'. injection Hrun' as <-. destruct Hres as [Hk Hb].
  rewrite Hrun. exists h', (set_cursorVisibleColIndex (len (visibleCols h' s') - 1) s').
  pose proof (kept_views _ _ _ _ Hk) as (_ & Hv & _).
  destruct Hk as (? & _ & ? & ? & ? & ? & _).
  split; [done|]. cbn. rewrite Hv. split_and!; try done.
  - rewrite Hl0 in Hb. lia.
  - rewrite Hl0 in Hb. lia.
Qed.

(** X30: but on a sheet that shows its last visible column and has at
    least two, [go-rightmost] raises [TypeError] when the width of the last
    column is [None], as it is on a sheet with no rows: the test
    [rightcol.width > ...] of [pageLeft] compares [None] with a number. *)
Theorem go_rightmost_no_width (fuel : nat) h (s : Sheet Row) c :
  nonKeyVisibleCols h s ≠ [] →
  2 ≤ nVisibleCols h s →
  rightVisibleColIndex s = nVisibleCols h s - 1 →
  is_Some (visibleColLayout s !! rightVisibleColIndex s) →
  visibleCols h s !! Z.to_nat (nVisibleCols h s - 1) = Some c →
  width (h !!! c) = None →
  go_rightmost (S fuel) h s = Some (Throws TypeError).
Proof.
  intros Hne Hnv Hright [[x w] Hlay] Hc Hw.
  unfold Paging.go_rightmost, Paging.pageLeft. cbv zeta.
  set (s0 := set_leftVisibleColIndex (len (visibleCols h s) - 1) s).
  change (nonKeyVisibleCols h s0) with (nonKeyVisibleCols h s).
  change (visibleCols h s0) with (visibleCols h s).
  destruct (getitem (nonKeyVisibleCols h s) 0) as [c0|e] eqn:Hget.
  2:{ unfold getitem in Hget. destruct (nonKeyVisibleCols h s); [done|]. by cbn in Hget. }
  destruct (first_nonkey h s c0 Hget) as (i & -> & Hi).
  cbn [Paging.pageLeft_shift].
  change (rightVisibleColIndex s0) with (rightVisibleColIndex s).
  change (leftVisibleColIndex s0) with (nVisibleCols h s - 1).
  rewrite Hright, Z.eqb_refl. cbn [negb andb].
  change (nVisibleCols h s0) with (nVisibleCols h s).
  change (rightVisibleColIndex s0) with (rightVisibleColIndex s).
  rewrite Hright, Z.eqb_refl. cbn [Paging.pageLeft_squeeze].
  change (leftVisibleColIndex s0) with (nVisibleCols h s - 1).
  destruct (Z.ltb_spec 0 (nVisibleCols h s - 1)) as [_|?]; [|lia].
  change (visibleCols h s0) with (visibleCols h s).
  change (rightVisibleColIndex s0) with (rightVisibleColIndex s).
  change (visibleColLayout s0) with (visibleColLayout s).
  destruct (RoundTripFacts.getitem_lookup (visibleCols h s) (rightVisibleColIndex s))
    as (c' & -> & Hc').
  { rewrite Hright. unfold nVisibleCols in *. lia. }
  rewrite Hright in Hc'. rewrite Hc in Hc'. injection Hc' as <-.
  by rewrite Hlay, Hw.
Qed.

End Facts.

Import Fixtures PagingFixtures.

(** A window 25 wide over four columns 10 wide, the cursor on the last
    column and the left offset 3: [pageLeft] moves both one column to the
    left. *)
Lemma pageLeft_tandem_witness :
  ∃ res, Paging.pageLeft maxw opts 4 heap_pqrt (sheet_pqrt 25 3 3) = Some res ∧
    (nonKeyVisibleCols heap_pqrt (sheet_pqrt 25 3 3) = [] → res = Throws IndexError) ∧
    match res with
    | Returns (h', s') =>
        cursorVisibleColIndex s' - leftVisibleColIndex s' =
          cursorVisibleColIndex (sheet_pqrt 25 3 3) - leftVisibleColIndex (sheet_pqrt 25 3 3) ∧
        Z.min 0 (leftVisibleColIndex (sheet_pqrt 25 3 3)) ≤ leftVisibleColIndex s'
          ≤ leftVisibleColIndex (sheet_pqrt 25 3 3) + 1 ∧
        rows s' = rows (sheet_pqrt 25 3 3) ∧ columns s' = columns (sheet_pqrt 25 3 3) ∧
        cursorRowIndex s' = cursorRowIndex (sheet_pqrt 25 3 3) ∧
        topRowIndex s' = topRowIndex (sheet_pqrt 25 3 3) ∧
        same_flags heap_pqrt h'
    | Throws e => e = IndexError ∨ e = Builtin KeyError ∨ e = TypeError
    end.
Proof.
  apply (pageLeft_tandem maxw opts 4 heap_pqrt (sheet_pqrt 25 3 3)).
  vm_compute. lia.
Defined.

(** The sheet [pqrt] drawn in a window 25 wide with the cursor and the
    left offset at 0: [go-rightmost] puts the cursor on column 3. *)
Lemma go_rightmost_returns_witness :
  ∃ h' s',
    Paging.go_rightmost maxw opts 4 (drawn_pqrt 25 0 0).1 (drawn_pqrt 25 0 0).2
      = Some (Returns (h', s')) ∧
    cursorVisibleColIndex s' = nVisibleCols (drawn_pqrt 25 0 0).1 (drawn_pqrt 25 0 0).2 - 1 ∧
    0 ≤ leftVisibleColIndex s' ≤ nVisibleCols (drawn_pqrt 25 0 0).1 (drawn_pqrt 25 0 0).2 ∧
    rows s' = rows (drawn_pqrt 25 0 0).2 ∧ columns s' = columns (drawn_pqrt 25 0 0).2 ∧
    cursorRowIndex s' = cursorRowIndex (drawn_pqrt 25 0 0).2 ∧
    topRowIndex s' = topRowIndex (drawn_pqrt 25 0 0).2 ∧
    same_flags (drawn_pqrt 25 0 0).1 h'.
Proof.
  apply (go_rightmost_returns maxw opts 4 (drawn_pqrt 25 0 0).1 (drawn_pqrt 25 0 0).2);
    vm_compute; first [reflexivity | discriminate | lia].
Defined.

(** The sheet [uv], which has no rows, drawn in a window 80 wide:
    [go-rightmost] raises [TypeError]. *)
Lemma go_rightmost_no_width_witness :
  Paging.go_rightmost maxw opts 1 drawn_uv.1 drawn_uv.2 = Some (Throws TypeError).
Proof.
  apply (go_rightmost_no_width maxw opts 0 drawn_uv.1 drawn_uv.2 1%nat);
    vm_compute; first [reflexivity | discriminate | lia | by eexists].
Defined.

End PagingFacts.
